(** * Invoice layout engine: wrapping, totals and section composers

    A shallow embedding of the invoice renderer (the server module that
    builds the single-page tax invoice) and the proofs of its stated
    properties.

    - JavaScript numbers are IEEE 754 binary64 values.  They are modelled
      with the Standard Library's executable specification of binary
      floating point ([SpecFloat], precision 53, maximal exponent 1024), so
      that rounding, signed zeros, infinities and NaN behave as in the
      engine.
    - JavaScript strings are sequences of UTF-16 code units.
    - The page is the list of drawing primitives issued so far; every
      composer threads it explicitly and returns its bottom cursor. *)

From Stdlib Require Import ZArith List Bool Lia String Ascii QArith Qabs Lqa.
From Stdlib Require Import Floats.SpecFloat.
From Stdlib Require Import Numbers.DecimalString Numbers.DecimalZ.
Import ListNotations.

Open Scope Z_scope.

(* ================================================================== *)
(** ** JavaScript numbers *)
(* ================================================================== *)

Module JSNumber.

Definition prec : Z := 53.
Definition emax : Z := 1024.

Definition Number : Type := spec_float.

Definition add : Number -> Number -> Number := SFadd prec emax.
Definition sub : Number -> Number -> Number := SFsub prec emax.
Definition mul : Number -> Number -> Number := SFmul prec emax.
Definition div : Number -> Number -> Number := SFdiv prec emax.

(** [a > b], [a < b], [a <= b] and [a == b] on numbers. *)
Definition gtb (a b : Number) : bool := SFltb b a.
Definition ltb (a b : Number) : bool := SFltb a b.
Definition leb (a b : Number) : bool := SFleb a b.
Definition eqb (a b : Number) : bool := SFeqb a b.

Definition is_nan (a : Number) : bool :=
  match a with S754_nan => true | _ => false end.

Definition is_finite (a : Number) : bool :=
  match a with S754_zero _ | S754_finite _ _ _ => true | _ => false end.

(** A number literal or an array length: the double nearest to an
    integer. *)
Definition ofZ (z : Z) : Number := binary_normalize prec emax z 0 false.

Definition ofNat (n : nat) : Number := ofZ (Z.of_nat n).

(** The decimal literal [n / 10^k], e.g. [dec 59528 2] for [595.28]:
    the correctly rounded quotient of two exactly representable
    integers is the double nearest to the decimal. *)
Definition dec (n : Z) (k : nat) : Number :=
  div (ofZ n) (ofZ (10 ^ Z.of_nat k)).

(** ToBoolean on a number: [0], [-0] and [NaN] are falsy. *)
Definition truthy (a : Number) : bool :=
  match a with
  | S754_zero _ | S754_nan => false
  | _ => true
  end.

(** [Math.max(a, b)]: NaN if either is NaN, and [+0] is larger than
    [-0]. *)
Definition max (a b : Number) : Number :=
  match a, b with
  | S754_nan, _ | _, S754_nan => S754_nan
  | S754_zero sa, S754_zero sb => S754_zero (andb sa sb)
  | _, _ => if SFltb a b then b else a
  end.

(** [Math.min(a, b)]: NaN if either is NaN, and [-0] is smaller than
    [+0]. *)
Definition min (a b : Number) : Number :=
  match a, b with
  | S754_nan, _ | _, S754_nan => S754_nan
  | S754_zero sa, S754_zero sb => S754_zero (orb sa sb)
  | _, _ => if SFltb b a then b else a
  end.

Definition zero : Number := S754_zero false.

End JSNumber.

Import JSNumber.

Declare Scope js_scope.
Delimit Scope js_scope with js.
Infix "+" := JSNumber.add : js_scope.
Infix "-" := JSNumber.sub : js_scope.
Infix "*" := JSNumber.mul : js_scope.
Infix "/" := JSNumber.div : js_scope.

(* ================================================================== *)
(** ** JavaScript strings *)
(* ================================================================== *)

Module JSString.

(** A UTF-16 code unit. *)
Definition char : Type := N.
Definition jsstring : Type := list char.

(** An ASCII literal of the source. *)
Fixpoint lit (s : string) : jsstring :=
  match s with
  | EmptyString => []
  | String c s' => N_of_ascii c :: lit s'
  end.

Definition space : char := 32%N.
Definition newline : char := 10%N.

(** ToBoolean on a string: only the empty string is falsy. *)
Definition truthy (s : jsstring) : bool :=
  match s with [] => false | _ => true end.

(** [s.split(sep)] for a one-character separator.  The result is never
    empty: [''.split(sep)] is [['']]. *)
Fixpoint split (sep : char) (s : jsstring) : list jsstring :=
  match s with
  | [] => [[]]
  | c :: s' =>
      if N.eqb c sep then [] :: split sep s'
      else match split sep s' with
           | [] => [[c]]
           | w :: ws => (c :: w) :: ws
           end
  end.

(** WhiteSpace and LineTerminator code points, which [trim] strips. *)
Definition is_space (c : char) : bool :=
  (N.eqb c 9 || N.eqb c 10 || N.eqb c 11 || N.eqb c 12 || N.eqb c 13
   || N.eqb c 32 || N.eqb c 160 || N.eqb c 5760
   || (N.leb 8192 c && N.leb c 8202)
   || N.eqb c 8232 || N.eqb c 8233 || N.eqb c 8239 || N.eqb c 8287
   || N.eqb c 12288 || N.eqb c 65279)%N%bool.

Fixpoint trimStart (s : jsstring) : jsstring :=
  match s with
  | [] => []
  | c :: s' => if is_space c then trimStart s' else s
  end.

Definition trim (s : jsstring) : jsstring :=
  rev (trimStart (rev (trimStart s))).

(** [ws.join(sep)] *)
Fixpoint join (sep : jsstring) (ws : list jsstring) : jsstring :=
  match ws with
  | [] => []
  | [w] => w
  | w :: ws' => w ++ sep ++ join sep ws'
  end.

End JSString.

Import JSString.

(* ================================================================== *)
(** ** Fonts and text measurement *)
(* ================================================================== *)

Inductive FontName := Helvetica | HelveticaBold.

(** An embedded font: the drawing library's handle, of which the layout
    uses the width measurement only. *)
Record Font := mkFont {
  fontName : FontName;
  widthOfTextAtSize : jsstring -> Number -> Number
}.

Record Fonts := mkFonts { normal : Font; bold : Font }.

(* ================================================================== *)
(** ** wrapText *)
(* ================================================================== *)

(** The body of the inner [for (const word of words)] loop, on the pair
    [(lines, currentLine)]. *)
Definition wrapStep (maxWidth : Number) (font : Font) (fontSize : Number)
    (st : list jsstring * jsstring) (word : jsstring)
    : list jsstring * jsstring :=
  let '(lines, currentLine) := st in
  let testLine :=
    if truthy currentLine then currentLine ++ [space] ++ word else word in
  if truthy (trim testLine) then
    let width := widthOfTextAtSize font testLine fontSize in
    if JSNumber.gtb width maxWidth && truthy currentLine
    then (lines ++ [currentLine], word)
    else (lines, testLine)
  else (lines, currentLine).

(** The body of the outer [for (const paragraph of paragraphs)] loop:
    the lines one paragraph adds to [allLines]. *)
Definition wrapParagraph (maxWidth : Number) (font : Font)
    (fontSize : Number) (paragraph : jsstring) : list jsstring :=
  let words := split space paragraph in
  let '(lines, currentLine) :=
    fold_left (wrapStep maxWidth font fontSize) words ([], []) in
  if truthy currentLine then lines ++ [currentLine] else lines.

Definition wrapText (text : jsstring) (maxWidth : Number) (font : Font)
    (fontSize : Number) : list jsstring :=
  let paragraphs := split newline text in
  let allLines :=
    fold_left (fun allLines paragraph =>
                 allLines ++ wrapParagraph maxWidth font fontSize paragraph)
              paragraphs [] in
  if Nat.ltb 0 (List.length allLines) then allLines else [[]].

Definition getTextWidth (text : jsstring) (font : Font) (fontSize : Number)
    : Number :=
  widthOfTextAtSize font text fontSize.

Definition centerTextX (text : jsstring) (x width : Number) (font : Font)
    (fontSize : Number) : Number :=
  let textWidth := getTextWidth text font fontSize in
  (x + (width - textWidth) / ofZ 2)%js.

(* ================================================================== *)
(** ** Number formatting *)
(* ================================================================== *)

Definition digitsOfZ (n : Z) : jsstring :=
  lit (NilZero.string_of_uint (N.to_uint (Z.to_N n))).

(** Steps 9-10 of [Number.prototype.toFixed]: the decimal digits of the
    integer [n], padded with zeros on the left to at least [f + 1]
    digits, with a point before the last [f] digits. *)
Definition fixedDigits (n : Z) (f : nat) : jsstring :=
  let m := digitsOfZ n in
  match f with
  | O => m
  | _ =>
      let k := List.length m in
      let m := if Nat.leb k f then repeat 48%N (f + 1 - k) ++ m else m in
      let k := List.length m in
      firstn (k - f) m ++ lit "." ++ skipn (k - f) m
  end.

(** The integer [n] for which [n / 10^f - m * 2^e] is as close to zero as
    possible, the larger one when there are two. *)
Definition nearestFixed (m : positive) (e : Z) (f : nat) : Z :=
  let scaled := Z.pos m * 10 ^ Z.of_nat f in
  if 0 <=? e then scaled * 2 ^ e
  else (2 * scaled + 2 ^ (- e)) / (2 * 2 ^ (- e)).

(** [m * 2^e >= 10^21] *)
Definition atLeast1e21 (m : positive) (e : Z) : bool :=
  if 0 <=? e then 10 ^ 21 <=? Z.pos m * 2 ^ e
  else 10 ^ 21 * 2 ^ (- e) <=? Z.pos m.

Section Formatting.

(** [Number::toString] of the engine (the shortest decimal that reads
    back as the same double), used by [toString()] and by [toFixed] on
    values of magnitude at least [1e21]. *)
Variable numberToString : Number -> jsstring.

(** [x.toFixed(f)] for [0 <= f <= 100]. *)
Definition toFixed (x : Number) (f : nat) : jsstring :=
  match x with
  | S754_nan => lit "NaN"
  | S754_infinity false => lit "Infinity"
  | S754_infinity true => lit "-Infinity"
  | S754_zero _ => fixedDigits 0 f
  | S754_finite s m e =>
      (if s then lit "-" else []) ++
      (if atLeast1e21 m e then numberToString (S754_finite false m e)
       else fixedDigits (nearestFixed m e f) f)
  end.

Definition formatCurrency (amount : Number) : jsstring :=
  lit "Rs " ++ toFixed amount 2.

End Formatting.

(* ================================================================== *)
(** ** Data model *)
(* ================================================================== *)

Module Company.
Record t := mk {
  name : jsstring; brand : jsstring; address : jsstring;
  state : jsstring; stateCode : jsstring; gstin : jsstring;
  contact : jsstring
}.
End Company.

Module Party.
Record t := mk {
  name : jsstring; contact : jsstring; state : jsstring;
  stateCode : jsstring; addressLine : jsstring
}.
End Party.

Module LineItem.
Record t := mk {
  description : jsstring;
  quantity : Number;
  rate : Number;
  unit : jsstring;
  hsn : option jsstring          (* optional per-item override *)
}.
End LineItem.

Module TaxRates.
Record t := mk { cgst : option Number; sgst : option Number }.
End TaxRates.

Module Invoice.
Record t := mk {
  number : jsstring; issueDate : jsstring; dueDate : jsstring;
  terms : jsstring; reference : jsstring; otherReference : jsstring;
  paymentMode : jsstring;
  consignee : Party.t; buyer : Party.t;
  hsn : jsstring;
  items : list LineItem.t;
  taxRates : option TaxRates.t;   (* may be missing *)
  roundOff : option Number;       (* may be missing *)
  amountInWords : jsstring; taxAmountInWords : jsstring;
  remarks : jsstring; declaration : jsstring
}.
End Invoice.

Module Bank.
Record t := mk {
  name : jsstring; accountNumber : jsstring; ifsc : jsstring;
  branch : jsstring
}.
End Bank.

Module Totals.
Record t := mk {
  baseAmount : Number; cgstAmount : Number; sgstAmount : Number;
  taxTotal : Number; roundOff : Number; grandTotal : Number
}.
End Totals.

(** The invoice the service renders. *)
Module InvoiceData.
Record t := mk {
  company : Company.t; invoice : Invoice.t; bank : Bank.t
}.
End InvoiceData.

Definition createInvoiceData : InvoiceData.t :=
  InvoiceData.mk
    (Company.mk
       (lit "Delovita Services Pvt. Ltd.")
       (lit "HeyEV!")
       (lit "2/52 Viklap Khand, Near Rail Vihar, Chauraha, Gomti Nagar, Lucknow")
       (lit "Uttar Pradesh")
       (lit "09")
       (lit "09AAJCD9447L2W")
       (lit "+91 8368395140"))
    (Invoice.mk
       (lit "25-26/UP-1596")
       (lit "08 Nov 2025")
       (lit "08 Nov 2025")
       (lit "100% Payment")
       (lit "HEV-UP-190 dt. 08-Nov-25")
       []
       (lit "Cash")
       (Party.mk (lit "Ranjeet") (lit "7897931119") (lit "Uttar Pradesh")
                 (lit "09") (lit "Lucknow, Uttar Pradesh"))
       (Party.mk (lit "Ranjeet") (lit "7897931119") (lit "Uttar Pradesh")
                 (lit "09") (lit "Lucknow, Uttar Pradesh"))
       (lit "997319")
       [ LineItem.mk (lit "Monthly Payment") (ofZ 1) (dec 303389 2)
                     (lit "Nos.") None ]
       (Some (TaxRates.mk (Some (dec 9 2)) (Some (dec 9 2))))
       (Some (dec 1 2))
       (lit "INR Three Thousand Five Hundred Eighty Only")
       (lit "INR Five Hundred Forty Six and Ten paise Only")
       (lit "Monthly Payment 3580, 18 Months" ++ [newline]
          ++ lit "Payment no. 3")
       (lit "We declare that this invoice shows the actual price of the goods described and that all particulars are true and correct."))
    (Bank.mk (lit "HDFC Bank") (lit "50200076730302") (lit "HDFC0001098")
             (lit "Badshahpur")).

(* ================================================================== *)
(** ** computeTotals *)
(* ================================================================== *)

(** [v || 0] where [v] is a number or [undefined]. *)
Definition orZero (v : option Number) : Number :=
  match v with
  | Some x => if JSNumber.truthy x then x else ofZ 0
  | None => ofZ 0
  end.

(** [obj?.field] *)
Definition optChain {A B} (obj : option A) (field : A -> option B)
    : option B :=
  match obj with Some o => field o | None => None end.

Definition computeTotals (invoice : Invoice.t) : Totals.t :=
  let baseAmount :=
    fold_left (fun sum item =>
                 (sum + LineItem.quantity item * LineItem.rate item)%js)
              (Invoice.items invoice) (ofZ 0) in
  let cgstAmount :=
    (baseAmount * orZero (optChain (Invoice.taxRates invoice) TaxRates.cgst))%js in
  let sgstAmount :=
    (baseAmount * orZero (optChain (Invoice.taxRates invoice) TaxRates.sgst))%js in
  let taxTotal := (cgstAmount + sgstAmount)%js in
  let roundOff := orZero (Invoice.roundOff invoice) in
  let grandTotal := (baseAmount + taxTotal + roundOff)%js in
  Totals.mk baseAmount cgstAmount sgstAmount taxTotal roundOff grandTotal.

(* ================================================================== *)
(** ** The page and the drawing monad *)
(* ================================================================== *)

Record Color := rgb { red : Number; green : Number; blue : Number }.

(** An embedded image handle with its pixel dimensions. *)
Module Image.
Record t := mk { width : Number; height : Number }.
(** [image.scale(factor)] of the drawing library. *)
Definition scale (image : t) (factor : Number) : t :=
  mk (width image * factor)%js (height image * factor)%js.
End Image.

(** The drawing primitives, with the option objects of the calls. *)
Inductive PageOp :=
| DrawRectangle (x y width height : Number) (borderColor : Color)
                (borderWidth : Number)
| DrawLine (startX startY endX endY : Number) (thickness : Number)
           (color : Color)
| DrawText (text : jsstring) (x y size : Number) (font : Font)
           (color : Color) (maxWidth : option Number)
| DrawImage (image : Image.t) (x y width height : Number).

Definition Page : Type := list PageOp.

Inductive Exn := TypeError.

Inductive Result (A : Type) :=
| Ok (a : A)
| Throw (e : Exn).
Arguments Ok {A} a.
Arguments Throw {A} e.

(** Code that draws on the page and may throw. *)
Definition Draw (A : Type) : Type := Page -> Result (A * Page).

Definition ret {A} (a : A) : Draw A := fun page => Ok (a, page).

Definition bind {A B} (m : Draw A) (k : A -> Draw B) : Draw B :=
  fun page =>
    match m page with
    | Ok (a, page') => k a page'
    | Throw e => Throw e
    end.

Definition throw {A} (e : Exn) : Draw A := fun _ => Throw e.

Notation "x <- m ;; k" := (bind m (fun x => k))
  (at level 61, m at next level, right associativity).
Notation "m ;; k" := (bind m (fun _ => k))
  (at level 61, right associativity).
Notation "' pat <- m ;; k" := (bind m (fun x => let 'pat := x in k))
  (at level 61, pat pattern, m at next level, right associativity).

Definition emit (op : PageOp) : Draw unit :=
  fun page => Ok (tt, page ++ [op]).

(** [xs.forEach((x, idx) => body)] *)
Fixpoint forEachFrom {A} (body : A -> nat -> Draw unit) (xs : list A)
    (idx : nat) : Draw unit :=
  match xs with
  | [] => ret tt
  | x :: xs' => body x idx ;; forEachFrom body xs' (S idx)
  end.

Definition forEach {A} (xs : list A) (body : A -> nat -> Draw unit)
    : Draw unit :=
  forEachFrom body xs 0.

(** A [forEach] whose body updates a local variable of the enclosing
    function: the variable is threaded through the iterations. *)
Fixpoint forEachVar {A S} (xs : list A) (body : S -> A -> Draw S) (s : S)
    : Draw S :=
  match xs with
  | [] => ret s
  | x :: xs' => s' <- body s x ;; forEachVar xs' body s'
  end.

(** [obj.field] where [obj] may be [undefined]: a TypeError if it is. *)
Definition member {A B} (obj : option A) (field : A -> B) : Draw B :=
  match obj with
  | Some o => ret (field o)
  | None => throw TypeError
  end.

(** ToNumber of a number or [undefined]. *)
Definition toNumber (v : option Number) : Number :=
  match v with Some x => x | None => S754_nan end.

(** [a || b] on strings, where [a] may be [undefined]. *)
Definition orString (a : option jsstring) (b : jsstring) : jsstring :=
  match a with
  | Some s => if truthy s then s else b
  | None => b
  end.

(* ================================================================== *)
(** ** Layout constants *)
(* ================================================================== *)

Notation "# z" := (ofZ z) (at level 1, z at level 0, format "# z").

Definition A4_WIDTH : Number := dec 59528 2.
Definition A4_HEIGHT : Number := dec 84189 2.
Definition MARGIN : Number := #24.
Definition BORDER_WIDTH : Number := dec 4 1.
Definition META_TABLE_WIDTH : Number := #230.
Definition META_GAP : Number := #10.

Definition black : Color := rgb #0 #0 #0.

Open Scope js_scope.

Definition getContentWidth : Number := A4_WIDTH - MARGIN * #2.

Module Layout.
Record t := mk {
  contentWidth : Number; leftX : Number; leftWidth : Number;
  rightWidth : Number; rightX : Number; gap : Number
}.
End Layout.

Definition getLayoutDimensions : Layout.t :=
  let contentWidth := getContentWidth in
  let leftWidth := contentWidth - META_TABLE_WIDTH - META_GAP in
  let leftX := MARGIN in
  Layout.mk contentWidth leftX leftWidth META_TABLE_WIDTH
            (leftX + leftWidth + META_GAP) META_GAP.

(** The column positions built by the [reduce] over [columnWidths]:
    each position is the previous position plus the previous width. *)
Fixpoint columnPositions (prev : Number) (widths : list Number)
    : list Number :=
  match widths with
  | [] => []
  | w :: rest => prev :: columnPositions (prev + w) rest
  end.

(** [xs[i]] on an array of numbers, [NaN] in arithmetic when out of
    range. *)
Definition at_ (xs : list Number) (i : nat) : Number :=
  nth i xs S754_nan.

(* ================================================================== *)
(** ** Section composers *)
(* ================================================================== *)

Definition drawOuterBorder : Draw unit :=
  emit (DrawRectangle MARGIN MARGIN (A4_WIDTH - MARGIN * #2)
          (A4_HEIGHT - MARGIN * #2) black BORDER_WIDTH).

Definition drawTitle (fonts : Fonts) : Draw unit :=
  let titleText := lit "Tax Invoice" in
  let titleY := A4_HEIGHT - (MARGIN - #8) in
  let titleX := centerTextX titleText #0 A4_WIDTH (bold fonts) #14 in
  emit (DrawText (lit "Tax Invoice") titleX titleY #14 (bold fonts) black
          None) ;;
  let subtitleText := lit "(ORIGINAL FOR RECIPIENT)" in
  let subtitleWidth := getTextWidth subtitleText (normal fonts) #9 in
  let subtitleX := A4_WIDTH - MARGIN - subtitleWidth in
  emit (DrawText subtitleText subtitleX titleY #9 (normal fonts) black None).

Definition drawCompanyHeader (company : Company.t) (top : Number)
    (fonts : Fonts) (logoImage : option Image.t) : Draw Number :=
  let leftX := Layout.leftX getLayoutDimensions in
  let leftWidth := Layout.leftWidth getLayoutDimensions in
  let textX := leftX + #8 in
  let logoBottom := top in
  '(textX, logoBottom) <-
    match logoImage with
    | Some logoImage =>
        let logoWidth := #88 in
        let logoDims :=
          Image.scale logoImage (logoWidth / Image.width logoImage) in
        let logoTop := top + #6 in
        emit (DrawImage logoImage textX
                (A4_HEIGHT - logoTop - Image.height logoDims)
                (Image.width logoDims) (Image.height logoDims)) ;;
        ret (textX + (logoWidth + #8),
             logoTop + Image.height logoDims + #4)
    | None => ret (textX, logoBottom)
    end ;;
  let textWidth := leftWidth - (textX - leftX) - #8 in
  let safeTextWidth := JSNumber.min textWidth #205 in
  let lineSpacing := #12 in
  let paragraphSpacing := #2 in
  let currentY := top + #6 in
  emit (DrawText (Company.name company) textX (A4_HEIGHT - currentY) #11
          (bold fonts) black (Some safeTextWidth)) ;;
  let currentY := currentY + #14 in
  let lines :=
    [ Company.address company;
      lit "State: " ++ Company.state company ++ lit ", Code : "
        ++ Company.stateCode company;
      lit "GSTIN/UIN : " ++ Company.gstin company;
      lit "Contact : " ++ Company.contact company ] in
  currentY <-
    forEachVar lines (fun currentY line =>
      let wrappedLines := wrapText line safeTextWidth (normal fonts) #9 in
      currentY <-
        forEachVar wrappedLines (fun currentY wrappedLine =>
          emit (DrawText wrappedLine textX (A4_HEIGHT - currentY) #9
                  (normal fonts) black (Some safeTextWidth)) ;;
          ret (currentY + lineSpacing)) currentY ;;
      ret (currentY + paragraphSpacing)) currentY ;;
  ret (JSNumber.max currentY logoBottom).

Definition drawInvoiceMetaTable (invoice : Invoice.t) (top : Number)
    (fonts : Fonts) : Draw Number :=
  let rightX := Layout.rightX getLayoutDimensions in
  let rightWidth := Layout.rightWidth getLayoutDimensions in
  let tableWidth := rightWidth in
  let x := rightX in
  let y := top in
  let rowHeight := #24 in
  let rows :=
    [ (lit "Invoice No.", Invoice.number invoice);
      (lit "Dated", Invoice.issueDate invoice);
      (lit "Mode/Terms of Payment", Invoice.paymentMode invoice);
      (lit "Supplier's Ref.", Invoice.reference invoice);
      (lit "Other Reference",
        if truthy (Invoice.otherReference invoice)
        then Invoice.otherReference invoice else lit "-");
      (lit "Terms of Delivery", Invoice.terms invoice) ] in
  let tableHeight := ofNat (List.length rows) * rowHeight in
  let tableTopY := A4_HEIGHT - (y + tableHeight) in
  emit (DrawRectangle x tableTopY tableWidth tableHeight black
          BORDER_WIDTH) ;;
  forEach rows (fun row index =>
    let rowY := y + ofNat index * rowHeight in
    (if Nat.ltb 0 index
     then emit (DrawLine x (A4_HEIGHT - rowY) (x + tableWidth)
                  (A4_HEIGHT - rowY) BORDER_WIDTH black)
     else ret tt) ;;
    let separatorX := x + tableWidth * dec 45 2 in
    emit (DrawLine separatorX (A4_HEIGHT - rowY) separatorX
            (A4_HEIGHT - (rowY + rowHeight)) BORDER_WIDTH black) ;;
    emit (DrawText (fst row) (x + #6) (A4_HEIGHT - (rowY + #8)) #9
            (bold fonts) black (Some (tableWidth * dec 45 2 - #10))) ;;
    emit (DrawText (snd row) (separatorX + #6) (A4_HEIGHT - (rowY + #8)) #9
            (normal fonts) black (Some (tableWidth * dec 55 2 - #10)))) ;;
  ret (y + ofNat (List.length rows) * rowHeight).

Definition drawPartyBox (label : jsstring) (party : Party.t)
    (x y width height : Number) (fonts : Fonts) (drawBorder : bool)
    : Draw unit :=
  (if drawBorder
   then emit (DrawRectangle x (A4_HEIGHT - (y + height)) width height black
                BORDER_WIDTH)
   else ret tt) ;;
  emit (DrawText label (x + #8) (A4_HEIGHT - (y + #10)) #10 (bold fonts)
          black None) ;;
  emit (DrawText (Party.name party ++ lit " (" ++ Party.contact party
                    ++ lit ")")
          (x + #8) (A4_HEIGHT - (y + #26)) #9 (normal fonts) black None) ;;
  emit (DrawText (lit "State Name : " ++ Party.state party
                    ++ lit ", Code : " ++ Party.stateCode party)
          (x + #8) (A4_HEIGHT - (y + #40)) #9 (normal fonts) black None).

Definition drawTermsBox (terms : jsstring) (x y width height : Number)
    (fonts : Fonts) (drawBorder : bool) : Draw unit :=
  (if drawBorder
   then emit (DrawRectangle x (A4_HEIGHT - (y + height)) width height black
                BORDER_WIDTH)
   else ret tt) ;;
  emit (DrawText (lit "Terms of Delivery") (x + #8) (A4_HEIGHT - (y + #10))
          #10 (bold fonts) black None) ;;
  emit (DrawText terms (x + #8) (A4_HEIGHT - (y + #26)) #10 (bold fonts)
          black None).

Definition drawPartyBlocks (invoice : Invoice.t) (top : Number)
    (fonts : Fonts) : Draw Number :=
  let rowHeight := #82 in
  let rows := #2 in
  let contentWidth := getContentWidth in
  let leftX := MARGIN in
  let totalHeight := rowHeight * rows in
  let termsWidth := META_TABLE_WIDTH in
  let consigneeWidth := contentWidth - termsWidth in
  let termsX := leftX + consigneeWidth in
  emit (DrawRectangle leftX (A4_HEIGHT - (top + totalHeight)) contentWidth
          totalHeight black BORDER_WIDTH) ;;
  emit (DrawLine termsX (A4_HEIGHT - top) termsX
          (A4_HEIGHT - (top + totalHeight)) BORDER_WIDTH black) ;;
  emit (DrawLine leftX (A4_HEIGHT - (top + rowHeight)) termsX
          (A4_HEIGHT - (top + rowHeight)) BORDER_WIDTH black) ;;
  drawPartyBox (lit "Consignee") (Invoice.consignee invoice) leftX top
    consigneeWidth rowHeight fonts false ;;
  drawTermsBox (Invoice.terms invoice) termsX top termsWidth rowHeight fonts
    false ;;
  let buyerTop := top + rowHeight in
  drawPartyBox (lit "Buyer") (Invoice.buyer invoice) leftX buyerTop
    contentWidth rowHeight fonts false ;;
  ret (buyerTop + rowHeight).

Section Composers.

Variable numberToString : Number -> jsstring.

Local Abbreviation formatCurrency := (formatCurrency numberToString).

Definition drawItemsSection (invoice : Invoice.t) (totals : Totals.t)
    (startY : Number) (fonts : Fonts) : Draw Number :=
  let x := MARGIN in
  let width := getContentWidth in
  let headerTop := startY in
  let columnWidths := [#30; #225; #55; #45; #65; #22; #85] in
  let columnX := columnPositions x columnWidths in
  let headerHeight := #26 in
  let headers :=
    [lit "Sl No."; lit "Description of Goods"; lit "HSN/SAC";
     lit "Quantity"; lit "Rate"; lit "per"; lit "Amount"] in
  forEach headers (fun header idx =>
    let headerX :=
      at_ columnX idx
      + (at_ columnWidths idx - getTextWidth header (bold fonts) #9) / #2 in
    emit (DrawText header headerX (A4_HEIGHT - (headerTop + #10)) #9
            (bold fonts) black None)) ;;
  let item :=
    match Invoice.items invoice with
    | item0 :: _ => item0
    | [] => LineItem.mk [] #0 #0 [] None
    end in
  let descMaxWidth := at_ columnWidths 1 - #8 in
  let descWrapped :=
    wrapText (LineItem.description item) descMaxWidth (bold fonts) #10 in
  let lineHeight := #15 in
  let smallLines :=
    [ (lit "Output Cgst UP", Totals.cgstAmount totals);
      (lit "Output Sgst UP", Totals.sgstAmount totals);
      (lit "Round Off", Totals.roundOff totals) ] in
  let primaryBlockHeight := lineHeight + #8 in
  let descBlockHeight := ofNat (List.length descWrapped) * lineHeight in
  let smallBlockHeight :=
    ofNat (List.length smallLines) * lineHeight + #8 in
  let detailRowHeight :=
    primaryBlockHeight + descBlockHeight + smallBlockHeight + #12 in
  let detailTop := headerTop + headerHeight in
  let totalRowHeight := #20 in
  let totalRowTop := detailTop + detailRowHeight in
  let tableHeight := headerHeight + detailRowHeight + totalRowHeight in
  emit (DrawRectangle x (A4_HEIGHT - (headerTop + tableHeight)) width
          tableHeight black BORDER_WIDTH) ;;
  forEach (seq 1 (List.length columnWidths - 1)) (fun i _ =>
    emit (DrawLine (at_ columnX i) (A4_HEIGHT - headerTop) (at_ columnX i)
            (A4_HEIGHT - (headerTop + tableHeight)) BORDER_WIDTH black)) ;;
  emit (DrawLine x (A4_HEIGHT - (headerTop + headerHeight)) (x + width)
          (A4_HEIGHT - (headerTop + headerHeight)) BORDER_WIDTH black) ;;
  emit (DrawLine x (A4_HEIGHT - (detailTop + detailRowHeight)) (x + width)
          (A4_HEIGHT - (detailTop + detailRowHeight)) BORDER_WIDTH black) ;;
  let primaryY := detailTop + #8 in
  let slNoX :=
    at_ columnX 0
    + (at_ columnWidths 0 - getTextWidth (lit "1") (normal fonts) #9) / #2 in
  emit (DrawText (lit "1") slNoX (A4_HEIGHT - primaryY) #9 (normal fonts)
          black None) ;;
  emit (DrawText
          (orString (Some (orString (LineItem.hsn item)
                                    (Invoice.hsn invoice))) [])
          (at_ columnX 2 + #4) (A4_HEIGHT - primaryY) #9 (normal fonts)
          black (Some (at_ columnWidths 2 - #8))) ;;
  emit (DrawText
          (orString (Some (numberToString (LineItem.quantity item))) [])
          (at_ columnX 3 + #4) (A4_HEIGHT - primaryY) #9 (normal fonts)
          black (Some (at_ columnWidths 3 - #8))) ;;
  let rateText := formatCurrency (orZero (Some (LineItem.rate item))) in
  let rateX :=
    at_ columnX 4 + at_ columnWidths 4 - #4
    - getTextWidth rateText (normal fonts) #9 in
  emit (DrawText rateText rateX (A4_HEIGHT - primaryY) #9 (normal fonts)
          black None) ;;
  emit (DrawText (orString (Some (LineItem.unit item)) [])
          (at_ columnX 5 + #4) (A4_HEIGHT - primaryY) #9 (normal fonts)
          black (Some (at_ columnWidths 5 - #8))) ;;
  let descStartY := primaryY + lineHeight in
  forEach descWrapped (fun line idx =>
    emit (DrawText line (at_ columnX 1 + #4)
            (A4_HEIGHT - (descStartY + ofNat idx * lineHeight)) #10
            (bold fonts) black (Some descMaxWidth))) ;;
  let afterDescY :=
    descStartY + ofNat (List.length descWrapped) * lineHeight + #6 in
  forEach smallLines (fun line idx =>
    let lineY := afterDescY + ofNat idx * lineHeight in
    emit (DrawText (fst line) (at_ columnX 1 + #4) (A4_HEIGHT - lineY) #9
            (normal fonts) black (Some (at_ columnWidths 1 - #8))) ;;
    let amountText := formatCurrency (snd line) in
    let amountX :=
      at_ columnX 6 + at_ columnWidths 6 - #4
      - getTextWidth amountText (normal fonts) #9 in
    emit (DrawText amountText amountX (A4_HEIGHT - lineY) #9
            (normal fonts) black None)) ;;
  emit (DrawText (lit "Total") (at_ columnX 1 + #6)
          (A4_HEIGHT - (totalRowTop + #8)) #9 (bold fonts) black
          (Some (at_ columnWidths 1 + at_ columnWidths 2
                 + at_ columnWidths 3 + at_ columnWidths 4
                 + at_ columnWidths 5 - #8))) ;;
  let grandTotalText := formatCurrency (Totals.grandTotal totals) in
  let grandTotalX :=
    at_ columnX 6 + at_ columnWidths 6 - #6
    - getTextWidth grandTotalText (bold fonts) #10 in
  emit (DrawText grandTotalText grandTotalX
          (A4_HEIGHT - (totalRowTop + #8)) #10 (bold fonts) black None) ;;
  let eoeText := lit "E. & O.E" in
  let eoeX :=
    at_ columnX 6 + at_ columnWidths 6 - #6
    - getTextWidth eoeText (normal fonts) #8 in
  emit (DrawText eoeText eoeX (A4_HEIGHT - (totalRowTop + #16)) #8
          (normal fonts) black None) ;;
  ret (totalRowTop + totalRowHeight).

Definition drawAmountSummaries (invoice : Invoice.t) (startY : Number)
    (fonts : Fonts) : Draw Number :=
  let x := MARGIN in
  let width := getContentWidth in
  emit (DrawText (lit "Amount Chargeable (in words):") x
          (A4_HEIGHT - startY) #10 (bold fonts) black None) ;;
  let wordsLines :=
    wrapText (Invoice.amountInWords invoice) (width - #210)
      (normal fonts) #9 in
  forEach wordsLines (fun line idx =>
    emit (DrawText line (x + #200)
            (A4_HEIGHT - (startY + ofNat idx * #11)) #9 (normal fonts)
            black (Some (width - #210)))) ;;
  ret (startY + JSNumber.max #14 (ofNat (List.length wordsLines) * #11)).

Definition drawTaxBreakup (invoice : Invoice.t) (totals : Totals.t)
    (startY : Number) (fonts : Fonts) : Draw Number :=
  let x := MARGIN in
  let tableTop := startY in
  let columnWidths := [#70; #110; #70; #70; #70; #70; #75] in
  let tableWidth :=
    fold_left (fun sum value => sum + value) columnWidths #0 in
  let columnX := columnPositions x columnWidths in
  let rowHeight := #24 in
  let rowsCount := #3 in
  let tableHeight := rowHeight * rowsCount in
  emit (DrawRectangle x (A4_HEIGHT - (tableTop + tableHeight)) tableWidth
          tableHeight black BORDER_WIDTH) ;;
  forEach (seq 1 (List.length columnWidths - 1)) (fun i _ =>
    emit (DrawLine (at_ columnX i) (A4_HEIGHT - tableTop) (at_ columnX i)
            (A4_HEIGHT - (tableTop + tableHeight)) BORDER_WIDTH black)) ;;
  emit (DrawLine x (A4_HEIGHT - (tableTop + rowHeight)) (x + tableWidth)
          (A4_HEIGHT - (tableTop + rowHeight)) BORDER_WIDTH black) ;;
  emit (DrawLine x (A4_HEIGHT - (tableTop + rowHeight * #2))
          (x + tableWidth) (A4_HEIGHT - (tableTop + rowHeight * #2))
          BORDER_WIDTH black) ;;
  let headers :=
    [lit "HSN/SAC"; lit "Taxable Value"; lit "CGST Rate";
     lit "CGST Amount"; lit "SGST/UTGST Rate"; lit "SGST/UTGST Amount";
     lit "Total Tax Amount"] in
  forEach headers (fun header idx =>
    emit (DrawText header (at_ columnX idx + #6)
            (A4_HEIGHT - (tableTop + #10)) #9 (bold fonts) black
            (Some (at_ columnWidths idx - #12)))) ;;
  let dataRowTop := tableTop + rowHeight in
  emit (DrawText (Invoice.hsn invoice) (at_ columnX 0 + #6)
          (A4_HEIGHT - (dataRowTop + #10)) #9 (normal fonts) black
          (Some (at_ columnWidths 0 - #12))) ;;
  let taxableValueText := formatCurrency (Totals.baseAmount totals) in
  let taxableX :=
    at_ columnX 1 + at_ columnWidths 1 - #6
    - getTextWidth taxableValueText (normal fonts) #9 in
  emit (DrawText taxableValueText taxableX
          (A4_HEIGHT - (dataRowTop + #10)) #9 (normal fonts) black None) ;;
  cgst <- member (Invoice.taxRates invoice) TaxRates.cgst ;;
  let cgstRateText :=
    toFixed numberToString (toNumber cgst * #100) 0 ++ lit "%" in
  emit (DrawText cgstRateText (at_ columnX 2 + #6)
          (A4_HEIGHT - (dataRowTop + #10)) #9 (normal fonts) black
          (Some (at_ columnWidths 2 - #12))) ;;
  let cgstText := formatCurrency (Totals.cgstAmount totals) in
  let cgstX :=
    at_ columnX 3 + at_ columnWidths 3 - #6
    - getTextWidth cgstText (normal fonts) #9 in
  emit (DrawText cgstText cgstX (A4_HEIGHT - (dataRowTop + #10)) #9
          (normal fonts) black None) ;;
  sgst <- member (Invoice.taxRates invoice) TaxRates.sgst ;;
  let sgstRateText :=
    toFixed numberToString (toNumber sgst * #100) 0 ++ lit "%" in
  emit (DrawText sgstRateText (at_ columnX 4 + #6)
          (A4_HEIGHT - (dataRowTop + #10)) #9 (normal fonts) black
          (Some (at_ columnWidths 4 - #12))) ;;
  let sgstText := formatCurrency (Totals.sgstAmount totals) in
  let sgstX :=
    at_ columnX 5 + at_ columnWidths 5 - #6
    - getTextWidth sgstText (normal fonts) #9 in
  emit (DrawText sgstText sgstX (A4_HEIGHT - (dataRowTop + #10)) #9
          (normal fonts) black None) ;;
  let totalTaxText := formatCurrency (Totals.taxTotal totals) in
  let totalTaxX :=
    at_ columnX 6 + at_ columnWidths 6 - #6
    - getTextWidth totalTaxText (normal fonts) #9 in
  emit (DrawText totalTaxText totalTaxX (A4_HEIGHT - (dataRowTop + #10))
          #9 (normal fonts) black None) ;;
  let totalRowTop := dataRowTop + rowHeight in
  emit (DrawText (lit "Total") (at_ columnX 0 + #6)
          (A4_HEIGHT - (totalRowTop + #10)) #9 (bold fonts) black
          (Some (at_ columnWidths 0 - #12))) ;;
  let totalBaseX :=
    at_ columnX 1 + at_ columnWidths 1 - #6
    - getTextWidth taxableValueText (bold fonts) #9 in
  emit (DrawText taxableValueText totalBaseX
          (A4_HEIGHT - (totalRowTop + #10)) #9 (bold fonts) black None) ;;
  cgst <- member (Invoice.taxRates invoice) TaxRates.cgst ;;
  emit (DrawText (toFixed numberToString (toNumber cgst * #100) 0
                    ++ lit "%")
          (at_ columnX 2 + #6) (A4_HEIGHT - (totalRowTop + #10)) #9
          (bold fonts) black (Some (at_ columnWidths 2 - #12))) ;;
  let totalCgstX :=
    at_ columnX 3 + at_ columnWidths 3 - #6
    - getTextWidth cgstText (bold fonts) #9 in
  emit (DrawText cgstText totalCgstX (A4_HEIGHT - (totalRowTop + #10)) #9
          (bold fonts) black None) ;;
  sgst <- member (Invoice.taxRates invoice) TaxRates.sgst ;;
  emit (DrawText (toFixed numberToString (toNumber sgst * #100) 0
                    ++ lit "%")
          (at_ columnX 4 + #6) (A4_HEIGHT - (totalRowTop + #10)) #9
          (bold fonts) black (Some (at_ columnWidths 4 - #12))) ;;
  let totalSgstX :=
    at_ columnX 5 + at_ columnWidths 5 - #6
    - getTextWidth sgstText (bold fonts) #9 in
  emit (DrawText sgstText totalSgstX (A4_HEIGHT - (totalRowTop + #10)) #9
          (bold fonts) black None) ;;
  let totalTaxTotalX :=
    at_ columnX 6 + at_ columnWidths 6 - #6
    - getTextWidth totalTaxText (bold fonts) #9 in
  emit (DrawText totalTaxText totalTaxTotalX
          (A4_HEIGHT - (totalRowTop + #10)) #9 (bold fonts) black None) ;;
  let taxWordsY := totalRowTop + rowHeight + #12 in
  emit (DrawText (lit "Tax Amount (in words):") x (A4_HEIGHT - taxWordsY)
          #10 (bold fonts) black None) ;;
  let taxWordsLines :=
    wrapText (Invoice.taxAmountInWords invoice) (getContentWidth - #170)
      (normal fonts) #9 in
  forEach taxWordsLines (fun line idx =>
    emit (DrawText line (x + #170)
            (A4_HEIGHT - (taxWordsY + ofNat idx * #11)) #9 (normal fonts)
            black (Some (getContentWidth - #170)))) ;;
  ret (taxWordsY
       + JSNumber.max #16 (ofNat (List.length taxWordsLines) * #11)).

Definition drawBankAndRemarks (invoice : Invoice.t) (bank : Bank.t)
    (startY : Number) (fonts : Fonts) : Draw Number :=
  let x := MARGIN in
  let width := getContentWidth in
  let textAreaWidth := width / #2 - #10 in
  let bankX := x + textAreaWidth + #20 in
  let currentY := startY in
  emit (DrawText (lit "Remarks:") x (A4_HEIGHT - currentY) #10
          (bold fonts) black None) ;;
  let currentY := currentY + #14 in
  let remarksLines :=
    wrapText (Invoice.remarks invoice) textAreaWidth (normal fonts) #9 in
  forEach remarksLines (fun line idx =>
    emit (DrawText line x (A4_HEIGHT - (currentY + ofNat idx * #12)) #9
            (normal fonts) black (Some textAreaWidth))) ;;
  let currentY :=
    currentY + (ofNat (List.length remarksLines) * #12 + #10) in
  emit (DrawText (lit "Declaration:") x (A4_HEIGHT - currentY) #10
          (bold fonts) black None) ;;
  let currentY := currentY + #14 in
  let declarationLines :=
    wrapText (Invoice.declaration invoice) textAreaWidth (normal fonts)
      #9 in
  forEach declarationLines (fun line idx =>
    emit (DrawText line x (A4_HEIGHT - (currentY + ofNat idx * #12)) #9
            (normal fonts) black (Some textAreaWidth))) ;;
  let currentY := currentY + ofNat (List.length declarationLines) * #12 in
  let leftSectionBottom := currentY in
  let bankY := startY in
  emit (DrawText (lit "Company's Bank Details") bankX (A4_HEIGHT - bankY)
          #10 (bold fonts) black None) ;;
  let bankY := bankY + #14 in
  emit (DrawText (lit "Bank Name : " ++ Bank.name bank) bankX
          (A4_HEIGHT - bankY) #9 (normal fonts) black None) ;;
  let bankY := bankY + #13 in
  emit (DrawText (lit "A/c No. : " ++ Bank.accountNumber bank) bankX
          (A4_HEIGHT - bankY) #9 (normal fonts) black None) ;;
  let bankY := bankY + #13 in
  emit (DrawText (lit "Branch & IFSC Code : " ++ Bank.branch bank
                    ++ lit " & " ++ Bank.ifsc bank)
          bankX (A4_HEIGHT - bankY) #9 (normal fonts) black None) ;;
  let bankY := bankY + #13 in
  let sectionBottom := JSNumber.max leftSectionBottom bankY in
  ret (sectionBottom + #6).

Definition drawStampAndFooter (contentBottom : Number) (fonts : Fonts)
    (stampImage : option Image.t) : Draw unit :=
  let boxWidth := #160 in
  let boxHeight := #95 in
  let boxX := A4_WIDTH - MARGIN - boxWidth - #8 in
  let boxY := MARGIN + #18 in
  emit (DrawRectangle boxX boxY boxWidth boxHeight black BORDER_WIDTH) ;;
  match stampImage with
  | Some stampImage =>
      let stampWidth := #65 in
      let stampDims :=
        Image.scale stampImage (stampWidth / Image.width stampImage) in
      let stampX := boxX + (boxWidth - Image.width stampDims) / #2 in
      let stampY := boxY + boxHeight - Image.height stampDims - #10 in
      emit (DrawImage stampImage stampX stampY (Image.width stampDims)
              (Image.height stampDims))
  | None => ret tt
  end ;;
  let signatoryText := lit "Authorised Signatory" in
  let signatoryX :=
    boxX + (boxWidth - getTextWidth signatoryText (normal fonts) #9) / #2 in
  emit (DrawText signatoryText signatoryX (boxY + #8) #9 (normal fonts)
          black None) ;;
  let footerText := lit "This is a Computer Generated Invoice" in
  let footerTextX := centerTextX footerText #0 A4_WIDTH (normal fonts) #9 in
  let footerY := MARGIN - #10 in
  emit (DrawText footerText footerTextX footerY #9 (normal fonts) black
          None).

(** * Page composer *)

Record Images := mkImages {
  logo : option Image.t; stamp : option Image.t
}.

Definition generateInvoicePDF (data : InvoiceData.t) (fonts : Fonts)
    (images : Images) : Draw unit :=
  let totals := computeTotals (InvoiceData.invoice data) in
  drawOuterBorder ;;
  drawTitle fonts ;;
  let headerTop := MARGIN + #8 in
  companyBottom <-
    drawCompanyHeader (InvoiceData.company data) headerTop fonts (logo images) ;;
  invoiceMetaBottom <-
    drawInvoiceMetaTable (InvoiceData.invoice data) headerTop fonts ;;
  let headerBottom := JSNumber.max companyBottom invoiceMetaBottom in
  partiesBottom <-
    drawPartyBlocks (InvoiceData.invoice data) (headerBottom + #10) fonts ;;
  itemsBottom <-
    drawItemsSection (InvoiceData.invoice data) totals (partiesBottom + #6) fonts ;;
  amountBottom <-
    drawAmountSummaries (InvoiceData.invoice data) (itemsBottom + #6) fonts ;;
  taxBottom <-
    drawTaxBreakup (InvoiceData.invoice data) totals (amountBottom + #8) fonts ;;
  footerInfo <-
    drawBankAndRemarks (InvoiceData.invoice data) (InvoiceData.bank data) (taxBottom + #10)
      fonts ;;
  drawStampAndFooter footerInfo fonts (stamp images).

End Composers.

Close Scope js_scope.


(* ================================================================== *)
(** ** Vocabulary of the statements *)
(* ================================================================== *)

(** A string contains a visible (non-whitespace) character. *)
Definition hasWord (s : jsstring) : bool :=
  existsb (fun c => negb (is_space c)) s.

(** A paragraph "containing no words": every character is whitespace. *)
Definition blank (s : jsstring) : bool := negb (hasWord s).

(** [l1] is [l2] with some elements left out, order kept. *)
Inductive Subseq {A : Type} : list A -> list A -> Prop :=
| Subseq_nil : Subseq [] []
| Subseq_skip x l1 l2 : Subseq l1 l2 -> Subseq l1 (x :: l2)
| Subseq_keep x l1 l2 : Subseq l1 l2 -> Subseq (x :: l1) (x :: l2).

(** The lines every paragraph of [text] contributes, before the fallback
    to one empty line. *)
Definition paragraphLines (text : jsstring) (maxWidth : Number)
    (font : Font) (fontSize : Number) : list jsstring :=
  flat_map (wrapParagraph maxWidth font fontSize) (split newline text).

(** A wrapped line is acceptable when it is one whole word of the text
    that is wider than [maxWidth], or when it fits in [maxWidth]. *)
Definition lineOK (words : list jsstring) (maxWidth : Number) (font : Font)
    (fontSize : Number) (line : jsstring) : Prop :=
  (In line words
   /\ JSNumber.gtb (widthOfTextAtSize font line fontSize) maxWidth = true)
  \/ JSNumber.leb (widthOfTextAtSize font line fontSize) maxWidth = true.

(** [groups] cuts the words of a paragraph into the runs that make its
    lines: every run is non-empty, the runs follow each other in the
    order of the paragraph, only words without a visible character are
    left out, and each line is its run joined by single spaces. *)
Definition groupsOf (words : list jsstring) (groups : list (list jsstring))
    (lines : list jsstring) : Prop :=
  lines = map (join [space]) groups
  /\ Forall (fun g => g <> []) groups
  /\ Subseq (List.concat groups) words
  /\ filter hasWord (List.concat groups) = filter hasWord words.

(** ** Example data *)

(** A font for the examples: every character is half its size wide, up
    to 1000 characters. *)
Definition exampleFont (name : FontName) : Font :=
  mkFont name (fun s size =>
    nth (List.length s)
        (map (fun n => (ofNat n * size / #2)%js) (seq 0 1000))
        (#500 * size)%js).

Definition exampleRemarks : jsstring :=
  lit "Monthly Payment 3580, 18 Months" ++ [newline] ++ lit "Payment no. 3".


(** A number that may be missing is, when present, finite. *)
Definition finiteIfPresent (v : option Number) : Prop :=
  match v with Some x => is_finite x = true | None => True end.

(** The invoice with another list of items. *)
Definition withItems (invoice : Invoice.t) (items : list LineItem.t)
    : Invoice.t :=
  Invoice.mk (Invoice.number invoice) (Invoice.issueDate invoice)
    (Invoice.dueDate invoice) (Invoice.terms invoice)
    (Invoice.reference invoice) (Invoice.otherReference invoice)
    (Invoice.paymentMode invoice) (Invoice.consignee invoice)
    (Invoice.buyer invoice) (Invoice.hsn invoice) items
    (Invoice.taxRates invoice) (Invoice.roundOff invoice)
    (Invoice.amountInWords invoice) (Invoice.taxAmountInWords invoice)
    (Invoice.remarks invoice) (Invoice.declaration invoice).

(** The invoice with other tax rates, possibly none. *)
Definition withTaxRates (invoice : Invoice.t) (rates : option TaxRates.t)
    : Invoice.t :=
  Invoice.mk (Invoice.number invoice) (Invoice.issueDate invoice)
    (Invoice.dueDate invoice) (Invoice.terms invoice)
    (Invoice.reference invoice) (Invoice.otherReference invoice)
    (Invoice.paymentMode invoice) (Invoice.consignee invoice)
    (Invoice.buyer invoice) (Invoice.hsn invoice) (Invoice.items invoice)
    rates (Invoice.roundOff invoice)
    (Invoice.amountInWords invoice) (Invoice.taxAmountInWords invoice)
    (Invoice.remarks invoice) (Invoice.declaration invoice).

(** [toString()] on the integers below [1e21], for the examples. *)
Definition integerToString (x : Number) : jsstring :=
  toFixed (fun _ => []) x 0.

Definition exampleFonts : Fonts :=
  mkFonts (exampleFont Helvetica) (exampleFont HelveticaBold).

(** Two invoices that differ in their second line item only. *)
Definition invoiceWithDeposit : Invoice.t :=
  withItems (InvoiceData.invoice createInvoiceData)
    [ LineItem.mk (lit "Monthly Payment") #1 (dec 303389 2) (lit "Nos.") None;
      LineItem.mk (lit "Security Deposit") #1 #1000 (lit "Nos.") None ].

Definition invoiceWithLateFee : Invoice.t :=
  withItems (InvoiceData.invoice createInvoiceData)
    [ LineItem.mk (lit "Monthly Payment") #1 (dec 303389 2) (lit "Nos.") None;
      LineItem.mk (lit "Late Fee") #2 #500 (lit "Nos.") None ].

(** ** The exact value of a double *)

(** A well-formed double: its mantissa and exponent are the canonical
    ones of binary64. *)
Definition valid (x : Number) : bool := valid_binary prec emax x.

(** The value of a finite double in units of [2^-1074], the smallest
    positive double; every well-formed finite double is a whole number
    of these units. *)
Definition scaled (x : Number) : Z :=
  match x with
  | S754_finite s m e => cond_Zopp s (Z.pos m * 2 ^ (e + 1074))
  | _ => 0
  end.

(** One, in units of [2^-1074]. *)
Definition oneUnit : Z := 2 ^ 1074.

(** The value of a finite double as a rational number. *)
Definition val (x : Number) : Q := Qmake (scaled x) (2 ^ 1074)%positive.

(** [R] is what rounding returns for the exact value [V] (in units of
    [2^-1074]): a well-formed double within a relative distance of
    [2^-52] from [V], or the infinity of the sign of [V] when [V] is
    beyond the finite doubles. *)
Definition approx (V : Z) (R : Number) : Prop :=
  match R with
  | S754_nan => False
  | S754_zero _ => V = 0
  | S754_infinity s =>
      (if s then V < 0 else 0 < V)
      /\ 2 ^ (1024 + 1074 + 52) <= Z.abs V * (2 ^ 52 + 1)
  | S754_finite s m e =>
      bounded prec emax m e = true
      /\ 2 ^ 52 * Z.abs (scaled R - V) <= Z.abs V
  end.

(** [x] is a well-formed double that is [+Infinity] or a finite number
    of at least [a] units of [2^-1074]. *)
Definition atLeast (a : Z) (x : Number) : Prop :=
  valid x = true
  /\ (x = S754_infinity false \/ (is_finite x = true /\ a <= scaled x)).

(** [x] is a well-formed finite double of between [a] and [b] units of
    [2^-1074]. *)
Definition within (a b : Z) (x : Number) : Prop :=
  valid x = true /\ is_finite x = true /\ a <= scaled x <= b.

(** A number that may be missing is, when present, a well-formed
    double. *)
Definition validIfPresent (v : option Number) : Prop :=
  match v with Some x => valid x = true | None => True end.

(** Every number of the invoice is a well-formed double. *)
Definition wellFormed (invoice : Invoice.t) : Prop :=
  Forall (fun item => valid (LineItem.quantity item) = true
                      /\ valid (LineItem.rate item) = true)
         (Invoice.items invoice)
  /\ validIfPresent (optChain (Invoice.taxRates invoice) TaxRates.cgst)
  /\ validIfPresent (optChain (Invoice.taxRates invoice) TaxRates.sgst)
  /\ validIfPresent (Invoice.roundOff invoice).

(** A number, or a missing one, is not negative. *)
Definition nonNegative (x : Number) : Prop := JSNumber.leb #0 x = true.

Definition nonNegativeIfPresent (v : option Number) : Prop :=
  match v with Some x => nonNegative x | None => True end.

(** [x] is finite and [|x| <= 2^k]. *)
Definition magnitudeAtMost (k : Z) (x : Number) : Prop :=
  is_finite x = true /\ Z.abs (scaled x) <= 2 ^ k * oneUnit.

(** The distance, as an exact rational, between the grand total and the
    sum of its components. *)
Definition totalsGap (totals : Totals.t) : Q :=
  Qabs (val (Totals.grandTotal totals)
        - (val (Totals.baseAmount totals) + val (Totals.cgstAmount totals)
           + val (Totals.sgstAmount totals) + val (Totals.roundOff totals))).

(** The rendered invoice with a rate of 9000000000000001. *)
Definition largeInvoice : Invoice.t :=
  withItems (InvoiceData.invoice createInvoiceData)
    [ LineItem.mk (lit "Monthly Payment") #1 #9000000000000001 (lit "Nos.")
                  None ].

(* ================================================================== *)
(** * Asset lookup and the front end's API address *)
(* ================================================================== *)

Section Assets.

(** [fs.existsSync], and [path.join(__dirname, 'images', candidate)]. *)
Variable existsSync : jsstring -> bool.
Variable imagePath : jsstring -> jsstring.

Fixpoint resolveAssetPath (candidates : list jsstring) : option jsstring :=
  match candidates with
  | [] => None
  | candidate :: rest =>
      let absolute := imagePath candidate in
      if existsSync absolute then Some absolute else resolveAssetPath rest
  end.

Definition LOGO_PATH : option jsstring :=
  resolveAssetPath [lit "logo.png"; lit "logo.jpg"; lit "logo.jpeg"].

Definition STAMP_PATH : option jsstring :=
  resolveAssetPath [lit "stamp.png"; lit "stamp.jpg"; lit "stamp.jpeg"].

End Assets.

(** The [env] object of [import.meta] and of [process], with the one
    variable the front end reads from each; a variable may be unset. *)
Record ImportMetaEnv := mkImportMetaEnv {
  VITE_API_BASE_URL : option jsstring
}.

Record ProcessEnv := mkProcessEnv {
  REACT_APP_API_BASE_URL : option jsstring
}.

(** [typeof import.meta !== 'undefined' && import.meta.env?.X], and the
    same for [process]: the outer option is the object itself, the inner
    one its [env]. *)
Definition envVar {E : Type} (object : option (option E))
    (variable : E -> option jsstring) : option jsstring :=
  match object with
  | Some (Some env) => variable env
  | _ => None
  end.

Definition resolveApiBaseUrl (importMeta : option (option ImportMetaEnv))
    (process : option (option ProcessEnv)) : jsstring :=
  match envVar importMeta VITE_API_BASE_URL with
  | Some ((_ :: _) as url) => url
  | _ =>
      match envVar process REACT_APP_API_BASE_URL with
      | Some ((_ :: _) as url) => url
      | _ => lit "http://localhost:5000"
      end
  end.

(** ** Vocabulary for the composers *)

(** The computation returns [a] and draws exactly [ops], after whatever
    is on the page already; it does not throw. *)
Definition runs {A : Type} (m : Draw A) (a : A) (ops : list PageOp)
    : Prop :=
  forall page, m page = Ok (a, page ++ ops).

(** The computation throws [e], whatever is on the page. *)
Definition throws {A : Type} (m : Draw A) (e : Exn) : Prop :=
  forall page, m page = Throw e.

Definition isRectangle (op : PageOp) : bool :=
  match op with DrawRectangle _ _ _ _ _ _ => true | _ => false end.

Definition isLine (op : PageOp) : bool :=
  match op with DrawLine _ _ _ _ _ _ => true | _ => false end.

Definition isText (op : PageOp) : bool :=
  match op with DrawText _ _ _ _ _ _ _ => true | _ => false end.

Definition isImage (op : PageOp) : bool :=
  match op with DrawImage _ _ _ _ _ => true | _ => false end.

Definition count (kind : PageOp -> bool) (ops : list PageOp) : nat :=
  List.length (filter kind ops).

(** The primitives a [forEach] draws: those of each iteration in turn. *)
Fixpoint eachOps {A : Type} (f : A -> nat -> list PageOp) (xs : list A)
    (idx : nat) : list PageOp :=
  match xs with
  | [] => []
  | x :: xs' => f x idx ++ eachOps f xs' (S idx)
  end.

(** The primitives of a [forEach] that updates a variable, [g] being the
    update and [f] the primitives of one iteration. *)
Fixpoint varOps {A S : Type} (f : S -> A -> list PageOp) (g : S -> A -> S)
    (xs : list A) (s : S) : list PageOp :=
  match xs with
  | [] => []
  | x :: xs' => f s x ++ varOps f g xs' (g s x)
  end.

(** A cursor inside the range in which the layout's steps are not lost
    to rounding: a well-formed double between 0 and [2^50]. *)
Definition cursorInRange (top : Number) : Prop :=
  valid top = true
  /\ JSNumber.leb #0 top = true
  /\ JSNumber.leb top (ofZ (2 ^ 50)) = true.

(** The texts drawn, in drawing order. *)
Definition textsOf (ops : list PageOp) : list jsstring :=
  flat_map (fun op =>
              match op with
              | DrawText text _ _ _ _ _ _ => [text]
              | _ => []
              end) ops.

(** The fonts and the starting cursor of the examples. *)
Definition exampleTop : Number := (MARGIN + #8)%js.


(** The rendered invoice without its tax rates. *)
Definition invoiceWithoutTaxRates : Invoice.t :=
  withTaxRates (InvoiceData.invoice createInvoiceData) None.

(** The item the items table shows: the first one, or the placeholder
    of an empty list. *)
Definition shownItem (invoice : Invoice.t) : LineItem.t :=
  match Invoice.items invoice with
  | item0 :: _ => item0
  | [] => LineItem.mk [] #0 #0 [] None
  end.

(** The height at which the company header draws a logo, scaled to a
    width of 88. *)
Definition logoHeight (image : Image.t) : Number :=
  Image.height (Image.scale image (#88 / Image.width image)%js).

(** A logo, when there is one, whose scaled height is a well-formed
    double and not NaN. *)
Definition usableLogo (logo : option Image.t) : Prop :=
  match logo with
  | Some image =>
      valid (logoHeight image) = true /\ is_nan (logoHeight image) = false
  | None => True
  end.

(** A logo of 352 by 176 pixels, for the examples. *)
Definition exampleLogo : Image.t := Image.mk #352 #176.

(** ** Vocabulary for wrapping and formatting *)

(** A line that can be drawn as one line: it begins with a character
    that is not a space, and holds no line break. *)
Definition cleanLine (line : jsstring) : Prop :=
  (exists c rest, line = c :: rest /\ c <> space) /\ ~ In newline line.

(** A word as [split] delivers them: no space and no line break in it. *)
Definition plainWord (word : jsstring) : Prop :=
  ~ In space word /\ ~ In newline word.

(** A decimal digit. *)
Definition isDigit (c : char) : bool := (N.leb 48 c && N.leb c 57)%bool.

(** A finite number of magnitude below [1e21], which [toFixed] prints
    in fixed notation. *)
Definition below1e21 (x : Number) : bool :=
  match x with
  | S754_zero _ => true
  | S754_finite _ m e => negb (atLeast1e21 m e)
  | _ => false
  end.

(** A quantity or rate as an invoice should hold it: a well-formed
    finite double that is not negative. *)
Definition plainAmount (x : Number) : Prop :=
  valid x = true /\ is_finite x = true /\ nonNegative x.


(** The composer returns, without throwing, a cursor strictly greater
    than the one it was given: it ends strictly below its top. *)
Definition descends (composer : Draw Number) (top : Number) : Prop :=
  exists ops bottom,
    runs composer bottom ops /\ JSNumber.gtb bottom top = true.
(* ================================================================== *)
(** * Properties of the text wrapper *)
(* ================================================================== *)

(** ** Comparison of numbers *)

Lemma SFcompare_antisym (a b : Number) (c : comparison) :
  SFcompare a b = Some c -> SFcompare b a = Some (CompOpp c).
Proof.
  destruct a as [sa|sa| |sa ma ea], b as [sb|sb| |sb mb eb]; simpl;
    try discriminate;
    try (destruct sa); try (destruct sb);
    intros H; inversion H; subst; try reflexivity;
    rewrite (Z.compare_antisym ea eb);
    destruct (ea ?= eb) eqn:E; simpl; try reflexivity;
    f_equal;
    change Eq with (CompOpp Eq) at 1;
    rewrite <- (Pos.compare_cont_antisym ma mb Eq);
    rewrite ?CompOpp_involutive; reflexivity.
Qed.

Lemma SFcompare_total (a b : Number) :
  is_nan a = false -> is_nan b = false -> exists c, SFcompare a b = Some c.
Proof.
  destruct a, b; simpl; try discriminate; intros _ _; eauto.
Qed.

(** On numbers other than NaN, "not greater" is "at most". *)
Lemma not_gtb_leb (a b : Number) :
  is_nan a = false -> is_nan b = false ->
  JSNumber.gtb a b = false -> JSNumber.leb a b = true.
Proof.
  intros Ha Hb. unfold JSNumber.gtb, JSNumber.leb, SFltb, SFleb.
  destruct (SFcompare_total b a Hb Ha) as [c Hc].
  rewrite Hc, (SFcompare_antisym _ _ _ Hc).
  destruct c; simpl; congruence.
Qed.

Lemma gtb_not_nan (a b : Number) :
  JSNumber.gtb a b = true -> is_nan a = false /\ is_nan b = false.
Proof.
  unfold JSNumber.gtb, SFltb. destruct a, b; simpl; try discriminate; auto.
Qed.

Lemma zero_leb_positive (w m : Number) :
  JSNumber.eqb w #0 = true -> JSNumber.gtb m #0 = true ->
  JSNumber.leb w m = true.
Proof.
  unfold JSNumber.eqb, JSNumber.gtb, JSNumber.leb, SFeqb, SFltb, SFleb.
  destruct w as [sw|sw| |sw mw ew], m as [sm|sm| |sm mm em]; simpl;
    try discriminate; try (destruct sw); try (destruct sm);
    simpl; try discriminate; auto.
Qed.

(** ** Strings *)

Lemma split_not_nil (sep : char) (s : jsstring) : split sep s <> [].
Proof.
  induction s as [|c s IH]; simpl; [discriminate|].
  destruct (N.eqb c sep); [discriminate|].
  destruct (split sep s); [congruence | discriminate].
Qed.

Lemma split_app (sep : char) (p q : jsstring) :
  split sep (p ++ sep :: q) = split sep p ++ split sep q.
Proof.
  induction p as [|c p IH]; simpl.
  - rewrite N.eqb_refl. reflexivity.
  - destruct (N.eqb c sep).
    + rewrite IH. reflexivity.
    + rewrite IH. destruct (split sep p) eqn:E.
      * exfalso. exact (split_not_nil _ _ E).
      * reflexivity.
Qed.

Lemma hasWord_app (s t : jsstring) :
  hasWord (s ++ t) = hasWord s || hasWord t.
Proof. unfold hasWord. apply existsb_app. Qed.

Lemma hasWord_rev (s : jsstring) : hasWord (rev s) = hasWord s.
Proof.
  induction s as [|c s IH]; simpl; [reflexivity|].
  rewrite hasWord_app, IH. simpl. rewrite orb_false_r. apply orb_comm.
Qed.

Lemma hasWord_trimStart (s : jsstring) :
  hasWord (trimStart s) = hasWord s.
Proof.
  induction s as [|c s IH]; simpl; [reflexivity|].
  destruct (is_space c) eqn:E; simpl; [exact IH | rewrite E; reflexivity].
Qed.

Lemma hasWord_trim (s : jsstring) : hasWord (trim s) = hasWord s.
Proof.
  unfold trim.
  now rewrite hasWord_rev, hasWord_trimStart, hasWord_rev, hasWord_trimStart.
Qed.

Lemma trimStart_head (s : jsstring) :
  match trimStart s with [] => True | c :: _ => is_space c = false end.
Proof.
  induction s as [|c s IH]; simpl; [exact I|].
  destruct (is_space c) eqn:E; [exact IH | exact E].
Qed.

(** [trim] leaves something exactly when there is a visible character. *)
Lemma truthy_trim (s : jsstring) : truthy (trim s) = hasWord s.
Proof.
  rewrite <- (hasWord_trim s). unfold trim.
  pose proof (trimStart_head (rev (trimStart s))) as H.
  destruct (trimStart (rev (trimStart s))) as [|c t]; [reflexivity|].
  simpl rev. rewrite hasWord_app. simpl. rewrite H. simpl.
  rewrite orb_true_r. destruct (rev t ++ [c]) eqn:E; [|reflexivity].
  destruct (rev t); discriminate.
Qed.

(** A visible character of a string lies in one of the pieces cut at a
    whitespace separator. *)
Lemma hasWord_split (sep : char) (s : jsstring) :
  is_space sep = true ->
  hasWord s = existsb hasWord (split sep s).
Proof.
  intros Hsep. induction s as [|c s IH]; [reflexivity|].
  simpl. destruct (N.eqb c sep) eqn:E.
  - apply N.eqb_eq in E. subst c. rewrite Hsep. simpl. exact IH.
  - rewrite IH. destruct (split sep s) as [|w ws] eqn:Es.
    + exfalso. exact (split_not_nil _ _ Es).
    + simpl. now rewrite orb_assoc.
Qed.

(** ** The wrapping loop *)

Section Wrap.

Variable maxWidth : Number.
Variable font : Font.
Variable fontSize : Number.

Local Abbreviation step := (wrapStep maxWidth font fontSize).
Local Abbreviation width := (fun s => widthOfTextAtSize font s fontSize).

Lemma fold_allLines (ps : list jsstring) (acc : list jsstring) :
  fold_left (fun allLines paragraph =>
               allLines ++ wrapParagraph maxWidth font fontSize paragraph)
            ps acc
  = acc ++ flat_map (wrapParagraph maxWidth font fontSize) ps.
Proof.
  revert acc. induction ps as [|p ps IH]; intros acc; simpl.
  - now rewrite app_nil_r.
  - now rewrite IH, app_assoc.
Qed.

Lemma wrapText_unfold (text : jsstring) :
  wrapText text maxWidth font fontSize
  = match paragraphLines text maxWidth font fontSize with
    | [] => [[]]
    | l => l
    end.
Proof.
  unfold wrapText, paragraphLines. rewrite fold_allLines. simpl.
  destruct (flat_map _ _); reflexivity.
Qed.

(** A word without a visible character met with an empty pending line is
    skipped. *)
Lemma step_blank (lines : list jsstring) (w : jsstring) :
  hasWord w = false -> step (lines, []) w = (lines, []).
Proof.
  intros H. unfold wrapStep. simpl. now rewrite truthy_trim, H.
Qed.

Lemma fold_blank (ws : list jsstring) (lines : list jsstring) :
  existsb hasWord ws = false ->
  fold_left step ws (lines, []) = (lines, []).
Proof.
  induction ws as [|w ws IH]; [reflexivity|].
  cbn [fold_left existsb].
  intros H. apply orb_false_iff in H as [Hw Hws].
  rewrite step_blank by exact Hw. now apply IH.
Qed.

Lemma wrapParagraph_blank (p : jsstring) :
  blank p = true -> wrapParagraph maxWidth font fontSize p = [].
Proof.
  unfold blank. intros H. apply negb_true_iff in H.
  unfold wrapParagraph.
  rewrite fold_blank; [reflexivity|].
  now rewrite <- hasWord_split.
Qed.

(** Something has been produced: a flushed line or a pending line. *)
Definition started (st : list jsstring * jsstring) : Prop :=
  fst st <> [] \/ snd st <> [].

Lemma step_started (st : list jsstring * jsstring) (w : jsstring) :
  started st \/ hasWord w = true -> started (step st w).
Proof.
  destruct st as [lines cur]. unfold started, wrapStep. simpl.
  intros H.
  set (testLine := if truthy cur then cur ++ space :: w else w).
  assert (Ht : hasWord w = true -> hasWord testLine = true).
  { intros Hw. unfold testLine. destruct (truthy cur); [|exact Hw].
    rewrite hasWord_app. simpl. rewrite Hw. now rewrite !orb_true_r. }
  rewrite truthy_trim.
  destruct (hasWord testLine) eqn:Et.
  - destruct (JSNumber.gtb _ _ && truthy cur); simpl.
    + left. destruct lines; discriminate.
    + right. intros E. rewrite E in Et. discriminate.
  - destruct H as [H | H]; [exact H|].
    discriminate (Ht H).
Qed.

Lemma fold_started (ws : list jsstring) (st : list jsstring * jsstring) :
  started st \/ existsb hasWord ws = true ->
  started (fold_left step ws st).
Proof.
  revert st. induction ws as [|w ws IH]; intros st H; cbn [fold_left].
  - destruct H as [H | H]; [exact H | discriminate].
  - apply IH. cbn [existsb] in H.
    destruct (hasWord w) eqn:Hw.
    + left. apply step_started. now right.
    + destruct H as [H | H]; [left; apply step_started; now left | now right].
Qed.

(** A paragraph with a visible character yields at least one line. *)
Lemma wrapParagraph_not_nil (p : jsstring) :
  hasWord p = true -> wrapParagraph maxWidth font fontSize p <> [].
Proof.
  intros H. unfold wrapParagraph.
  assert (Hs : started (fold_left step (split space p) ([], []))).
  { apply fold_started. right. now rewrite <- hasWord_split. }
  destruct (fold_left _ _ _) as [lines cur].
  destruct Hs as [Hs | Hs]; simpl in *.
  - destruct (truthy cur); [destruct lines; [congruence | discriminate]
                           | exact Hs].
  - destruct cur; [congruence|]. simpl. destruct lines; discriminate.
Qed.

Lemma paragraphLines_not_nil (text : jsstring) :
  hasWord text = true -> paragraphLines text maxWidth font fontSize <> [].
Proof.
  intros H. unfold paragraphLines.
  rewrite (hasWord_split newline text eq_refl) in H.
  induction (split newline text) as [|p ps IH]; simpl in *; [discriminate|].
  destruct (hasWord p) eqn:Hp.
  - pose proof (wrapParagraph_not_nil p Hp) as Hn.
    destruct (wrapParagraph _ _ _ p); [congruence | discriminate].
  - intros E. apply app_eq_nil in E as [_ E]. exact (IH H E).
Qed.

End Wrap.

(** ** Width of the wrapped lines *)

Section WrapWidth.

Variable maxWidth : Number.
Variable font : Font.
Variable fontSize : Number.

Hypothesis width_is_number :
  forall s, is_nan (widthOfTextAtSize font s fontSize) = false.
Hypothesis maxWidth_is_number : is_nan maxWidth = false.

Local Abbreviation step := (wrapStep maxWidth font fontSize).
Local Abbreviation ok := (fun ws => lineOK ws maxWidth font fontSize).

Definition widthInv (ws : list jsstring) (st : list jsstring * jsstring)
    : Prop :=
  Forall (ok ws) (fst st) /\ (snd st = [] \/ ok ws (snd st)).

Lemma word_ok (ws : list jsstring) (w : jsstring) : In w ws -> ok ws w.
Proof.
  intros Hin. unfold lineOK.
  destruct (JSNumber.gtb (widthOfTextAtSize font w fontSize) maxWidth) eqn:E.
  - left. split; [exact Hin | reflexivity].
  - right. apply not_gtb_leb; auto.
Qed.

Lemma step_width (ws : list jsstring) (st : list jsstring * jsstring)
    (w : jsstring) :
  In w ws -> widthInv ws st -> widthInv ws (step st w).
Proof.
  destruct st as [lines cur]. unfold widthInv, wrapStep.
  cbn [fst snd]. intros Hin [Hl Hc].
  destruct (truthy (trim _)); [|split; assumption].
  destruct (JSNumber.gtb _ maxWidth) eqn:Eg; cbn [andb].
  - destruct cur as [|c cur]; cbn [truthy].
    + split; [exact Hl | right; now apply word_ok].
    + split.
      * apply Forall_app. split; [exact Hl|]. constructor; [|constructor].
        destruct Hc as [Hc | Hc]; [discriminate | exact Hc].
      * right. now apply word_ok.
  - split; [exact Hl|]. right. right. apply not_gtb_leb; auto.
Qed.

Lemma fold_width (ws : list jsstring) (l : list jsstring)
    (st : list jsstring * jsstring) :
  incl l ws -> widthInv ws st -> widthInv ws (fold_left step l st).
Proof.
  revert st. induction l as [|w l IH]; intros st Hi Hinv; [exact Hinv|].
  cbn [fold_left]. apply IH.
  - intros x Hx. apply Hi. now right.
  - apply step_width; [apply Hi; now left | exact Hinv].
Qed.

Lemma wrapParagraph_width (p : jsstring) :
  Forall (ok (split space p)) (wrapParagraph maxWidth font fontSize p).
Proof.
  unfold wrapParagraph.
  assert (H : widthInv (split space p)
                (fold_left step (split space p) ([], []))).
  { apply fold_width; [apply incl_refl|]. split; [constructor | now left]. }
  destruct (fold_left _ _ _) as [lines cur]. destruct H as [Hl Hc].
  cbn [fst snd] in *.
  destruct cur as [|c cur]; cbn [truthy]; [exact Hl|].
  apply Forall_app. split; [exact Hl|]. constructor; [|constructor].
  destruct Hc as [Hc | Hc]; [discriminate | exact Hc].
Qed.

End WrapWidth.

(** ** Words are kept whole *)

Lemma join_snoc (sep : jsstring) (g : list jsstring) (w : jsstring) :
  g <> [] -> join sep (g ++ [w]) = join sep g ++ sep ++ w.
Proof.
  induction g as [|a g IH]; [congruence|]. intros _.
  destruct g as [|b g]; [reflexivity|].
  change (join sep ((a :: b :: g) ++ [w]))
    with (a ++ sep ++ join sep ((b :: g) ++ [w])).
  rewrite IH by discriminate.
  change (join sep (a :: b :: g)) with (a ++ sep ++ join sep (b :: g)).
  now rewrite <- !app_assoc.
Qed.

Lemma Subseq_refl {A} (l : list A) : Subseq l l.
Proof. induction l; constructor; assumption. Qed.

Lemma Subseq_app {A} (l1 l2 m1 m2 : list A) :
  Subseq l1 l2 -> Subseq m1 m2 -> Subseq (l1 ++ m1) (l2 ++ m2).
Proof.
  intros H. induction H; intros Hm; simpl.
  - exact Hm.
  - apply Subseq_skip. auto.
  - apply Subseq_keep. auto.
Qed.

Lemma Subseq_snoc_skip {A} (l1 l2 : list A) (x : A) :
  Subseq l1 l2 -> Subseq l1 (l2 ++ [x]).
Proof.
  intros H. rewrite <- (app_nil_r l1).
  apply Subseq_app; [exact H | repeat constructor].
Qed.

Lemma Subseq_snoc_keep {A} (l1 l2 : list A) (x : A) :
  Subseq l1 l2 -> Subseq (l1 ++ [x]) (l2 ++ [x]).
Proof. intros H. apply Subseq_app; [exact H | apply Subseq_refl]. Qed.

Section WrapGroups.

Variable maxWidth : Number.
Variable font : Font.
Variable fontSize : Number.

Local Abbreviation step := (wrapStep maxWidth font fontSize).

(** After the words [done], the flushed lines are the runs [gs] and the
    pending line is the run [g]. *)
Definition groupInv (done : list jsstring)
    (st : list jsstring * jsstring) : Prop :=
  exists gs g,
    fst st = map (join [space]) gs
    /\ Forall (fun g => g <> []) gs
    /\ snd st = join [space] g
    /\ (snd st = [] -> g = [])
    /\ Subseq (List.concat gs ++ g) done
    /\ filter hasWord (List.concat gs ++ g) = filter hasWord done.

Lemma step_group (done : list jsstring) (st : list jsstring * jsstring)
    (w : jsstring) :
  groupInv done st -> groupInv (done ++ [w]) (step st w).
Proof.
  destruct st as [lines cur].
  intros (gs & g & Hl & Hne & Hc & Hg & Hs & Hf). cbn [fst snd] in *.
  unfold wrapStep. rewrite truthy_trim.
  set (testLine := if truthy cur then cur ++ [space] ++ w else w).
  assert (Hw : hasWord w = true -> hasWord testLine = true).
  { intros E. unfold testLine. destruct (truthy cur); [|exact E].
    rewrite !hasWord_app, E. now rewrite !orb_true_r. }
  destruct (hasWord testLine) eqn:Et.
  - destruct (JSNumber.gtb _ _ && truthy cur) eqn:Eg.
    + (* flush the pending line, the word starts a new one *)
      apply andb_true_iff in Eg as [_ Ecur].
      assert (Hgne : g <> []).
      { intros E. subst g. rewrite Hc in Ecur. discriminate. }
      exists (gs ++ [g]), (match w with [] => [] | _ => [w] end).
      cbn [fst snd]. rewrite map_app, concat_app, Hl, Hc.
      cbn [map List.concat]. rewrite app_nil_r, <- app_assoc.
      repeat split.
      * apply Forall_app. split; [exact Hne | repeat constructor; exact Hgne].
      * destruct w; reflexivity.
      * intros E. subst w. reflexivity.
      * rewrite app_assoc. destruct w as [|c w].
        -- rewrite app_nil_r. now apply Subseq_snoc_skip.
        -- now apply Subseq_snoc_keep.
      * rewrite app_assoc, filter_app, Hf, filter_app. f_equal.
        destruct w; reflexivity.
    + (* the word joins the pending line *)
      exists gs, (g ++ [w]). cbn [fst snd].
      assert (Hwne : hasWord w = true \/ truthy cur = true).
      { unfold testLine in Et. destruct (truthy cur); [now right | now left]. }
      repeat split; try assumption.
      * unfold testLine. destruct (truthy cur) eqn:Ecur.
        -- rewrite join_snoc, Hc; [reflexivity|].
           intros E. subst g. rewrite Hc in Ecur. discriminate.
        -- destruct cur; [|discriminate]. rewrite (Hg eq_refl). reflexivity.
      * intros E. exfalso. unfold testLine in E, Et.
        destruct (truthy cur) eqn:Ecur.
        -- destruct cur; discriminate.
        -- subst w. discriminate.
      * rewrite app_assoc. now apply Subseq_snoc_keep.
      * rewrite app_assoc, filter_app, Hf, filter_app. reflexivity.
  - (* the word is skipped *)
    assert (Hw' : hasWord w = false).
    { destruct (hasWord w); [discriminate (Hw eq_refl) | reflexivity]. }
    exists gs, g. cbn [fst snd]. repeat split; try assumption.
    + now apply Subseq_snoc_skip.
    + rewrite (filter_app _ done), Hf. cbn [filter]. rewrite Hw'.
      now rewrite app_nil_r.
Qed.

Lemma fold_group (l done : list jsstring) (st : list jsstring * jsstring) :
  groupInv done st -> groupInv (done ++ l) (fold_left step l st).
Proof.
  revert done st. induction l as [|w l IH]; intros done st H.
  - now rewrite app_nil_r.
  - cbn [fold_left].
    replace (done ++ w :: l) with ((done ++ [w]) ++ l)
      by now rewrite <- app_assoc.
    apply IH. now apply step_group.
Qed.

Lemma wrapParagraph_groups (p : jsstring) :
  exists groups,
    groupsOf (split space p) groups
             (wrapParagraph maxWidth font fontSize p).
Proof.
  unfold wrapParagraph.
  assert (H : groupInv ([] ++ split space p)
                (fold_left step (split space p) ([], []))).
  { apply fold_group. exists [], []. cbn. repeat split; auto; constructor. }
  cbn [app] in H. destruct (fold_left _ _ _) as [lines cur].
  destruct H as (gs & g & Hl & Hne & Hc & Hg & Hs & Hf). cbn [fst snd] in *.
  destruct cur as [|c cur]; cbn [truthy].
  - exists gs. rewrite (Hg eq_refl), app_nil_r in *. repeat split; assumption.
  - exists (gs ++ [g]). unfold groupsOf.
    rewrite map_app, concat_app, Hl, Hc. cbn [map List.concat].
    rewrite app_nil_r. repeat split; try assumption.
    apply Forall_app. split; [exact Hne|]. repeat constructor.
    intros E. subst g. discriminate.
Qed.

End WrapGroups.

(** ** The stated properties of the text wrapper *)

Lemma paragraphLines_app (before after : jsstring) (maxWidth : Number)
    (font : Font) (fontSize : Number) :
  paragraphLines (before ++ newline :: after) maxWidth font fontSize
  = paragraphLines before maxWidth font fontSize
    ++ paragraphLines after maxWidth font fontSize.
Proof. unfold paragraphLines. now rewrite split_app, flat_map_app. Qed.

Lemma paragraphLines_blank (p : jsstring) (maxWidth : Number) (font : Font)
    (fontSize : Number) :
  blank p = true -> paragraphLines p maxWidth font fontSize = [].
Proof.
  intros H.
  destruct (paragraphLines p maxWidth font fontSize) eqn:E; [reflexivity|].
  exfalso. unfold blank in H. apply negb_true_iff in H.
  destruct (hasWord p) eqn:Hp; [discriminate|].
  unfold paragraphLines in E.
  rewrite (hasWord_split newline p eq_refl) in Hp.
  induction (split newline p) as [|q qs IH]; [discriminate|].
  cbn [existsb flat_map] in *. apply orb_false_iff in Hp as [Hq Hqs].
  rewrite wrapParagraph_blank in E
    by (unfold blank; now rewrite Hq).
  now apply IH.
Qed.

(** C6.  A paragraph without words adds no line: the lines of a text
    with such a paragraph between two line breaks are those of the text
    before it followed by those of the text after it.  When no paragraph
    adds a line the result is exactly one empty line, otherwise it is
    the lines of the paragraphs; so the result of [wrapText] is never the
    empty sequence. *)
Theorem wrapText_never_empty :
  forall (text : jsstring) (maxWidth : Number) (font : Font)
         (fontSize : Number),
    (forall p, blank p = true ->
               wrapParagraph maxWidth font fontSize p = [])
    /\ (forall before p after, blank p = true ->
          paragraphLines (before ++ newline :: p ++ newline :: after)
                         maxWidth font fontSize
          = paragraphLines before maxWidth font fontSize
            ++ paragraphLines after maxWidth font fontSize)
    /\ (paragraphLines text maxWidth font fontSize = [] ->
        wrapText text maxWidth font fontSize = [[]])
    /\ (paragraphLines text maxWidth font fontSize <> [] ->
        wrapText text maxWidth font fontSize
        = paragraphLines text maxWidth font fontSize)
    /\ wrapText text maxWidth font fontSize <> [].
Proof.
  intros text maxWidth font fontSize. repeat split.
  - intros p Hp. now apply wrapParagraph_blank.
  - intros before p after Hp.
    rewrite !paragraphLines_app, (paragraphLines_blank p) by exact Hp.
    reflexivity.
  - intros E. now rewrite wrapText_unfold, E.
  - intros E. rewrite wrapText_unfold.
    destruct (paragraphLines _ _ _ _); [congruence | reflexivity].
  - rewrite wrapText_unfold.
    destruct (paragraphLines _ _ _ _); discriminate.
Qed.

(** C5 as stated fails: a description that ends in a line break wraps to
    a single line. *)
Lemma line_break_single_line :
  ~ (forall (description : jsstring) (maxWidth : Number) (font : Font)
            (fontSize : Number),
       In newline description ->
       (2 <= List.length (wrapText description maxWidth font fontSize))%nat).
Proof.
  intros H.
  specialize (H (lit "Monthly Payment" ++ [newline]) #217
                (exampleFont HelveticaBold) #10).
  vm_compute in H.
  assert (Hin : In 10%N [77; 111; 110; 116; 104; 108; 121; 32; 80; 97; 121;
                         109; 101; 110; 116; 10]%N).
  { repeat (try (left; reflexivity); right). }
  specialize (H Hin). inversion H as [|n H1]. inversion H1.
Qed.

(** C5, amended.  When text with a visible character stands both before
    and after an explicit line break, wrapping gives at least two lines,
    whatever the width. *)
Theorem wrapText_line_break_two_lines :
  forall (before after : jsstring) (maxWidth : Number) (font : Font)
         (fontSize : Number),
    hasWord before = true -> hasWord after = true ->
    (2 <= List.length
            (wrapText (before ++ newline :: after) maxWidth font fontSize))%nat.
Proof.
  intros before after maxWidth font fontSize Hb Ha.
  rewrite wrapText_unfold, paragraphLines_app.
  pose proof (paragraphLines_not_nil maxWidth font fontSize before Hb) as H1.
  pose proof (paragraphLines_not_nil maxWidth font fontSize after Ha) as H2.
  destruct (paragraphLines before _ _ _) as [|l1 r1]; [congruence|].
  destruct (paragraphLines after _ _ _) as [|l2 r2]; [congruence|].
  cbn [app]. cbn [List.length]. rewrite length_app. cbn [List.length]. lia.
Qed.

Lemma wrapText_line_break_two_lines_witness :
  hasWord (lit "Monthly Payment 3580, 18 Months") = true
  /\ hasWord (lit "Payment no. 3") = true
  /\ (2 <= List.length
             (wrapText exampleRemarks #263 (exampleFont Helvetica) #9))%nat.
Proof.
  split; [reflexivity | split; [reflexivity|]].
  apply (wrapText_line_break_two_lines
           (lit "Monthly Payment 3580, 18 Months") (lit "Payment no. 3")
           #263 (exampleFont Helvetica) #9); reflexivity.
Defined.

Lemma lineOK_incl (ws ws' : list jsstring) (maxWidth : Number)
    (font : Font) (fontSize : Number) (line : jsstring) :
  incl ws ws' ->
  lineOK ws maxWidth font fontSize line ->
  lineOK ws' maxWidth font fontSize line.
Proof.
  intros Hi [[Hin Hg] | Hl]; [left | right]; auto.
Qed.

Lemma paragraphs_groups (maxWidth : Number) (font : Font)
    (fontSize : Number) (ps : list jsstring) :
  exists groupss,
    Forall2 (fun p groups =>
               groupsOf (split space p) groups
                        (wrapParagraph maxWidth font fontSize p))
            ps groupss
    /\ flat_map (wrapParagraph maxWidth font fontSize) ps
       = map (join [space]) (List.concat groupss).
Proof.
  induction ps as [|p ps (gss & HF & HE)].
  - exists []. split; [constructor | reflexivity].
  - destruct (wrapParagraph_groups maxWidth font fontSize p) as [g Hg].
    exists (g :: gss). split; [constructor; assumption|].
    cbn [flat_map List.concat]. rewrite map_app, HE.
    destruct Hg as [Hg _]. now rewrite Hg.
Qed.

(** C4.  For a positive [maxWidth] and a width measurement that returns
    numbers and measures the empty string as zero, every line of
    [wrapText] is either one whole word of the text that is wider than
    [maxWidth], or is at most [maxWidth] wide.  No word is split: the
    lines of every paragraph are runs of its whole words joined by single
    spaces, in their order, and only words without a visible character
    are left out. *)
Theorem wrapText_width_bound :
  forall (text : jsstring) (maxWidth : Number) (font : Font)
         (fontSize : Number),
    JSNumber.gtb maxWidth #0 = true ->
    (forall s, is_nan (widthOfTextAtSize font s fontSize) = false) ->
    JSNumber.eqb (widthOfTextAtSize font [] fontSize) #0 = true ->
    Forall (lineOK (flat_map (split space) (split newline text))
                   maxWidth font fontSize)
           (wrapText text maxWidth font fontSize)
    /\ exists groupss,
         Forall2 (fun p groups =>
                    groupsOf (split space p) groups
                             (wrapParagraph maxWidth font fontSize p))
                 (split newline text) groupss
         /\ (wrapText text maxWidth font fontSize
             = map (join [space]) (List.concat groupss)
             \/ (List.concat groupss = []
                 /\ wrapText text maxWidth font fontSize = [[]])).
Proof.
  intros text maxWidth font fontSize Hpos Hnum Hempty.
  destruct (gtb_not_nan _ _ Hpos) as [Hmax _].
  assert (Hlines :
            Forall (lineOK (flat_map (split space) (split newline text))
                           maxWidth font fontSize)
                   (paragraphLines text maxWidth font fontSize)).
  { unfold paragraphLines.
    induction (split newline text) as [|p ps IH]; [constructor|].
    cbn [flat_map]. apply Forall_app. split.
    - eapply Forall_impl;
        [|apply wrapParagraph_width; [exact Hnum | exact Hmax]].
      intros line. apply lineOK_incl. apply incl_appl, incl_refl.
    - eapply Forall_impl; [|exact IH].
      intros line. apply lineOK_incl. apply incl_appr, incl_refl. }
  destruct (paragraphs_groups maxWidth font fontSize (split newline text))
    as (gss & HF & HE).
  fold (paragraphLines text maxWidth font fontSize) in HE.
  rewrite wrapText_unfold.
  destruct (paragraphLines text maxWidth font fontSize) as [|l ls] eqn:E.
  - split.
    + constructor; [|constructor]. right.
      now apply zero_leb_positive.
    + exists gss. split; [exact HF|]. right. split; [|reflexivity].
      symmetry in HE. now apply map_eq_nil in HE.
  - split; [exact Hlines|].
    exists gss. split; [exact HF|]. now left.
Qed.

Lemma exampleFont_is_number (name : FontName) (s : jsstring) :
  is_nan (widthOfTextAtSize (exampleFont name) s #9) = false.
Proof.
  cbn [exampleFont widthOfTextAtSize].
  destruct (nth_in_or_default (List.length s)
              (map (fun n => (ofNat n * #9 / #2)%js) (seq 0 1000))
              (#500 * #9)%js) as [Hin | Hd].
  - assert (F : forallb (fun x => negb (is_nan x))
                 (map (fun n => (ofNat n * #9 / #2)%js) (seq 0 1000)) = true)
      by (vm_compute; reflexivity).
    rewrite forallb_forall in F. specialize (F _ Hin).
    now apply negb_true_iff in F.
  - rewrite Hd. reflexivity.
Qed.

Lemma wrapText_width_bound_witness :
  JSNumber.gtb #263 #0 = true
  /\ Forall (lineOK (flat_map (split space) (split newline exampleRemarks))
                    #263 (exampleFont Helvetica) #9)
            (wrapText exampleRemarks #263 (exampleFont Helvetica) #9).
Proof.
  split; [reflexivity|].
  apply (wrapText_width_bound exampleRemarks #263 (exampleFont Helvetica) #9).
  - reflexivity.
  - apply exampleFont_is_number.
  - reflexivity.
Defined.

(* ================================================================== *)
(** * Properties of the totals calculator *)
(* ================================================================== *)

(** C2 as stated fails: on the rendered invoice (one item, quantity 1,
    rate 3033.89, both rates 0.09, round-off 0.01) none of the stated
    tax figures is what [computeTotals] returns, and the total cell does
    not read [Rs 3580.44]. *)
Lemma scenario_totals_not_as_stated :
  let totals := computeTotals (InvoiceData.invoice createInvoiceData) in
  ~ (exists numberToString,
        toFixed numberToString (Totals.cgstAmount totals) 4 = lit "272.8501"
        \/ toFixed numberToString (Totals.sgstAmount totals) 4
           = lit "272.8501"
        \/ toFixed numberToString (Totals.taxTotal totals) 4
           = lit "545.7002"
        \/ toFixed numberToString (Totals.grandTotal totals) 4
           = lit "3580.4403"
        \/ formatCurrency numberToString (Totals.grandTotal totals)
           = lit "Rs 3580.44").
Proof.
  intros totals [nts H]. vm_compute in H.
  repeat (destruct H as [H | H]; [discriminate H|]). discriminate H.
Qed.

(** ** Missing tax rates and empty item lists *)

Lemma orZero_cases (v : option Number) :
  orZero v = #0
  \/ (exists s m e, orZero v = S754_finite s m e)
  \/ (exists s, orZero v = S754_infinity s).
Proof.
  destruct v as [[s|s| |s m e]|]; cbn;
    first [ left; reflexivity
          | right; left; do 3 eexists; reflexivity
          | right; right; eexists; reflexivity ].
Qed.

Lemma mul_finite_zero (x : Number) :
  is_finite x = true -> exists s, (x * #0)%js = S754_zero s.
Proof. destruct x; cbn; try discriminate; eauto. Qed.

Lemma zero_mul_finite (s : bool) (x : Number) :
  is_finite x = true -> exists s', (S754_zero s * x)%js = S754_zero s'.
Proof. destruct x; cbn; try discriminate; eauto. Qed.

Lemma add_zeros (s1 s2 : bool) :
  exists s, (S754_zero s1 + S754_zero s2)%js = S754_zero s.
Proof. destruct s1, s2; cbn; eauto. Qed.

Lemma eqb_zero (s : bool) : JSNumber.eqb (S754_zero s) #0 = true.
Proof. reflexivity. Qed.

(** Adding a zero and then a round-off is adding the round-off. *)
Lemma add_zero_then (x : Number) (s : bool) (v : option Number) :
  is_finite x = true ->
  (x + S754_zero s + orZero v)%js = (x + orZero v)%js.
Proof.
  intros Hx.
  destruct x as [sx|sx| |sx mx ex]; try discriminate; [|reflexivity].
  destruct (orZero_cases v) as [E | [(s' & m & e & E) | (s' & E)]];
    rewrite E; destruct sx, s; reflexivity.
Qed.

Lemma orZero_finite (v : option Number) :
  finiteIfPresent v -> is_finite (orZero v) = true.
Proof.
  destruct v as [[s|s| |s m e]|]; cbn; intros H;
    try discriminate; reflexivity.
Qed.

Lemma eqb_refl_finite (x : Number) :
  is_finite x = true -> JSNumber.eqb x x = true.
Proof.
  destruct x as [s|s| |s m e]; try discriminate; intros _; [reflexivity|].
  unfold JSNumber.eqb, SFeqb. cbn.
  rewrite Z.compare_refl, Pos.compare_cont_refl. destruct s; reflexivity.
Qed.

(** C9 as stated fails when the base amount overflows: with no tax rates
    and one item of quantity 1e200 at rate 1e200 the base amount is
    infinite and the tax amounts are NaN, not zero. *)
Lemma missing_taxRates_overflow :
  ~ (forall invoice : Invoice.t,
       Invoice.taxRates invoice = None ->
       JSNumber.eqb (Totals.cgstAmount (computeTotals invoice)) #0 = true).
Proof.
  intros H.
  specialize
    (H (withTaxRates
          (withItems (InvoiceData.invoice createInvoiceData)
             [LineItem.mk (lit "Monthly Payment") (ofZ (10 ^ 200))
                          (ofZ (10 ^ 200)) (lit "Nos.") None])
          None) eq_refl).
  vm_compute in H. discriminate H.
Qed.

(** C9, amended.  For every invoice whose tax rates are missing (or hold
    neither rate), [computeTotals] returns a Totals value, the one it
    returns for the same invoice with both rates zero, whatever the
    base amount; and when the base amount is finite, cgstAmount,
    sgstAmount and taxTotal are zero and grandTotal is
    baseAmount + roundOff. *)
Theorem computeTotals_missing_taxRates :
  forall invoice : Invoice.t,
    Invoice.taxRates invoice = None
    \/ Invoice.taxRates invoice = Some (TaxRates.mk None None) ->
    let totals := computeTotals invoice in
    totals
    = computeTotals
        (withTaxRates invoice (Some (TaxRates.mk (Some #0) (Some #0))))
    /\ (is_finite (Totals.baseAmount totals) = true ->
        JSNumber.eqb (Totals.cgstAmount totals) #0 = true
        /\ JSNumber.eqb (Totals.sgstAmount totals) #0 = true
        /\ JSNumber.eqb (Totals.taxTotal totals) #0 = true
        /\ Totals.grandTotal totals
           = (Totals.baseAmount totals + Totals.roundOff totals)%js).
Proof.
  intros invoice Hrates totals. subst totals.
  unfold computeTotals in *.
  set (base := fold_left _ _ _) in *.
  assert (Ez : orZero (optChain (Invoice.taxRates invoice) TaxRates.cgst) = #0
               /\ orZero (optChain (Invoice.taxRates invoice) TaxRates.sgst)
                  = #0).
  { destruct Hrates as [E | E]; rewrite E; split; reflexivity. }
  destruct Ez as [Ec Es]. rewrite Ec, Es.
  split; [reflexivity|].
  cbn [Totals.cgstAmount Totals.sgstAmount Totals.taxTotal
       Totals.grandTotal Totals.baseAmount Totals.roundOff].
  intros Hfin.
  destruct (mul_finite_zero base Hfin) as [s Em]. rewrite Em.
  destruct (add_zeros s s) as [s' Ea]. rewrite Ea.
  repeat split; try apply eqb_zero.
  now apply add_zero_then.
Qed.

Lemma computeTotals_missing_taxRates_witness :
  let invoice := withTaxRates (InvoiceData.invoice createInvoiceData) None in
  let totals := computeTotals invoice in
  totals
  = computeTotals
      (withTaxRates invoice (Some (TaxRates.mk (Some #0) (Some #0))))
  /\ JSNumber.eqb (Totals.cgstAmount totals) #0 = true
  /\ JSNumber.eqb (Totals.sgstAmount totals) #0 = true
  /\ JSNumber.eqb (Totals.taxTotal totals) #0 = true
  /\ Totals.grandTotal totals
     = (Totals.baseAmount totals + Totals.roundOff totals)%js.
Proof.
  destruct (computeTotals_missing_taxRates
              (withTaxRates (InvoiceData.invoice createInvoiceData) None)
              (or_introl eq_refl)) as [Hsame Hzero].
  split; [exact Hsame | apply Hzero; reflexivity].
Defined.

(** C10 as stated fails for a rate that is not a finite number: without
    items and with a CGST rate of [Infinity] the CGST amount is
    [0 * Infinity], which is NaN and not zero. *)
Lemma no_items_nonfinite_rate :
  ~ (forall invoice : Invoice.t,
       Invoice.items invoice = [] ->
       JSNumber.eqb (Totals.cgstAmount (computeTotals invoice)) #0 = true).
Proof.
  intros H.
  specialize
    (H (withTaxRates
          (withItems (InvoiceData.invoice createInvoiceData) [])
          (Some (TaxRates.mk (Some (S754_infinity false))
                             (Some (dec 9 2)))))
       eq_refl).
  vm_compute in H. discriminate H.
Qed.

(** C10, amended.  For every invoice without items, whose rates and
    round-off are finite numbers where present, [computeTotals] returns
    baseAmount 0, cgstAmount 0, sgstAmount 0, taxTotal 0 (zeros as
    numbers, of either sign) and a grandTotal equal to the round-off, or
    0 when the round-off is missing. *)
Theorem computeTotals_no_items :
  forall invoice : Invoice.t,
    Invoice.items invoice = [] ->
    finiteIfPresent (optChain (Invoice.taxRates invoice) TaxRates.cgst) ->
    finiteIfPresent (optChain (Invoice.taxRates invoice) TaxRates.sgst) ->
    finiteIfPresent (Invoice.roundOff invoice) ->
    let totals := computeTotals invoice in
    Totals.baseAmount totals = #0
    /\ JSNumber.eqb (Totals.cgstAmount totals) #0 = true
    /\ JSNumber.eqb (Totals.sgstAmount totals) #0 = true
    /\ JSNumber.eqb (Totals.taxTotal totals) #0 = true
    /\ match Invoice.roundOff invoice with
       | Some roundOff =>
           JSNumber.eqb (Totals.grandTotal totals) roundOff = true
       | None => Totals.grandTotal totals = #0
       end.
Proof.
  intros invoice Hitems Hc Hs Hr totals. subst totals.
  unfold computeTotals. rewrite Hitems. cbn [fold_left].
  cbn [Totals.cgstAmount Totals.sgstAmount Totals.taxTotal
       Totals.grandTotal Totals.baseAmount Totals.roundOff].
  destruct (zero_mul_finite false _ (orZero_finite _ Hc)) as [sc Ec].
  destruct (zero_mul_finite false _ (orZero_finite _ Hs)) as [ss Es].
  change #0 with (S754_zero false) in *.
  rewrite Ec, Es.
  destruct (add_zeros sc ss) as [st Et]. rewrite Et.
  repeat split; try apply eqb_zero.
  destruct (Invoice.roundOff invoice) as [[s|s| |s m e]|];
    cbn in Hr; try discriminate.
  - destruct st; reflexivity.
  - destruct st; cbn [orZero JSNumber.truthy];
      apply (eqb_refl_finite (S754_finite s m e)); reflexivity.
  - destruct st; reflexivity.
Qed.

Lemma computeTotals_no_items_witness :
  let invoice := withItems (InvoiceData.invoice createInvoiceData) [] in
  let totals := computeTotals invoice in
  Totals.baseAmount totals = #0
  /\ JSNumber.eqb (Totals.cgstAmount totals) #0 = true
  /\ JSNumber.eqb (Totals.sgstAmount totals) #0 = true
  /\ JSNumber.eqb (Totals.taxTotal totals) #0 = true
  /\ JSNumber.eqb (Totals.grandTotal totals) (dec 1 2) = true.
Proof.
  apply (computeTotals_no_items
           (withItems (InvoiceData.invoice createInvoiceData) []));
    reflexivity.
Defined.

(* ================================================================== *)
(** * Properties of the section composers *)
(* ================================================================== *)

(** ** The items table draws the first item only *)

(** C1 fails on the code.  [drawItemsSection] reads [invoice.items[0]]
    and nothing else of the list: whatever items follow the first, with
    the same totals it issues the same drawing primitives, so there is
    one detail block and not one per line item. *)
Theorem drawItemsSection_first_item_only :
  forall (numberToString : Number -> jsstring) (invoice : Invoice.t)
         (item : LineItem.t) (rest rest' : list LineItem.t)
         (totals : Totals.t) (startY : Number) (fonts : Fonts),
    drawItemsSection numberToString (withItems invoice (item :: rest))
                     totals startY fonts
    = drawItemsSection numberToString (withItems invoice (item :: rest'))
                       totals startY fonts.
Proof. reflexivity. Qed.

(** Two invoices whose second items differ, each with its own totals,
    get the same items table. *)
Example items_beyond_first_not_drawn :
  invoiceWithDeposit <> invoiceWithLateFee
  /\ drawItemsSection integerToString invoiceWithDeposit
       (computeTotals invoiceWithDeposit) #300 exampleFonts []
     = drawItemsSection integerToString invoiceWithLateFee
         (computeTotals invoiceWithLateFee) #300 exampleFonts [].
Proof.
  split; [discriminate|].
  replace (computeTotals invoiceWithLateFee)
    with (computeTotals invoiceWithDeposit) by (vm_compute; reflexivity).
  reflexivity.
Qed.

(* ================================================================== *)
(** * Rounding of binary64 arithmetic *)
(* ================================================================== *)

(** The results below relate the operations on doubles to exact integer
    arithmetic: what rounding returns, that it is a well-formed double,
    and how far it is from the exact result. *)

Open Scope Z_scope.

(** ** Binary digits *)

Lemma digits2_pos_size (m : positive) : digits2_pos m = Pos.size m.
Proof. induction m; cbn; congruence. Qed.

Lemma digits_bounds (m : positive) :
  2 ^ (Z.pos (digits2_pos m) - 1) <= Z.pos m < 2 ^ Z.pos (digits2_pos m).
Proof.
  rewrite digits2_pos_size. split.
  - pose proof (Pos.size_le m) as H.
    assert (H' : 2 ^ Z.pos (Pos.size m) <= 2 * Z.pos m).
    { rewrite <- Pos2Z.inj_pow. exact H. }
    replace (Z.pos (Pos.size m)) with (Z.succ (Z.pos (Pos.size m) - 1)) in H'
      by lia.
    rewrite Z.pow_succ_r in H' by lia. lia.
  - pose proof (Pos.size_gt m) as H.
    rewrite <- Pos2Z.inj_pow. exact H.
Qed.

Lemma pow2_pos (k : Z) : 0 <= k -> 0 < 2 ^ k.
Proof. intros H. apply Z.pow_pos_nonneg; lia. Qed.

Lemma pow2_lt_inv (a b : Z) : 0 <= b -> 2 ^ a < 2 ^ b -> a < b.
Proof. intros Hb H. apply (Z.pow_lt_mono_r_iff 2); lia. Qed.

Lemma pow2_le (a b : Z) : 0 <= a <= b -> 2 ^ a <= 2 ^ b.
Proof. intros H. apply Z.pow_le_mono_r; lia. Qed.

Lemma pow2_lt (a b : Z) : 0 <= a < b -> 2 ^ a < 2 ^ b.
Proof. intros H. apply Z.pow_lt_mono_r; lia. Qed.

Lemma pow2_add (a b : Z) : 0 <= a -> 0 <= b -> 2 ^ (a + b) = 2 ^ a * 2 ^ b.
Proof. intros. apply Z.pow_add_r; lia. Qed.

Lemma pow2_double (a : Z) : 0 <= a -> 2 ^ (2 * a) = 2 ^ a * 2 ^ a.
Proof.
  intros H. replace (2 * a) with (a + a) by lia. now apply pow2_add.
Qed.

(** The number of digits of a positive integer is pinned by the powers
    of two around it. *)
Lemma digits_unique (m : positive) (k : Z) :
  2 ^ (k - 1) <= Z.pos m < 2 ^ k -> 1 <= k -> Z.pos (digits2_pos m) = k.
Proof.
  intros [Hl Hu] Hk. pose proof (digits_bounds m) as [Dl Du].
  assert (H1 : k - 1 < Z.pos (digits2_pos m))
    by (apply pow2_lt_inv; lia).
  assert (H2 : Z.pos (digits2_pos m) - 1 < k)
    by (apply pow2_lt_inv; lia).
  lia.
Qed.

Lemma digits_le (m : positive) (k : Z) :
  0 <= k -> Z.pos m < 2 ^ k -> Z.pos (digits2_pos m) <= k.
Proof.
  intros Hk H. pose proof (digits_bounds m) as [Dl _].
  assert (Z.pos (digits2_pos m) - 1 < k) by (apply pow2_lt_inv; lia). lia.
Qed.

Lemma digits_gt (m : positive) (k : Z) :
  0 <= k -> 2 ^ k <= Z.pos m -> k < Z.pos (digits2_pos m).
Proof.
  intros Hk H. pose proof (digits_bounds m) as [_ Du].
  apply pow2_lt_inv; lia.
Qed.

(** ** Shifting right *)

Lemma shr_1_m (mrs : shr_record) :
  0 <= shr_m mrs -> shr_m (shr_1 mrs) = shr_m mrs / 2.
Proof.
  destruct mrs as [m r s]. cbn [shr_m]. intros H.
  destruct m as [|p|p]; [reflexivity | | lia].
  destruct p as [p|p|]; cbn [shr_1 shr_m].
  - rewrite (Pos2Z.inj_xI p). apply (Z.div_unique _ 2 _ 1); lia.
  - rewrite (Pos2Z.inj_xO p). apply (Z.div_unique _ 2 _ 0); lia.
  - reflexivity.
Qed.

Lemma shr_1_nonneg (mrs : shr_record) :
  0 <= shr_m mrs -> 0 <= shr_m (shr_1 mrs).
Proof. intros H. rewrite shr_1_m by exact H. apply Z.div_pos; lia. Qed.

Lemma iter_shr_m (p : positive) (mrs : shr_record) :
  0 <= shr_m mrs ->
  shr_m (iter_pos shr_1 p mrs) = shr_m mrs / 2 ^ Z.pos p.
Proof.
  revert mrs. induction p as [p IH|p IH|]; intros mrs H; cbn [iter_pos].
  - assert (H1 := shr_1_nonneg mrs H).
    assert (H2 : 0 <= shr_m (iter_pos shr_1 p (shr_1 mrs))).
    { rewrite IH by exact H1. apply Z.div_pos; [exact H1|].
      apply pow2_pos; lia. }
    rewrite IH by exact H2. rewrite IH by exact H1.
    rewrite shr_1_m by exact H.
    rewrite !Z.div_div by (try apply pow2_pos; lia).
    f_equal. rewrite (Pos2Z.inj_xI p), Z.add_comm, pow2_add, pow2_double by lia.
    reflexivity.
  - assert (H2 : 0 <= shr_m (iter_pos shr_1 p mrs)).
    { rewrite IH by exact H. apply Z.div_pos; [exact H|].
      apply pow2_pos; lia. }
    rewrite IH by exact H2. rewrite IH by exact H.
    rewrite !Z.div_div by (try apply pow2_pos; lia).
    f_equal. rewrite (Pos2Z.inj_xO p), pow2_double by lia. reflexivity.
  - rewrite shr_1_m by exact H. reflexivity.
Qed.

(** [shr] on an exact location divides the mantissa by [2^n]. *)
Lemma shr_exact (m e n : Z) :
  0 <= m ->
  let '(mrs, e') := shr (shr_record_of_loc m loc_Exact) e n in
  shr_m mrs = m / 2 ^ Z.max n 0 /\ e' = e + Z.max n 0
  /\ (n <= 0 -> loc_of_shr_record mrs = loc_Exact).
Proof.
  intros Hm. unfold shr. destruct n as [|p|p]; cbn [shr_record_of_loc].
  - cbn [shr_m]. rewrite Z.div_1_r. repeat split; try lia.
  - rewrite iter_shr_m by exact Hm. cbn [shr_m].
    repeat split; try lia.
  - cbn [shr_m]. rewrite Z.div_1_r. repeat split; try lia.
Qed.

Lemma round_nearest_even_cases (q : Z) (l : location) :
  round_nearest_even q l = q \/ round_nearest_even q l = q + 1.
Proof.
  destruct l as [|[| |]]; cbn; auto. destruct (Z.even q); auto.
Qed.

(** ** Rounding to a double *)

Lemma fexp_eq (k : Z) : SpecFloat.fexp prec emax k = Z.max (k - 53) (-1074).
Proof. reflexivity. Qed.

Lemma div_pow2_bounds (m d n : Z) :
  0 <= n -> 0 <= d - n ->
  2 ^ (d - 1) <= m < 2 ^ d ->
  m / 2 ^ n < 2 ^ (d - n)
  /\ (1 <= d - n -> 2 ^ (d - n - 1) <= m / 2 ^ n).
Proof.
  intros Hn Hd [Hl Hu].
  assert (Hp : 0 < 2 ^ n) by (apply pow2_pos; lia).
  split.
  - apply Z.div_lt_upper_bound; [exact Hp|].
    rewrite <- pow2_add by lia. replace (n + (d - n)) with d by lia.
    exact Hu.
  - intros Hc. apply Z.div_le_lower_bound; [exact Hp|].
    rewrite <- pow2_add by lia. replace (n + (d - n - 1)) with (d - 1) by lia.
    exact Hl.
Qed.

Lemma div_pow2_zero (m d n : Z) :
  0 <= d <= n -> 0 <= m < 2 ^ d -> m / 2 ^ n = 0.
Proof.
  intros Hd Hm. apply Z.div_small. split; [lia|].
  assert (2 ^ d <= 2 ^ n) by (apply pow2_le; lia). lia.
Qed.

(** What rounding the exact value [m * 2^e] returns, when the exponent
    [e] is not above the exponent [E] of the format at that magnitude:
    the mantissa is cut to [q = m / 2^(E-e)] and the result stands for
    [Q * 2^E] with [Q] either [q] or [q + 1].  It is a well-formed
    double, or the infinity when [Q * 2^E] reaches [2^1024]. *)
Lemma round_aux_spec (s : bool) (mp : positive) (e : Z) :
  let E := SpecFloat.fexp prec emax (Z.pos (digits2_pos mp) + e) in
  e <= E ->
  exists Q,
    (Q = Z.pos mp / 2 ^ (E - e) \/ (e < E /\ Q = Z.pos mp / 2 ^ (E - e) + 1))
    /\ match binary_round_aux prec emax s (Z.pos mp) e loc_Exact with
       | S754_zero s' => s' = s /\ Q = 0
       | S754_infinity s' =>
           s' = s /\ 2 ^ (1024 + 1074) <= Q * 2 ^ (E + 1074)
       | S754_nan => False
       | S754_finite s' m' e' =>
           s' = s /\ E <= e' /\ Z.pos m' * 2 ^ (e' - E) = Q
           /\ bounded prec emax m' e' = true
       end.
Proof.
  intros E HeE. unfold binary_round_aux, shr_fexp.
  cbn [Zdigits2]. fold E.
  pose proof (digits_bounds mp) as Hd.
  set (d := Z.pos (digits2_pos mp)) in *.
  assert (HE : E = Z.max (d + e - 53) (-1074)) by reflexivity.
  set (n := E - e) in *.
  assert (Hn : 0 <= n) by (unfold n; lia).
  pose proof (shr_exact (Z.pos mp) e n ltac:(lia)) as Hs.
  destruct (shr (shr_record_of_loc (Z.pos mp) loc_Exact) e n)
    as [mrs' e'].
  destruct Hs as (Hm' & He' & Hloc).
  rewrite Z.max_l in Hm', He' by lia.
  assert (He'E : e' = E) by (unfold n in He'; lia). clear He'. subst e'.
  set (q := Z.pos mp / 2 ^ n) in *.
  set (Q := round_nearest_even (shr_m mrs') (loc_of_shr_record mrs')).
  assert (HQ : Q = q \/ (e < E /\ Q = q + 1)).
  { unfold Q. destruct (Z.eq_dec n 0) as [Hz | Hnz].
    - left. rewrite Hloc by lia. cbn. exact Hm'.
    - rewrite Hm'.
      destruct (round_nearest_even_cases q (loc_of_shr_record mrs'))
        as [H | H]; rewrite H; [now left | right; unfold n in *; lia]. }
  assert (Hq0 : 0 <= q) by (apply Z.div_pos; [lia | apply pow2_pos; lia]).
  assert (Hqu : q < 2 ^ 53).
  { destruct (Z_le_gt_dec n d) as [Hnd | Hnd].
    - destruct (div_pow2_bounds (Z.pos mp) d n Hn ltac:(lia) Hd) as [Hu _].
      fold q in Hu.
      assert (2 ^ (d - n) <= 2 ^ 53) by (apply pow2_le; unfold n; lia). lia.
    - unfold q. rewrite (div_pow2_zero (Z.pos mp) d n); [reflexivity|lia|lia]. }
  assert (Hql : -1074 < E -> 2 ^ 52 <= q).
  { intros HEn.
    assert (Hc : d - n = 53) by (unfold n; lia).
    destruct (div_pow2_bounds (Z.pos mp) d n Hn ltac:(lia) Hd) as [_ Hl].
    fold q in Hl. rewrite Hc in Hl. apply Hl. lia. }
  exists Q. split; [exact HQ|].
  assert (HQ0 : 0 <= Q) by lia.
  pose proof (shr_exact Q E (SpecFloat.fexp prec emax (Zdigits2 Q + E) - E)
                HQ0) as Hs2.
  destruct (shr (shr_record_of_loc Q loc_Exact) E
              (SpecFloat.fexp prec emax (Zdigits2 Q + E) - E))
    as [mrs'' e''].
  destruct Hs2 as (Hm'' & He'' & _).
  rewrite fexp_eq in Hm'', He''.
  destruct Q as [|Qp|Qp] eqn:EQ; [| |lia].
  - (* the mantissa is rounded to zero *)
    cbn [Zdigits2] in *. rewrite Hm''.
    rewrite Z.div_0_l by (apply Z.pow_nonzero; lia).
    split; reflexivity.
  - cbn [Zdigits2] in *.
    pose proof (digits_bounds Qp) as Hd2.
    set (d2 := Z.pos (digits2_pos Qp)) in *.
    destruct (Z_lt_le_dec (Z.pos Qp) (2 ^ 53)) as [Hlt | Hge].
    + (* no carry into the next binade *)
      assert (Hd2u : d2 <= 53) by (apply digits_le; lia).
      assert (Hd2l : -1074 < E -> d2 = 53).
      { intros HEn. specialize (Hql HEn).
        assert (52 < d2) by (apply digits_gt; lia). lia. }
      assert (Hn2 : Z.max (d2 + E - 53) (-1074) - E = 0) by lia.
      rewrite Hn2 in Hm'', He''. cbn [Z.max Z.compare] in Hm'', He''.
      rewrite Z.div_1_r in Hm''. rewrite Hm''.
      replace e'' with E by lia.
      destruct (E <=? emax - prec) eqn:Eo.
      * repeat split; [lia | rewrite Z.sub_diag; cbn; lia |].
        unfold bounded, canonical_mantissa. rewrite Eo, fexp_eq.
        fold d2. rewrite andb_true_r. apply Z.eqb_eq. lia.
      * apply Z.leb_gt in Eo. change (emax - prec) with 971 in Eo.
        split; [reflexivity|].
        assert (H52 : 2 ^ 52 <= Z.pos Qp) by (destruct HQ as [H | [_ H]];
          specialize (Hql ltac:(lia)); lia).
        assert (Hp : 2 ^ (972 + 1074) <= 2 ^ (E + 1074))
          by (apply pow2_le; lia).
        replace (1024 + 1074) with (52 + (972 + 1074)) by lia.
        rewrite pow2_add by lia.
        apply Z.mul_le_mono_nonneg; lia.
    + (* rounding carried up to [2^53] *)
      assert (HQ53 : Z.pos Qp = 2 ^ 53) by lia.
      assert (Hd2e : d2 = 54).
      { unfold d2. apply digits_unique; [|lia].
        rewrite HQ53. split; [lia|].
        change (54 - 1) with 53. apply pow2_lt; lia. }
      assert (Hn2 : Z.max (d2 + E - 53) (-1074) - E = 1) by lia.
      rewrite Hn2 in Hm'', He''. cbn [Z.max Z.compare] in Hm'', He''.
      rewrite Hm'', HQ53. change (2 ^ 53 / 2 ^ 1) with (Z.pos (2 ^ 52)).
      cbv iota. replace e'' with (E + 1) by lia.
      destruct (E + 1 <=? emax - prec) eqn:Eo.
      * repeat split; [lia | |].
        -- replace (E + 1 - E) with 1 by lia. reflexivity.
        -- unfold bounded, canonical_mantissa. rewrite Eo, fexp_eq.
           rewrite andb_true_r. apply Z.eqb_eq.
           change (Z.pos (digits2_pos (2 ^ 52))) with 53. lia.
      * apply Z.leb_gt in Eo. change (emax - prec) with 971 in Eo.
        split; [reflexivity|].
        assert (Hp : 2 ^ (971 + 1074) <= 2 ^ (E + 1074))
          by (apply pow2_le; lia).
        replace (1024 + 1074) with (53 + (971 + 1074)) by lia.
        rewrite pow2_add by lia.
        apply Z.mul_le_mono_nonneg; lia.
Qed.

(** ** Aligning mantissas *)

Lemma iter_xO (m d : positive) :
  Z.pos (Pos.iter xO m d) = Z.pos m * 2 ^ Z.pos d.
Proof.
  change (Pos.iter xO m d) with (shift_pos d m).
  rewrite shift_pos_correct. change (Z.pow_pos 2 d) with (2 ^ Z.pos d). lia.
Qed.

Lemma shl_align_spec (mx : positive) (ex ex' : Z) :
  let '(m', e') := shl_align mx ex ex' in
  e' = Z.min ex ex' /\ Z.pos m' = Z.pos mx * 2 ^ (ex - e').
Proof.
  unfold shl_align. destruct (ex' - ex) as [|p|p] eqn:E.
  - split; [lia|]. rewrite Z.sub_diag. cbn. lia.
  - split; [lia|]. rewrite Z.sub_diag. cbn. lia.
  - split; [lia|]. rewrite iter_xO. f_equal. f_equal. lia.
Qed.

Lemma digits_shift (m m' : positive) (k : Z) :
  0 <= k -> Z.pos m' = Z.pos m * 2 ^ k ->
  Z.pos (digits2_pos m') = Z.pos (digits2_pos m) + k.
Proof.
  intros Hk Hm. pose proof (digits_bounds m) as [Dl Du].
  assert (Hp : 0 < 2 ^ k) by (apply pow2_pos; lia).
  apply digits_unique; [|lia]. rewrite Hm. split.
  - replace (Z.pos (digits2_pos m) + k - 1)
      with (Z.pos (digits2_pos m) - 1 + k) by lia.
    rewrite pow2_add by lia. apply Z.mul_le_mono_nonneg_r; lia.
  - rewrite pow2_add by lia. apply Z.mul_lt_mono_pos_r; lia.
Qed.

(** Rounding the exact value [m * 2^e], whatever the exponent.  With
    [E] the exponent of the format at that magnitude, the result stands
    for [Q * 2^E]: for [E <= e] this is the exact value, otherwise [Q] is
    [m / 2^(E-e)] or the next integer. *)
Lemma binary_round_spec (s : bool) (mp : positive) (e : Z) :
  let E := SpecFloat.fexp prec emax (Z.pos (digits2_pos mp) + e) in
  exists Q,
    ((E <= e /\ Q = Z.pos mp * 2 ^ (e - E))
     \/ (e < E /\ (Q = Z.pos mp / 2 ^ (E - e)
                   \/ Q = Z.pos mp / 2 ^ (E - e) + 1)))
    /\ match binary_round prec emax s mp e with
       | S754_zero s' => s' = s /\ Q = 0
       | S754_infinity s' =>
           s' = s /\ 2 ^ (1024 + 1074) <= Q * 2 ^ (E + 1074)
       | S754_nan => False
       | S754_finite s' m' e' =>
           s' = s /\ E <= e' /\ Z.pos m' * 2 ^ (e' - E) = Q
           /\ bounded prec emax m' e' = true
       end.
Proof.
  intros E. unfold binary_round. fold E.
  pose proof (shl_align_spec mp e E) as Ha.
  destruct (shl_align mp e E) as [mz ez]. destruct Ha as [Hez Hmz].
  assert (Hdz : Z.pos (digits2_pos mz) + ez = Z.pos (digits2_pos mp) + e).
  { rewrite (digits_shift mp mz (e - ez)); lia. }
  pose proof (round_aux_spec s mz ez) as Hr. cbv zeta in Hr.
  rewrite Hdz in Hr. fold E in Hr.
  destruct (Hr ltac:(lia)) as (Q & HQ & Hres). clear Hr.
  exists Q. split; [|exact Hres].
  destruct (Z_le_gt_dec E e) as [HEe | HEe].
  - left. split; [exact HEe|].
    destruct HQ as [HQ | [HQ _]]; [|lia].
    rewrite HQ. replace (E - ez) with 0 by lia.
    rewrite Z.div_1_r, Hmz. do 2 f_equal. lia.
  - right. split; [lia|].
    replace (e - ez) with 0 in Hmz by lia.
    rewrite Z.mul_1_r in Hmz. rewrite Hmz in HQ.
    replace ez with e in HQ by lia.
    destruct HQ as [HQ | [_ HQ]]; auto.
Qed.

(** ** Well-formed doubles *)

Lemma bounded_inv (m : positive) (e : Z) :
  bounded prec emax m e = true ->
  -1074 <= e <= 971
  /\ Z.pos (digits2_pos m) <= 53
  /\ (-1074 < e -> Z.pos (digits2_pos m) = 53).
Proof.
  unfold bounded, canonical_mantissa. rewrite fexp_eq.
  intros H. apply andb_true_iff in H as [Hc He].
  apply Z.eqb_eq in Hc. apply Z.leb_le in He.
  change (emax - prec) with 971 in He. lia.
Qed.

Lemma valid_mantissa_bounds (m : positive) (e : Z) :
  bounded prec emax m e = true ->
  Z.pos m < 2 ^ 53 /\ (-1074 < e -> 2 ^ 52 <= Z.pos m).
Proof.
  intros H. destruct (bounded_inv m e H) as (He & Hd & Hn).
  pose proof (digits_bounds m) as [Dl Du]. split.
  - assert (2 ^ Z.pos (digits2_pos m) <= 2 ^ 53) by (apply pow2_le; lia).
    lia.
  - intros Hlt. rewrite (Hn Hlt) in Dl. exact Dl.
Qed.

(** ** Rounding in units of [2^-1074] *)

Lemma scaled_exact (m m' : positive) (e e' E Q : Z) :
  -1074 <= E <= e' ->
  Z.pos m' * 2 ^ (e' - E) = Q ->
  Z.pos m' * 2 ^ (e' + 1074) = Q * 2 ^ (E + 1074).
Proof.
  intros HE HQ. rewrite <- HQ, <- Z.mul_assoc, <- pow2_add by lia.
  do 2 f_equal. lia.
Qed.

(** Rounding a positive exact value of [V] units. *)
Lemma binary_round_approx (s : bool) (mp : positive) (e : Z) :
  -1074 <= e ->
  approx (cond_Zopp s (Z.pos mp * 2 ^ (e + 1074)))
         (binary_round prec emax s mp e).
Proof.
  intros He.
  destruct (binary_round_spec s mp e) as (Q & HQ & Hres).
  cbv zeta in HQ, Hres. rewrite fexp_eq in HQ, Hres.
  pose proof (digits_bounds mp) as [Dl Du].
  set (d := Z.pos (digits2_pos mp)) in *.
  set (E := Z.max (d + e - 53) (-1074)) in *.
  set (V := Z.pos mp * 2 ^ (e + 1074)).
  set (W := 2 ^ (E + 1074)).
  assert (HW : 0 < W) by (apply pow2_pos; lia).
  assert (HV : 0 < V)
    by (apply Z.mul_pos_pos; [lia | apply pow2_pos; lia]).
  assert (Hbound : Z.abs (Q * W - V) <= W /\ (Q * W <> V -> 2 ^ 52 * W <= V)
                   /\ 0 <= Q).
  { destruct HQ as [[HEe HQ] | [HEe HQ]].
    - assert (EQ : Q * W = V).
      { unfold V, W. rewrite HQ, <- Z.mul_assoc, <- pow2_add by lia.
        do 2 f_equal. lia. }
      rewrite EQ. split; [lia | split; [lia|]].
      rewrite HQ. apply Z.mul_nonneg_nonneg; [lia|].
      apply Z.lt_le_incl, pow2_pos; lia.
    - set (n := E - e) in *.
      assert (Hn : 0 < n) by (unfold n; lia).
      assert (Hpn : 0 < 2 ^ n) by (apply pow2_pos; lia).
      set (q := Z.pos mp / 2 ^ n) in *.
      assert (Hq : q * 2 ^ n <= Z.pos mp < (q + 1) * 2 ^ n).
      { unfold q. pose proof (Z.div_mod (Z.pos mp) (2 ^ n) ltac:(lia)) as Hdm.
        pose proof (Z.mod_pos_bound (Z.pos mp) (2 ^ n) Hpn). nia. }
      assert (HWn : W = 2 ^ n * 2 ^ (e + 1074)).
      { unfold W. rewrite <- pow2_add by lia. f_equal. unfold n. lia. }
      assert (Hpe : 0 < 2 ^ (e + 1074)) by (apply pow2_pos; lia).
      assert (HqW : q * W <= V < (q + 1) * W).
      { rewrite HWn. unfold V. split.
        - rewrite Z.mul_assoc. apply Z.mul_le_mono_nonneg_r; lia.
        - rewrite Z.mul_assoc. apply Z.mul_lt_mono_pos_r; lia. }
      assert (H52 : 2 ^ 52 * W <= V).
      { assert (HE : E = d + e - 53) by lia.
        unfold W, V. rewrite <- pow2_add by lia.
        replace (52 + (E + 1074)) with (d - 1 + (e + 1074)) by lia.
        rewrite pow2_add by lia. apply Z.mul_le_mono_nonneg_r; lia. }
      assert (Hq0 : 0 <= q) by (apply Z.div_pos; lia).
      repeat split; try lia; destruct HQ as [HQ | HQ]; subst Q; nia. }
  destruct Hbound as (Herr & Hrel & HQ0).
  destruct (binary_round prec emax s mp e) as [s'|s'| |s' m' e'];
    cbn [approx].
  - destruct Hres as [_ HQz]. subst Q. exfalso.
    assert (2 ^ 52 * W <= V) by (apply Hrel; lia). lia.
  - destruct Hres as [Hs Ho]. subst s'. fold W in Ho. split.
    + destruct s; cbn [cond_Zopp]; lia.
    + assert (HabsV : Z.abs (cond_Zopp s V) = V)
        by (destruct s; cbn [cond_Zopp]; lia).
      rewrite HabsV.
      replace (1024 + 1074 + 52) with (52 + (1024 + 1074)) by lia.
      rewrite pow2_add by lia.
      destruct (Z.eq_dec (Q * W) V) as [EQ | NE]; [lia|].
      specialize (Hrel NE). lia.
  - exact Hres.
  - destruct Hres as (Hs & HEe & Hm & Hb). subst s'. split; [exact Hb|].
    cbn [scaled].
    rewrite (scaled_exact m' m' e' e' E Q ltac:(lia) Hm). fold W.
    assert (Habs : Z.abs (cond_Zopp s (Q * W) - cond_Zopp s V)
                   = Z.abs (Q * W - V))
      by (destruct s; cbn [cond_Zopp]; lia).
    assert (HabsV : Z.abs (cond_Zopp s V) = V)
      by (destruct s; cbn [cond_Zopp]; lia).
    rewrite Habs, HabsV.
    destruct (Z.eq_dec (Q * W) V) as [EQ | NE]; [rewrite EQ; lia|].
    specialize (Hrel NE). lia.
Qed.

Lemma binary_normalize_approx (z e : Z) :
  -1074 <= e ->
  approx (z * 2 ^ (e + 1074)) (binary_normalize prec emax z e false).
Proof.
  intros He. destruct z as [|p|p]; cbn [binary_normalize].
  - reflexivity.
  - apply (binary_round_approx false p e He).
  - pose proof (binary_round_approx true p e He) as H.
    cbn [cond_Zopp] in H.
    replace (Z.neg p * 2 ^ (e + 1074)) with (- (Z.pos p * 2 ^ (e + 1074)))
      by lia.
    exact H.
Qed.

Lemma aligned_scaled (s : bool) (m : positive) (e ez : Z) :
  -1074 <= ez <= e ->
  cond_Zopp s (Z.pos (fst (shl_align m e ez))) * 2 ^ (ez + 1074)
  = scaled (S754_finite s m e).
Proof.
  intros He. pose proof (shl_align_spec m e ez) as H.
  destruct (shl_align m e ez) as [m' e']. destruct H as [He' Hm'].
  cbn [fst scaled]. rewrite Hm'.
  replace e' with ez by lia.
  assert (E : Z.pos m * 2 ^ (e - ez) * 2 ^ (ez + 1074)
              = Z.pos m * 2 ^ (e + 1074)).
  { rewrite <- Z.mul_assoc, <- pow2_add by lia. do 2 f_equal. lia. }
  destruct s; cbn [cond_Zopp]; lia.
Qed.

Lemma approx_self (x : Number) :
  valid x = true -> is_finite x = true -> approx (scaled x) x.
Proof.
  destruct x as [s|s| |s m e]; try discriminate; intros Hv _.
  - reflexivity.
  - split; [exact Hv|]. rewrite Z.sub_diag. cbn [Z.abs]. lia.
Qed.

(** The sum of two finite doubles is the rounding of their exact sum. *)
Lemma add_approx (x y : Number) :
  valid x = true -> valid y = true ->
  is_finite x = true -> is_finite y = true ->
  approx (scaled x + scaled y) (x + y)%js.
Proof.
  intros Hvx Hvy Hfx Hfy.
  destruct x as [sx|sx| |sx mx ex], y as [sy|sy| |sy my ey];
    try discriminate.
  - destruct sx, sy; reflexivity.
  - apply (approx_self (S754_finite sy my ey)); assumption.
  - cbn [scaled]. rewrite Z.add_0_r.
    apply (approx_self (S754_finite sx mx ex)); assumption.
  - destruct (bounded_inv mx ex Hvx) as (Hex & _).
    destruct (bounded_inv my ey Hvy) as (Hey & _).
    unfold JSNumber.add, SFadd.
    set (ez := Z.min ex ey).
    rewrite <- (aligned_scaled sx mx ex ez) by lia.
    rewrite <- (aligned_scaled sy my ey ez) by lia.
    rewrite <- Z.mul_add_distr_r.
    apply binary_normalize_approx. lia.
Qed.

(** The difference of two finite doubles is the rounding of their exact
    difference. *)
Lemma sub_approx (x y : Number) :
  valid x = true -> valid y = true ->
  is_finite x = true -> is_finite y = true ->
  approx (scaled x - scaled y) (x - y)%js.
Proof.
  intros Hvx Hvy Hfx Hfy.
  destruct x as [sx|sx| |sx mx ex], y as [sy|sy| |sy my ey];
    try discriminate.
  - destruct sx, sy; reflexivity.
  - cbn [JSNumber.sub SFsub]. unfold JSNumber.sub, SFsub.
    split; [exact Hvy|].
    cbn [scaled]. destruct sy; cbn [negb cond_Zopp];
      match goal with |- _ * Z.abs ?t <= _ => replace t with 0 by lia end;
      cbn [Z.abs]; lia.
  - cbn [scaled]. rewrite Z.sub_0_r.
    apply (approx_self (S754_finite sx mx ex)); assumption.
  - destruct (bounded_inv mx ex Hvx) as (Hex & _).
    destruct (bounded_inv my ey Hvy) as (Hey & _).
    unfold JSNumber.sub, SFsub.
    set (ez := Z.min ex ey).
    rewrite <- (aligned_scaled sx mx ex ez) by lia.
    rewrite <- (aligned_scaled sy my ey ez) by lia.
    rewrite <- Z.mul_sub_distr_r.
    apply binary_normalize_approx. lia.
Qed.

Lemma unit_pos : 0 < oneUnit.
Proof. apply pow2_pos. lia. Qed.

Lemma round_err (Q q W V : Z) :
  Q = q \/ Q = q + 1 -> q * W <= V < (q + 1) * W ->
  Z.abs (Q * W - V) <= W.
Proof. intros [H | H] Hb; subst Q; lia. Qed.

(** ** Products *)

Lemma mul_exp_le (mx my : positive) (ex ey : Z) :
  bounded prec emax mx ex = true -> bounded prec emax my ey = true ->
  ex + ey
  <= SpecFloat.fexp prec emax (Z.pos (digits2_pos (mx * my)) + (ex + ey)).
Proof.
  intros Hx Hy. rewrite fexp_eq.
  destruct (bounded_inv mx ex Hx) as (Hex & _).
  destruct (bounded_inv my ey Hy) as (Hey & _).
  destruct (valid_mantissa_bounds mx ex Hx) as [_ Hnx].
  destruct (valid_mantissa_bounds my ey Hy) as [_ Hny].
  destruct (Z_le_gt_dec (ex + ey) (-1074)) as [Hs | Hs]; [lia|].
  assert (H52 : 2 ^ 52 <= Z.pos (mx * my)).
  { rewrite Pos2Z.inj_mul.
    destruct (Z_le_gt_dec ex (-1074)) as [Hxs | Hxs].
    - specialize (Hny ltac:(lia)). nia.
    - specialize (Hnx ltac:(lia)). nia. }
  assert (52 < Z.pos (digits2_pos (mx * my))) by (apply digits_gt; lia).
  lia.
Qed.

(** The product of two finite doubles, against their exact product
    [V] (in units of [2^-2148]): zero only when [V] is below one oneUnit of
    [2^-1074], an infinity only when [V] is beyond the finite doubles,
    and otherwise a well-formed double within [V / 2^52] plus one oneUnit
    of [2^-1074] from [V]. *)
Lemma mul_finite_spec (sx sy : bool) (mx my : positive) (ex ey : Z) :
  bounded prec emax mx ex = true -> bounded prec emax my ey = true ->
  let V := (Z.pos mx * 2 ^ (ex + 1074)) * (Z.pos my * 2 ^ (ey + 1074)) in
  match (S754_finite sx mx ex * S754_finite sy my ey)%js with
  | S754_nan => False
  | S754_zero s => s = xorb sx sy /\ V < oneUnit
  | S754_infinity s =>
      s = xorb sx sy /\ 2 ^ (1024 + 1074 + 52) * oneUnit <= V * (2 ^ 52 + 1)
  | S754_finite s m e =>
      s = xorb sx sy /\ bounded prec emax m e = true
      /\ 2 ^ 52 * Z.abs (Z.pos m * 2 ^ (e + 1074) * oneUnit - V)
         <= V + 2 ^ 52 * oneUnit
  end.
Proof.
  intros Hx Hy V. unfold JSNumber.mul, SFmul.
  pose proof (mul_exp_le mx my ex ey Hx Hy) as HeE.
  destruct (round_aux_spec (xorb sx sy) (mx * my) (ex + ey) HeE)
    as (Q & HQ & Hres).
  rewrite fexp_eq in HQ, Hres, HeE.
  destruct (bounded_inv mx ex Hx) as (Hex & _).
  destruct (bounded_inv my ey Hy) as (Hey & _).
  destruct (valid_mantissa_bounds mx ex Hx) as [Hmx _].
  destruct (valid_mantissa_bounds my ey Hy) as [Hmy _].
  pose proof (digits_bounds (mx * my)) as [Dl Du].
  set (d := Z.pos (digits2_pos (mx * my))) in *.
  set (e := ex + ey) in *.
  set (E := Z.max (d + e - 53) (-1074)) in *.
  set (n := E - e) in *.
  set (q := Z.pos (mx * my) / 2 ^ n) in *.
  set (W := 2 ^ (E + 2148)).
  assert (Hn : 0 <= n) by (unfold n; lia).
  assert (Hpn : 0 < 2 ^ n) by (apply pow2_pos; lia).
  assert (HW : 0 < W) by (apply pow2_pos; lia).
  assert (HVe : V = Z.pos (mx * my) * 2 ^ (e + 2148)).
  { unfold V, e. rewrite Pos2Z.inj_mul.
    replace (ex + ey + 2148) with ((ex + 1074) + (ey + 1074)) by lia.
    rewrite (pow2_add (ex + 1074) (ey + 1074)) by lia. ring. }
  assert (Hpe : 0 < 2 ^ (e + 2148)) by (apply pow2_pos; unfold e; lia).
  assert (HV : 0 < V) by (rewrite HVe; apply Z.mul_pos_pos; lia).
  assert (Hq : q * 2 ^ n <= Z.pos (mx * my) < (q + 1) * 2 ^ n).
  { unfold q.
    pose proof (Z.div_mod (Z.pos (mx * my)) (2 ^ n) ltac:(lia)) as Hdm.
    pose proof (Z.mod_pos_bound (Z.pos (mx * my)) (2 ^ n) Hpn). nia. }
  assert (HWn : W = 2 ^ n * 2 ^ (e + 2148)).
  { unfold W. rewrite <- pow2_add by (unfold e; lia). f_equal.
    unfold n. lia. }
  assert (HqW : q * W <= V < (q + 1) * W).
  { rewrite HWn, HVe. split.
    - rewrite Z.mul_assoc. apply Z.mul_le_mono_nonneg_r; lia.
    - rewrite Z.mul_assoc. apply Z.mul_lt_mono_pos_r; lia. }
  assert (Hq0 : 0 <= q) by (apply Z.div_pos; lia).
  assert (Hnorm : -1074 < E -> 2 ^ 52 * W <= V).
  { intros HEn. assert (HE : E = d + e - 53) by lia.
    unfold W. rewrite HVe, <- pow2_add by lia.
    replace (52 + (E + 2148)) with (d - 1 + (e + 2148)) by lia.
    rewrite pow2_add by (unfold e; lia).
    apply Z.mul_le_mono_nonneg_r; lia. }
  assert (Hsub : E = -1074 -> W = oneUnit).
  { intros HEs. unfold W, oneUnit. f_equal. lia. }
  assert (HQ' : Q = q \/ Q = q + 1) by (destruct HQ as [HQ | [_ HQ]]; auto).
  assert (Herr : Z.abs (Q * W - V) <= W) by (exact (round_err Q q W V HQ' HqW)).
  assert (HE1074 : -1074 <= E) by lia.
  assert (Hcases : E = -1074 \/ -1074 < E) by lia.
  pose proof unit_pos as HU.
  assert (HWb : 2 ^ 52 * W <= V + 2 ^ 52 * oneUnit).
  { destruct Hcases as [HEs | HEn].
    - rewrite (Hsub HEs). clear - HV. lia.
    - specialize (Hnorm HEn). clear - Hnorm HU. lia. }
  assert (HWu : W = 2 ^ (E + 1074) * oneUnit).
  { unfold W, oneUnit. rewrite <- pow2_add by lia. f_equal. lia. }
  assert (Hprod : Z.pos (mx * my) < 2 ^ 53 * 2 ^ 53).
  { rewrite Pos2Z.inj_mul. apply Z.mul_lt_mono_nonneg; lia. }
  assert (Hqm : q <= Z.pos (mx * my)).
  { unfold q. apply Z.div_le_upper_bound; [exact Hpn|].
    rewrite <- (Z.mul_1_l (Z.pos (mx * my))) at 1.
    apply Z.mul_le_mono_nonneg_r; lia. }
  assert (HpE : 0 < 2 ^ (E + 1074)) by (apply pow2_pos; lia).
  clearbody W V q n E e d.
  destruct (binary_round_aux prec emax (xorb sx sy) (Z.pos (mx * my)) e
              loc_Exact) as [s'|s'| |s' m' e'].
  - destruct Hres as [Hs HQz]. split; [exact Hs|].
    assert (HVW : V < W) by (clear - HQz HQ' Hq0 HqW; nia).
    destruct Hcases as [HEs | HEn].
    + rewrite <- (Hsub HEs). exact HVW.
    + specialize (Hnorm HEn). exfalso. clear - Hnorm HVW HW. lia.
  - destruct Hres as [Hs Ho]. split; [exact Hs|].
    assert (HEn : -1074 < E).
    { destruct Hcases as [HEs | HEn]; [|exact HEn]. exfalso.
      rewrite HEs in Ho. change (2 ^ (-1074 + 1074)) with 1 in Ho.
      assert (Hbig : 2 ^ 53 * 2 ^ 53 + 1 < 2 ^ (1024 + 1074))
        by (vm_compute; reflexivity).
      clear - Ho HQ' Hqm Hprod Hbig. lia. }
    specialize (Hnorm HEn).
    assert (Ho' : 2 ^ (1024 + 1074) * oneUnit <= Q * W).
    { rewrite HWu, Z.mul_assoc.
      apply Z.mul_le_mono_nonneg_r; [|exact Ho].
      apply Z.lt_le_incl. exact HU. }
    replace (1024 + 1074 + 52) with (52 + (1024 + 1074)) by reflexivity.
    rewrite pow2_add by lia.
    rewrite <- Z.mul_assoc.
    generalize dependent (2 ^ (1024 + 1074) * oneUnit). intros K HK.
    clear - HK Herr Hnorm. lia.
  - exact Hres.
  - destruct Hres as (Hs & HEe & Hm & Hb).
    split; [exact Hs | split; [exact Hb|]].
    rewrite (scaled_exact m' m' e' e' E Q (conj HE1074 HEe) Hm).
    replace (Q * 2 ^ (E + 1074) * oneUnit) with (Q * W)
      by (rewrite HWu; ring).
    clear - Herr HWb. lia.
Qed.

(** ** Comparison of well-formed doubles *)

Lemma compare_magnitudes (m1 m2 : positive) (e1 e2 : Z) :
  bounded prec emax m1 e1 = true -> bounded prec emax m2 e2 = true ->
  match e1 ?= e2 with
  | Lt => Lt
  | Gt => Gt
  | Eq => Pos.compare_cont Eq m1 m2
  end
  = (Z.pos m1 * 2 ^ (e1 + 1074) ?= Z.pos m2 * 2 ^ (e2 + 1074)).
Proof.
  intros H1 H2.
  destruct (bounded_inv m1 e1 H1) as (He1 & _).
  destruct (bounded_inv m2 e2 H2) as (He2 & _).
  destruct (valid_mantissa_bounds m1 e1 H1) as [Hu1 Hn1].
  destruct (valid_mantissa_bounds m2 e2 H2) as [Hu2 Hn2].
  assert (Hlt : forall ma mb ea eb,
             Z.pos ma < 2 ^ 53 -> 2 ^ 52 <= Z.pos mb ->
             -1074 <= ea < eb ->
             Z.pos ma * 2 ^ (ea + 1074) < Z.pos mb * 2 ^ (eb + 1074)).
  { intros ma mb ea eb Ha Hb Hab.
    assert (Hp : 0 < 2 ^ (ea + 1074)) by (apply pow2_pos; lia).
    assert (Hs : 2 * 2 ^ (ea + 1074) <= 2 ^ (eb + 1074)).
    { change 2 with (2 ^ 1) at 1. rewrite <- pow2_add by lia.
      apply pow2_le. lia. }
    nia. }
  destruct (e1 ?= e2) eqn:E.
  - apply Z.compare_eq in E. subst e2.
    change (Pos.compare_cont Eq m1 m2) with (Z.pos m1 ?= Z.pos m2).
    apply Zmult_compare_compat_r. apply Z.lt_gt, pow2_pos; lia.
  - rewrite Z.compare_lt_iff in E. symmetry. apply Z.compare_lt_iff.
    apply Hlt; [exact Hu1 | apply Hn2; lia | lia].
  - rewrite Z.compare_gt_iff in E. symmetry. apply Z.compare_gt_iff.
    apply Hlt; [exact Hu2 | apply Hn1; lia | lia].
Qed.

(** On well-formed finite doubles the comparison of the engine is the
    comparison of the exact values. *)
Lemma compare_scaled (x y : Number) :
  valid x = true -> valid y = true ->
  is_finite x = true -> is_finite y = true ->
  SFcompare x y = Some (scaled x ?= scaled y).
Proof.
  intros Hvx Hvy Hfx Hfy.
  destruct x as [sx|sx| |sx mx ex], y as [sy|sy| |sy my ey];
    try discriminate; cbn [SFcompare scaled].
  - reflexivity.
  - assert (0 < Z.pos my * 2 ^ (ey + 1074)).
    { destruct (bounded_inv my ey Hvy) as (He & _).
      apply Z.mul_pos_pos; [lia | apply pow2_pos; lia]. }
    destruct sy; cbn [cond_Zopp]; f_equal; symmetry.
    + apply Z.compare_gt_iff. lia.
    + apply Z.compare_lt_iff. lia.
  - assert (0 < Z.pos mx * 2 ^ (ex + 1074)).
    { destruct (bounded_inv mx ex Hvx) as (He & _).
      apply Z.mul_pos_pos; [lia | apply pow2_pos; lia]. }
    destruct sx; cbn [cond_Zopp]; f_equal; symmetry.
    + apply Z.compare_lt_iff. lia.
    + apply Z.compare_gt_iff. lia.
  - assert (Hx : 0 < Z.pos mx * 2 ^ (ex + 1074)).
    { destruct (bounded_inv mx ex Hvx) as (He & _).
      apply Z.mul_pos_pos; [lia | apply pow2_pos; lia]. }
    assert (Hy : 0 < Z.pos my * 2 ^ (ey + 1074)).
    { destruct (bounded_inv my ey Hvy) as (He & _).
      apply Z.mul_pos_pos; [lia | apply pow2_pos; lia]. }
    pose proof (compare_magnitudes mx my ex ey Hvx Hvy) as Hc.
    destruct sx, sy; cbn [cond_Zopp]; f_equal.
    + rewrite Z.compare_opp, (Z.compare_antisym _ (Z.pos my * _)), <- Hc.
      destruct (ex ?= ey); reflexivity.
    + symmetry. apply Z.compare_lt_iff. lia.
    + symmetry. apply Z.compare_gt_iff. lia.
    + exact Hc.
Qed.

Lemma gtb_scaled (x y : Number) :
  valid x = true -> valid y = true ->
  is_finite x = true -> is_finite y = true ->
  JSNumber.gtb x y = true <-> scaled y < scaled x.
Proof.
  intros Hvx Hvy Hfx Hfy. unfold JSNumber.gtb, SFltb.
  rewrite (compare_scaled y x Hvy Hvx Hfy Hfx).
  destruct (scaled y ?= scaled x) eqn:E.
  - apply Z.compare_eq in E. split; [discriminate | lia].
  - rewrite Z.compare_lt_iff in E. split; auto.
  - rewrite Z.compare_gt_iff in E. split; [discriminate | lia].
Qed.

Lemma leb_scaled (x y : Number) :
  valid x = true -> valid y = true ->
  is_finite x = true -> is_finite y = true ->
  JSNumber.leb x y = true <-> scaled x <= scaled y.
Proof.
  intros Hvx Hvy Hfx Hfy. unfold JSNumber.leb, SFleb.
  rewrite (compare_scaled x y Hvx Hvy Hfx Hfy).
  destruct (scaled x ?= scaled y) eqn:E.
  - apply Z.compare_eq in E. split; [lia | reflexivity].
  - rewrite Z.compare_lt_iff in E. split; [lia | reflexivity].
  - rewrite Z.compare_gt_iff in E. split; [discriminate | lia].
Qed.

(** ** Results are well-formed doubles *)

Lemma approx_valid (V : Z) (R : Number) : approx V R -> valid R = true.
Proof.
  intros H. destruct R; try reflexivity. exact (proj1 H).
Qed.

Lemma approx_not_nan (V : Z) (R : Number) : approx V R -> is_nan R = false.
Proof. intros H. destruct R; try reflexivity; contradiction. Qed.

Lemma valid_not_finite (x : Number) : is_finite x = false -> valid x = true.
Proof. destruct x; try discriminate; reflexivity. Qed.

Lemma add_valid (x y : Number) :
  valid x = true -> valid y = true -> valid (x + y)%js = true.
Proof.
  intros Hx Hy.
  destruct (is_finite x) eqn:Fx, (is_finite y) eqn:Fy.
  - exact (approx_valid _ _ (add_approx x y Hx Hy Fx Fy)).
  - destruct x as [sx|sx| |sx mx ex], y as [sy|sy| |sy my ey];
      try discriminate; reflexivity.
  - destruct x as [sx|sx| |sx mx ex], y as [sy|sy| |sy my ey];
      try discriminate; reflexivity.
  - destruct x as [sx|sx| |sx mx ex], y as [sy|sy| |sy my ey];
      try discriminate; try reflexivity; destruct sx, sy; reflexivity.
Qed.

Lemma sub_valid (x y : Number) :
  valid x = true -> valid y = true -> valid (x - y)%js = true.
Proof.
  intros Hx Hy.
  destruct (is_finite x) eqn:Fx, (is_finite y) eqn:Fy.
  - exact (approx_valid _ _ (sub_approx x y Hx Hy Fx Fy)).
  - destruct x as [sx|sx| |sx mx ex], y as [sy|sy| |sy my ey];
      try discriminate; reflexivity.
  - destruct x as [sx|sx| |sx mx ex], y as [sy|sy| |sy my ey];
      try discriminate; reflexivity.
  - destruct x as [sx|sx| |sx mx ex], y as [sy|sy| |sy my ey];
      try discriminate; try reflexivity; destruct sx, sy; reflexivity.
Qed.

Lemma mul_valid (x y : Number) :
  valid x = true -> valid y = true -> valid (x * y)%js = true.
Proof.
  intros Hx Hy.
  destruct x as [sx|sx| |sx mx ex], y as [sy|sy| |sy my ey];
    try reflexivity.
  pose proof (mul_finite_spec sx sy mx my ex ey Hx Hy) as H.
  cbv zeta in H.
  destruct (S754_finite sx mx ex * S754_finite sy my ey)%js;
    try reflexivity. exact (proj1 (proj2 H)).
Qed.

Lemma ofZ_approx (z : Z) : approx (z * oneUnit) (ofZ z).
Proof.
  unfold ofZ, oneUnit.
  exact (binary_normalize_approx z 0 ltac:(lia)).
Qed.

Lemma ofZ_valid (z : Z) : valid (ofZ z) = true.
Proof. exact (approx_valid _ _ (ofZ_approx z)). Qed.

(** ** Sums and differences of bounded magnitude *)

(** A sum whose exact value is below [2^1000] (in units of [2^-1074])
    does not overflow: it is a finite double within a relative
    [2^-52] of the exact sum. *)
Lemma approx_finite (V : Z) (R : Number) :
  approx V R -> Z.abs V <= 2 ^ 2000 ->
  valid R = true /\ is_finite R = true
  /\ 2 ^ 52 * Z.abs (scaled R - V) <= Z.abs V.
Proof.
  intros Ha Hb. split; [exact (approx_valid _ _ Ha)|].
  destruct R as [s|s| |s m e]; cbn [approx] in Ha.
  - subst V. cbn. split; [reflexivity | lia].
  - exfalso. destruct Ha as [_ Ho].
    assert (Z.abs V * (2 ^ 52 + 1) <= 2 ^ 2000 * (2 ^ 52 + 1))
      by (apply Z.mul_le_mono_nonneg_r; lia).
    assert (2 ^ 2000 * (2 ^ 52 + 1) < 2 ^ (1024 + 1074 + 52))
      by (vm_compute; reflexivity).
    lia.
  - contradiction.
  - split; [reflexivity | tauto].
Qed.

(* ================================================================== *)
(** * Cursor arithmetic *)
(* ================================================================== *)

(** Sums and differences of magnitude up to [2^52] are off by at most
    one (that is, [oneUnit]) from the exact result, which is all the layout
    needs: its steps are whole numbers of points. *)

Lemma unit_bound : 2 ^ 52 * oneUnit <= 2 ^ 2000.
Proof. vm_compute. discriminate. Qed.

Lemma approx_unit (V : Z) (R : Number) :
  approx V R -> Z.abs V <= 2 ^ 52 * oneUnit ->
  valid R = true /\ is_finite R = true /\ Z.abs (scaled R - V) <= oneUnit.
Proof.
  intros Ha Hb.
  assert (H2000 : Z.abs V <= 2 ^ 2000)
    by (eapply Z.le_trans; [exact Hb | exact unit_bound]).
  destruct (approx_finite V R Ha H2000) as (Hv & Hf & He).
  repeat split; try assumption.
  assert (H : 2 ^ 52 * Z.abs (scaled R - V) <= 2 ^ 52 * oneUnit)
    by (eapply Z.le_trans; [exact He | exact Hb]).
  apply Z.mul_le_mono_pos_l in H; [exact H | reflexivity].
Qed.

Lemma within_weaken (a b a' b' : Z) (x : Number) :
  a' <= a -> b <= b' -> within a b x -> within a' b' x.
Proof. intros Ha Hb (Hv & Hf & Hs). repeat split; try assumption; lia. Qed.

Lemma add_within (a b c d : Z) (x y : Number) :
  within a b x -> within c d y ->
  - (2 ^ 52 * oneUnit) <= a + c -> b + d <= 2 ^ 52 * oneUnit ->
  within (a + c - oneUnit) (b + d + oneUnit) (x + y)%js.
Proof.
  intros (Hvx & Hfx & Hx) (Hvy & Hfy & Hy) Hl Hu.
  destruct (approx_unit _ _ (add_approx x y Hvx Hvy Hfx Hfy) ltac:(lia))
    as (Hv & Hf & He).
  repeat split; try assumption; lia.
Qed.


Lemma within_self (x : Number) :
  valid x = true -> is_finite x = true -> within (scaled x) (scaled x) x.
Proof. intros Hv Hf. repeat split; try assumption; lia. Qed.

Lemma within_gtb (a b c d : Z) (x y : Number) :
  within a b x -> within c d y -> d < a -> JSNumber.gtb x y = true.
Proof.
  intros (Hvx & Hfx & Hx) (Hvy & Hfy & Hy) Hlt.
  apply gtb_scaled; try assumption. lia.
Qed.

(** ** Lower bounds that survive overflow *)

Lemma atLeast_weaken (a a' : Z) (x : Number) :
  a' <= a -> atLeast a x -> atLeast a' x.
Proof.
  intros Ha [Hv [Hi | [Hf Hs]]]; split; try assumption;
    [now left | right; split; [assumption | lia]].
Qed.

Lemma within_atLeast (a b : Z) (x : Number) : within a b x -> atLeast a x.
Proof.
  intros (Hv & Hf & Hs). split; [assumption|]. right. split; [assumption|lia].
Qed.

Lemma atLeast_not_nan (a : Z) (x : Number) : atLeast a x -> is_nan x = false.
Proof.
  intros [_ [Hi | [Hf _]]]; [subst x; reflexivity|].
  destruct x; try discriminate; reflexivity.
Qed.

Lemma atLeast_valid (a : Z) (x : Number) : atLeast a x -> valid x = true.
Proof. intros [Hv _]. exact Hv. Qed.

Lemma add_atLeast (a b : Z) (x y : Number) :
  atLeast a x -> atLeast b y ->
  0 <= a + b <= 2 ^ 52 * oneUnit ->
  atLeast (a + b - oneUnit) (x + y)%js.
Proof.
  intros [Hvx Hx] [Hvy Hy] Hab.
  split; [now apply add_valid|].
  destruct Hx as [Hx | [Hfx Hx]]; destruct Hy as [Hy | [Hfy Hy]].
  - subst x y. now left.
  - subst x. left. destruct y; try discriminate; reflexivity.
  - subst y. left. destruct x; try discriminate; reflexivity.
  - pose proof (add_approx x y Hvx Hvy Hfx Hfy) as Ha.
    pose proof unit_pos as HU.
    destruct (x + y)%js as [s|s| |s m e] eqn:ER; cbn [approx] in Ha.
    + right. split; [reflexivity|]. cbn [scaled]. lia.
    + left. destruct Ha as [Hs _]. destruct s; [lia | reflexivity].
    + contradiction.
    + right. split; [reflexivity|]. destruct Ha as [_ He].
      generalize dependent (scaled (S754_finite s m e)). intros sR He.
      generalize dependent (scaled x). intros sx Hx.
      generalize dependent (scaled y). intros sy Hy He.
      generalize dependent oneUnit. intros U Hab HU.
      clear - Hx Hy He Hab HU. lia.
Qed.

(** The sum is at or above a lower bound however large the summands,
    when the bound itself is moderate. *)
Lemma add_atLeast_min (a b c : Z) (x y : Number) :
  atLeast a x -> atLeast b y ->
  0 <= a -> 0 <= b -> c <= a + b - oneUnit -> a + b <= 2 ^ 52 * oneUnit ->
  atLeast c (x + y)%js.
Proof.
  intros Hx Hy Ha Hb Hc Hab.
  apply (atLeast_weaken (a + b - oneUnit)); [exact Hc|].
  apply add_atLeast; try assumption. lia.
Qed.

Lemma atLeast_gtb (a : Z) (x top : Number) :
  atLeast a x -> valid top = true -> is_finite top = true ->
  scaled top < a -> JSNumber.gtb x top = true.
Proof.
  intros [Hv [Hi | [Hf Hs]]] Hvt Hft Hlt.
  - subst x. destruct top; try discriminate; reflexivity.
  - apply gtb_scaled; try assumption. lia.
Qed.

(** ** Constants, counts, products and maxima *)

Lemma within_const (z : Z) :
  (valid (ofZ z) && is_finite (ofZ z)
   && (scaled (ofZ z) =? z * oneUnit))%bool = true ->
  within (z * oneUnit) (z * oneUnit) (ofZ z).
Proof.
  intros H. apply andb_true_iff in H as [H Hs].
  apply andb_true_iff in H as [Hv Hf]. apply Z.eqb_eq in Hs.
  rewrite <- Hs. now apply within_self.
Qed.

(** An array length is a well-formed double that is not negative. *)
Lemma ofNat_atLeast (n : nat) : atLeast 0 (ofNat n).
Proof.
  unfold ofNat. pose proof (ofZ_approx (Z.of_nat n)) as Ha.
  split; [apply ofZ_valid|].
  pose proof unit_pos as HU.
  assert (HV : 0 <= Z.of_nat n * oneUnit)
    by (apply Z.mul_nonneg_nonneg; lia).
  destruct (ofZ (Z.of_nat n)) as [s|s| |s m e]; cbn [approx] in Ha.
  - right. split; [reflexivity|]. cbn. lia.
  - left. destruct Ha as [Hs _]. destruct s; [lia | reflexivity].
  - contradiction.
  - right. split; [reflexivity|]. destruct Ha as [_ He].
    generalize dependent (scaled (S754_finite s m e)). intros sR He.
    generalize dependent (Z.of_nat n * oneUnit). intros V He HV.
    clear - He HV. lia.
Qed.

Lemma scaled_nonneg_sign (s : bool) (m : positive) (e : Z) :
  -1074 <= e -> 0 <= scaled (S754_finite s m e) -> s = false.
Proof.
  intros He H. destruct s; [|reflexivity]. exfalso.
  cbn [scaled cond_Zopp] in H.
  assert (0 < Z.pos m * 2 ^ (e + 1074))
    by (apply Z.mul_pos_pos; [lia | apply pow2_pos; lia]).
  lia.
Qed.

(** A count times a positive constant is a well-formed double that is
    not negative (possibly [+Infinity]), never NaN. *)
Lemma mul_atLeast_zero (x y : Number) :
  atLeast 0 x -> valid y = true ->
  (exists m e, y = S754_finite false m e) ->
  atLeast 0 (x * y)%js.
Proof.
  intros [Hvx Hx] Hvy (my & ey & Ey). subst y.
  split; [now apply mul_valid|].
  destruct Hx as [Hx | [Hfx Hx]].
  - subst x. now left.
  - destruct x as [sx|sx| |sx mx ex]; try discriminate.
    + right. split; [reflexivity|]. cbn. lia.
    + destruct (bounded_inv mx ex Hvx) as (Hex & _).
      pose proof (scaled_nonneg_sign sx mx ex ltac:(lia) Hx) as Hs.
      subst sx.
      pose proof (mul_finite_spec false false mx my ex ey Hvx Hvy) as H.
      cbv zeta in H.
      destruct (S754_finite false mx ex * S754_finite false my ey)%js
        as [s|s| |s m e].
      * right. split; [reflexivity|]. cbn. lia.
      * left. destruct H as [Hs _]. now subst s.
      * contradiction.
      * right. split; [reflexivity|]. destruct H as (Hs & Hb & _).
        subst s. cbn [xorb scaled cond_Zopp].
        destruct (bounded_inv m e Hb) as (He & _).
        apply Z.lt_le_incl, Z.mul_pos_pos; [lia | apply pow2_pos; lia].
Qed.

Lemma max_atLeast_l (c : Z) (a b : Number) :
  atLeast c a -> valid b = true -> is_nan b = false ->
  atLeast c (JSNumber.max a b).
Proof.
  intros [Hva Ha] Hvb Hnb.
  destruct Ha as [Ha | [Hfa Ha]].
  - subst a. destruct b as [sb|sb| |sb mb eb]; try discriminate;
      try (destruct sb); split; try reflexivity; now left.
  - destruct a as [sa|sa| |sa ma ea]; try discriminate;
      destruct b as [sb|sb| |sb mb eb]; try discriminate.
    + split; [reflexivity|]. right. split; [reflexivity|]. exact Ha.
    + destruct sb; cbn; split; try reflexivity;
        [right; split; [reflexivity | exact Ha] | now left].
    + cbn [JSNumber.max].
      destruct (SFltb (S754_zero sa) (S754_finite sb mb eb)) eqn:E.
      * split; [exact Hvb|]. right. split; [reflexivity|].
        apply (gtb_scaled (S754_finite sb mb eb) (S754_zero sa)) in E;
          try assumption; try reflexivity. lia.
      * split; [reflexivity|]. right. split; [reflexivity | exact Ha].
    + cbn [JSNumber.max].
      destruct (SFltb (S754_finite sa ma ea) (S754_zero sb)) eqn:E.
      * split; [reflexivity|]. right. split; [reflexivity|].
        apply (gtb_scaled (S754_zero sb) (S754_finite sa ma ea)) in E;
          try assumption; try reflexivity. lia.
      * split; [exact Hva|]. right. split; [reflexivity | exact Ha].
    + destruct sb; cbn; split; try reflexivity; try exact Hva;
        [right; split; [reflexivity | exact Ha] | now left].
    + cbn [JSNumber.max].
      destruct (SFltb (S754_finite sa ma ea) (S754_finite sb mb eb)) eqn:E.
      * split; [exact Hvb|]. right. split; [reflexivity|].
        apply (gtb_scaled (S754_finite sb mb eb) (S754_finite sa ma ea))
          in E; try assumption; try reflexivity. lia.
      * split; [exact Hva|]. right. split; [reflexivity | exact Ha].
Qed.

Lemma max_comm_atLeast (c : Z) (a b : Number) :
  atLeast c b -> valid a = true -> is_nan a = false ->
  atLeast c (JSNumber.max a b).
Proof.
  intros [Hvb Hb] Hva Hna.
  destruct Hb as [Hb | [Hfb Hb]].
  - subst b. destruct a as [sa|sa| |sa ma ea]; try discriminate;
      try (destruct sa); split; try reflexivity; now left.
  - destruct b as [sb|sb| |sb mb eb]; try discriminate;
      destruct a as [sa|sa| |sa ma ea]; try discriminate.
    + split; [reflexivity|]. right. split; [reflexivity|]. exact Hb.
    + destruct sa; cbn; split; try reflexivity;
        [right; split; [reflexivity | exact Hb] | now left].
    + cbn [JSNumber.max].
      destruct (SFltb (S754_finite sa ma ea) (S754_zero sb)) eqn:E.
      * split; [reflexivity|]. right. split; [reflexivity | exact Hb].
      * split; [exact Hva|]. right. split; [reflexivity|].
        destruct (Z_lt_le_dec (scaled (S754_finite sa ma ea))
                              (scaled (S754_zero sb))) as [Hlt | Hge];
          [|lia].
        apply (gtb_scaled (S754_zero sb) (S754_finite sa ma ea)) in Hlt;
          try assumption; try reflexivity.
        unfold JSNumber.gtb in Hlt. congruence.
    + cbn [JSNumber.max].
      destruct (SFltb (S754_zero sa) (S754_finite sb mb eb)) eqn:E.
      * split; [exact Hvb|]. right. split; [reflexivity | exact Hb].
      * split; [reflexivity|]. right. split; [reflexivity|].
        destruct (Z_lt_le_dec (scaled (S754_zero sa))
                              (scaled (S754_finite sb mb eb))) as [Hlt | Hge];
          [|lia].
        apply (gtb_scaled (S754_finite sb mb eb) (S754_zero sa)) in Hlt;
          try assumption; try reflexivity.
        unfold JSNumber.gtb in Hlt. congruence.
    + destruct sa; cbn; split; try reflexivity; try exact Hvb;
        [right; split; [reflexivity | exact Hb] | now left].
    + cbn [JSNumber.max].
      destruct (SFltb (S754_finite sa ma ea) (S754_finite sb mb eb)) eqn:E.
      * split; [exact Hvb|]. right. split; [reflexivity | exact Hb].
      * split; [exact Hva|]. right. split; [reflexivity|].
        destruct (Z_lt_le_dec (scaled (S754_finite sa ma ea))
                              (scaled (S754_finite sb mb eb)))
          as [Hlt | Hge]; [|lia].
        apply (gtb_scaled (S754_finite sb mb eb) (S754_finite sa ma ea))
          in Hlt; try assumption; try reflexivity.
        unfold JSNumber.gtb in Hlt. congruence.
Qed.

(** A finite number plus a number is not NaN. *)
Lemma add_finite_not_nan (x y : Number) :
  valid x = true -> valid y = true ->
  is_finite x = true -> is_nan y = false ->
  is_nan (x + y)%js = false /\ is_nan (y + x)%js = false.
Proof.
  intros Hvx Hvy Hfx Hny.
  destruct (is_finite y) eqn:Hfy.
  - split; eapply approx_not_nan; apply add_approx; assumption.
  - destruct y as [s|s| |s m e]; try discriminate.
    destruct x as [sx|sx| |sx mx ex]; try discriminate; split; reflexivity.
Qed.

(* ================================================================== *)
(** * Drawing computations *)
(* ================================================================== *)

Lemma runs_ret {A} (a : A) : runs (ret a) a [].
Proof. intros page. unfold ret. now rewrite app_nil_r. Qed.

Lemma runs_emit (op : PageOp) : runs (emit op) tt [op].
Proof. intros page. reflexivity. Qed.

Lemma runs_bind {A B} (m : Draw A) (k : A -> Draw B) (a : A) (b : B)
    (ops1 ops2 : list PageOp) :
  runs m a ops1 -> runs (k a) b ops2 -> runs (bind m k) b (ops1 ++ ops2).
Proof.
  intros Hm Hk page. unfold bind. rewrite Hm, Hk. now rewrite app_assoc.
Qed.

Lemma runs_forEachFrom {A} (body : A -> nat -> Draw unit)
    (f : A -> nat -> list PageOp) (xs : list A) (idx : nat) :
  (forall x i, runs (body x i) tt (f x i)) ->
  runs (forEachFrom body xs idx) tt (eachOps f xs idx).
Proof.
  intros Hb. revert idx. induction xs as [|x xs IH]; intros idx.
  - apply runs_ret.
  - cbn [forEachFrom eachOps].
    exact (runs_bind _ _ tt tt _ _ (Hb x idx) (IH (S idx))).
Qed.

Lemma runs_forEach {A} (xs : list A) (body : A -> nat -> Draw unit)
    (f : A -> nat -> list PageOp) :
  (forall x i, runs (body x i) tt (f x i)) ->
  runs (forEach xs body) tt (eachOps f xs 0).
Proof. intros Hb. now apply runs_forEachFrom. Qed.

Lemma runs_forEachVar {A S} (xs : list A) (body : S -> A -> Draw S)
    (f : S -> A -> list PageOp) (g : S -> A -> S) (s : S) :
  (forall s x, runs (body s x) (g s x) (f s x)) ->
  runs (forEachVar xs body s) (fold_left g xs s) (varOps f g xs s).
Proof.
  intros Hb. revert s. induction xs as [|x xs IH]; intros s.
  - apply runs_ret.
  - cbn [forEachVar varOps fold_left].
    exact (runs_bind _ _ _ _ _ _ (Hb s x) (IH (g s x))).
Qed.

Lemma runs_member {A B} (o : A) (field : A -> B) :
  runs (member (Some o) field) (field o) [].
Proof. apply runs_ret. Qed.

Lemma throws_bind {A B} (m : Draw A) (k : A -> Draw B) (e : Exn) :
  throws m e -> throws (bind m k) e.
Proof. intros Hm page. unfold bind. now rewrite Hm. Qed.

Lemma throws_after {A B} (m : Draw A) (k : A -> Draw B) (a : A)
    (ops : list PageOp) (e : Exn) :
  runs m a ops -> throws (k a) e -> throws (bind m k) e.
Proof. intros Hm Hk page. unfold bind. now rewrite Hm, Hk. Qed.

Lemma runs_not_throws {A} (m : Draw A) (a : A) (ops : list PageOp)
    (e : Exn) :
  runs m a ops -> ~ throws m e.
Proof. intros Hr Ht. specialize (Hr []). specialize (Ht []). congruence. Qed.

Lemma runs_unique {A} (m : Draw A) (a a' : A) (ops ops' : list PageOp) :
  runs m a ops -> runs m a' ops' -> a = a' /\ ops = ops'.
Proof.
  intros H H'. specialize (H []). specialize (H' []).
  rewrite H in H'. now inversion H'.
Qed.

(** ** Counting primitives *)

Lemma count_app (kind : PageOp -> bool) (l1 l2 : list PageOp) :
  count kind (l1 ++ l2) = (count kind l1 + count kind l2)%nat.
Proof. unfold count. now rewrite filter_app, length_app. Qed.

Lemma count_eachOps {A} (kind : PageOp -> bool)
    (f : A -> nat -> list PageOp) (c : nat) (xs : list A) (idx : nat) :
  (forall x i, count kind (f x i) = c) ->
  count kind (eachOps f xs idx) = (c * List.length xs)%nat.
Proof.
  intros Hf. revert idx. induction xs as [|x xs IH]; intros idx.
  - cbn. lia.
  - cbn [eachOps List.length]. rewrite count_app, Hf, IH. lia.
Qed.

Lemma count_varOps {A S} (kind : PageOp -> bool)
    (f : S -> A -> list PageOp) (g : S -> A -> S) (c : nat) (xs : list A)
    (s : S) :
  (forall s x, count kind (f s x) = c) ->
  count kind (varOps f g xs s) = (c * List.length xs)%nat.
Proof.
  intros Hf. revert s. induction xs as [|x xs IH]; intros s.
  - cbn. lia.
  - cbn [varOps List.length]. rewrite count_app, Hf, IH. lia.
Qed.

(** ** Cursors in range *)

Lemma scaled_pow50 : scaled (ofZ (2 ^ 50)) = 2 ^ 50 * oneUnit.
Proof. vm_compute. reflexivity. Qed.

Lemma leb_finite_r (x y : Number) :
  JSNumber.leb x y = true -> is_finite y = true -> is_finite x = true
  \/ x = S754_infinity true.
Proof.
  unfold JSNumber.leb, SFleb.
  destruct x as [s|s| |s m e]; cbn; auto; try discriminate.
  destruct s; auto. destruct y; cbn; try discriminate.
Qed.

Lemma cursorInRange_within (top : Number) :
  cursorInRange top -> within 0 (2 ^ 50 * oneUnit) top.
Proof.
  intros (Hv & H0 & H50).
  assert (Hf : is_finite top = true).
  { destruct top as [s|s| |s m e]; try reflexivity.
    - destruct s; discriminate.
    - discriminate. }
  split; [exact Hv | split; [exact Hf|]].
  apply leb_scaled in H0; [|reflexivity | assumption | reflexivity | assumption].
  apply leb_scaled in H50;
    [|assumption | apply ofZ_valid | assumption | reflexivity].
  rewrite scaled_pow50 in H50. change (scaled #0) with 0 in H0. lia.
Qed.

(** ** The texts drawn *)




Lemma count_text_length (ops : list PageOp) :
  count isText ops = List.length (textsOf ops).
Proof.
  unfold count, textsOf. induction ops as [|op ops IH]; [reflexivity|].
  cbn [filter flat_map]. rewrite length_app.
  destruct op; cbn [isText List.length]; lia.
Qed.

(** ** The horizontal lines drawn *)




Lemma fold_left_invariant {A S} (P : S -> Prop) (g : S -> A -> S)
    (xs : list A) (s : S) :
  P s -> (forall s x, P s -> P (g s x)) -> P (fold_left g xs s).
Proof.
  intros Hs Hg. revert s Hs. induction xs as [|x xs IH]; intros s Hs.
  - exact Hs.
  - cbn [fold_left]. apply IH, Hg, Hs.
Qed.

(* ================================================================== *)
(** * The composers *)
(* ================================================================== *)

(** Derives what a straight-line drawing computation returns and
    draws. *)
Ltac run_draw :=
  cbn [Nat.ltb Nat.leb seq List.length Nat.sub];
  lazymatch goal with
  | |- runs (bind _ _) _ _ =>
      eapply runs_bind; [run_draw | cbv beta iota; run_draw]
  | |- runs (emit _) _ _ => apply runs_emit
  | |- runs (ret _) _ _ => apply runs_ret
  | |- runs (forEach (_ :: _) _) _ _ =>
      unfold forEach; cbn [forEachFrom]; run_draw
  | |- runs (forEach _ _) _ _ =>
      eapply runs_forEach; intros; cbv beta; run_draw
  | |- runs (forEachVar _ _ _) _ _ =>
      eapply runs_forEachVar; intros; cbv beta; run_draw
  | _ => idtac
  end.

Ltac count_ops :=
  rewrite ?count_app;
  repeat first
    [ rewrite (count_eachOps _ _ 0%nat) by (intros; count_ops)
    | rewrite (count_eachOps _ _ 1%nat) by (intros; count_ops)
    | rewrite (count_eachOps _ _ 2%nat) by (intros; count_ops)
    | rewrite (count_varOps _ _ _ 0%nat) by (intros; count_ops)
    | rewrite (count_varOps _ _ _ 1%nat) by (intros; count_ops) ];
  cbn [count filter app List.length isRectangle isLine isText isImage
       textsOf flat_map];
  first [reflexivity | lia].

Lemma drawPartyBox_runs (label : jsstring) (party : Party.t)
    (x y width height : Number) (fonts : Fonts) (drawBorder : bool) :
  exists ops,
    runs (drawPartyBox label party x y width height fonts drawBorder) tt ops
    /\ count isRectangle ops = (if drawBorder then 1 else 0)%nat
    /\ count isLine ops = 0%nat
    /\ count isText ops = 3%nat.
Proof.
  unfold drawPartyBox. destruct drawBorder; cbv beta iota zeta;
    eexists; (split; [run_draw | repeat split; count_ops]).
Qed.

Lemma const_pos (z : Z) :
  (match ofZ z with S754_finite false _ _ => true | _ => false end) = true ->
  exists m e, ofZ z = S754_finite false m e.
Proof. destruct (ofZ z) as [| | |[] m e]; try discriminate; eauto. Qed.

(** A cursor in range, with its exact value. *)
Lemma cursor_facts (top : Number) :
  cursorInRange top ->
  within (scaled top) (scaled top) top
  /\ 0 <= scaled top <= 2 ^ 50 * oneUnit.
Proof.
  intros H. destruct (cursorInRange_within top H) as (Hv & Hf & Hs).
  split; [now apply within_self | exact Hs].
Qed.

(** Adding a constant step [z] to a cursor known within bounds. *)
Lemma step_within (a b z : Z) (x : Number) :
  within a b x ->
  (valid (ofZ z) && is_finite (ofZ z)
   && (scaled (ofZ z) =? z * oneUnit))%bool = true ->
  - (2 ^ 52 * oneUnit) <= a + z * oneUnit ->
  b + z * oneUnit <= 2 ^ 52 * oneUnit ->
  within (a + z * oneUnit - oneUnit) (b + z * oneUnit + oneUnit)
         (x + ofZ z)%js.
Proof.
  intros Hx Hz Hl Hu. apply add_within; try assumption.
  now apply within_const.
Qed.

Ltac const_check := vm_compute; reflexivity.

Lemma closed_within (x : Number) (z : Z) :
  (valid x && is_finite x && (scaled x =? z * oneUnit))%bool = true ->
  within (z * oneUnit) (z * oneUnit) x.
Proof.
  intros H. apply andb_prop in H. destruct H as [H Hs].
  apply andb_prop in H. destruct H as [Hv Hf].
  apply Z.eqb_eq in Hs. repeat split; try assumption; lia.
Qed.




(** ** Party blocks *)


Lemma exampleTop_inRange : cursorInRange exampleTop.
Proof. repeat split; vm_compute; reflexivity. Qed.


(** ** Invoice metadata table *)



(** ** Amount in words *)

(** The ingredients of a cursor's advance: a constant, a line count
    times a line height, and the larger of the two. *)
Lemma lines_atLeast (n : nat) (z : Z) :
  (match ofZ z with S754_finite false _ _ => true | _ => false end) = true ->
  atLeast 0 (ofNat n * ofZ z)%js.
Proof.
  intros Hz. apply mul_atLeast_zero;
    [apply ofNat_atLeast | apply ofZ_valid | now apply const_pos].
Qed.

Lemma max_const_atLeast (z : Z) (y : Number) :
  (valid (ofZ z) && is_finite (ofZ z)
   && (scaled (ofZ z) =? z * oneUnit))%bool = true ->
  atLeast 0 y ->
  atLeast (z * oneUnit) (JSNumber.max (ofZ z) y).
Proof.
  intros Hz Hy. apply max_atLeast_l.
  - apply within_atLeast with (b := z * oneUnit). now apply within_const.
  - exact (atLeast_valid _ _ Hy).
  - exact (atLeast_not_nan _ _ Hy).
Qed.



(** ** Tax breakup *)

(** Derives that a drawing computation throws at its first access to a
    member of a missing object. *)
Ltac throw_draw :=
  lazymatch goal with
  | |- throws (bind (member None _) _) _ =>
      apply throws_bind; intros page; reflexivity
  | |- throws (bind _ _) _ =>
      eapply throws_after; [run_draw | cbv beta iota; throw_draw]
  end.

Lemma drawTaxBreakup_throws (numberToString : Number -> jsstring)
    (invoice : Invoice.t) (totals : Totals.t) (startY : Number)
    (fonts : Fonts) :
  Invoice.taxRates invoice = None ->
  throws (drawTaxBreakup numberToString invoice totals startY fonts)
         TypeError.
Proof.
  intros Hnone.
  unfold drawTaxBreakup. rewrite Hnone. cbv beta iota zeta.
  throw_draw.
Qed.

(** X4.  On an invoice without [taxRates], [drawTaxBreakup] throws a
    TypeError, whatever the totals, the cursor and the fonts: it reads
    [invoice.taxRates.cgst] without the guard [computeTotals] has. *)
Theorem drawTaxBreakup_missing_taxRates :
  forall (numberToString : Number -> jsstring) (invoice : Invoice.t)
         (totals : Totals.t) (startY : Number) (fonts : Fonts),
    Invoice.taxRates invoice = None ->
    throws (drawTaxBreakup numberToString invoice totals startY fonts)
           TypeError.
Proof.
  intros numberToString invoice totals startY fonts.
  apply drawTaxBreakup_throws.
Qed.

Lemma drawTaxBreakup_missing_taxRates_witness :
  throws (drawTaxBreakup integerToString invoiceWithoutTaxRates
            (computeTotals invoiceWithoutTaxRates) exampleTop exampleFonts)
         TypeError.
Proof.
  apply (drawTaxBreakup_missing_taxRates integerToString
           invoiceWithoutTaxRates). reflexivity.
Defined.




(** ** Items table *)

(** Adding a term of at least [b] to a cursor of at least [a]. *)
Lemma step_atLeast (a b c : Z) (x y : Number) :
  atLeast a x -> atLeast b y ->
  0 <= a -> 0 <= b -> a + b <= 2 ^ 52 * oneUnit -> c = a + b - oneUnit ->
  atLeast c (x + y)%js.
Proof.
  intros Hx Hy Ha Hb Hab ->. apply add_atLeast; try assumption. lia.
Qed.

Lemma const_atLeast (x : Number) (z : Z) :
  (valid x && is_finite x && (scaled x =? z * oneUnit))%bool = true ->
  atLeast (z * oneUnit) x.
Proof.
  intros H. apply within_atLeast with (b := z * oneUnit).
  now apply closed_within.
Qed.



(** ** Remarks, declaration and bank details *)




(** ** Company header *)

(** A step forward keeps a cursor at or below a fixed height. *)
Lemma step_keeps_atLeast (a : Z) (z : Z) (x : Number) :
  (valid (ofZ z) && is_finite (ofZ z)
   && (scaled (ofZ z) =? z * oneUnit))%bool = true ->
  1 <= z -> 0 <= a -> a + z * oneUnit <= 2 ^ 52 * oneUnit ->
  atLeast a x -> atLeast a (x + ofZ z)%js.
Proof.
  intros Hz Hz1 Ha Hb Hx. pose proof unit_pos as HU.
  apply atLeast_weaken with (a := a + z * oneUnit - oneUnit); [nia|].
  apply add_atLeast; [exact Hx | now apply const_atLeast | nia].
Qed.


Lemma exampleLogo_usable : usableLogo (Some exampleLogo).
Proof. split; vm_compute; reflexivity. Qed.


(** ** The whole page *)

(** Each composer runs whatever cursor it is given; the rectangles and
    images it draws. *)
Ltac runs_counts :=
  cbv beta iota zeta; eexists; eexists;
  (split; [run_draw | split; count_ops]).

Lemma drawCompanyHeader_runs (company : Company.t) (top : Number)
    (fonts : Fonts) (logo : option Image.t) :
  exists ops bottom,
    runs (drawCompanyHeader company top fonts logo) bottom ops
    /\ count isRectangle ops = 0%nat
    /\ count isImage ops
       = match logo with Some _ => 1%nat | None => 0%nat end.
Proof. unfold drawCompanyHeader. destruct logo; runs_counts. Qed.

Lemma drawInvoiceMetaTable_runs (invoice : Invoice.t) (top : Number)
    (fonts : Fonts) :
  exists ops bottom,
    runs (drawInvoiceMetaTable invoice top fonts) bottom ops
    /\ count isRectangle ops = 1%nat /\ count isImage ops = 0%nat.
Proof. unfold drawInvoiceMetaTable. runs_counts. Qed.

Lemma drawPartyBlocks_runs (invoice : Invoice.t) (top : Number)
    (fonts : Fonts) :
  exists ops bottom,
    runs (drawPartyBlocks invoice top fonts) bottom ops
    /\ count isRectangle ops = 1%nat /\ count isImage ops = 0%nat.
Proof.
  unfold drawPartyBlocks, drawPartyBox, drawTermsBox. runs_counts.
Qed.

Lemma drawItemsSection_runs (numberToString : Number -> jsstring)
    (invoice : Invoice.t) (totals : Totals.t) (startY : Number)
    (fonts : Fonts) :
  exists ops bottom,
    runs (drawItemsSection numberToString invoice totals startY fonts)
         bottom ops
    /\ count isRectangle ops = 1%nat /\ count isImage ops = 0%nat.
Proof. unfold drawItemsSection. runs_counts. Qed.

Lemma drawAmountSummaries_runs (invoice : Invoice.t) (startY : Number)
    (fonts : Fonts) :
  exists ops bottom,
    runs (drawAmountSummaries invoice startY fonts) bottom ops
    /\ count isRectangle ops = 0%nat /\ count isImage ops = 0%nat.
Proof. unfold drawAmountSummaries. runs_counts. Qed.

Lemma drawTaxBreakup_runs (numberToString : Number -> jsstring)
    (invoice : Invoice.t) (rates : TaxRates.t) (totals : Totals.t)
    (startY : Number) (fonts : Fonts) :
  Invoice.taxRates invoice = Some rates ->
  exists ops bottom,
    runs (drawTaxBreakup numberToString invoice totals startY fonts)
         bottom ops
    /\ count isRectangle ops = 1%nat /\ count isImage ops = 0%nat.
Proof.
  intros Hrates. unfold drawTaxBreakup. rewrite Hrates. unfold member.
  runs_counts.
Qed.

Lemma drawBankAndRemarks_runs (invoice : Invoice.t) (bank : Bank.t)
    (startY : Number) (fonts : Fonts) :
  exists ops bottom,
    runs (drawBankAndRemarks invoice bank startY fonts) bottom ops
    /\ count isRectangle ops = 0%nat /\ count isImage ops = 0%nat.
Proof. unfold drawBankAndRemarks. runs_counts. Qed.

Lemma drawStampAndFooter_runs (contentBottom : Number) (fonts : Fonts)
    (stamp : option Image.t) :
  exists ops,
    runs (drawStampAndFooter contentBottom fonts stamp) tt ops
    /\ count isRectangle ops = 1%nat
    /\ count isImage ops
       = match stamp with Some _ => 1%nat | None => 0%nat end
    /\ In (DrawRectangle (A4_WIDTH - MARGIN - #160 - #8)%js
             (MARGIN + #18)%js #160 #95 black BORDER_WIDTH) ops.
Proof.
  unfold drawStampAndFooter. destruct stamp; cbv beta iota zeta;
    eexists; (split; [run_draw | split; [count_ops | split; [count_ops|]]]);
    left; reflexivity.
Qed.

Lemma drawOuterBorder_runs :
  exists ops,
    runs drawOuterBorder tt ops
    /\ count isRectangle ops = 1%nat /\ count isImage ops = 0%nat.
Proof.
  unfold drawOuterBorder. eexists. split; [run_draw | split; count_ops].
Qed.

Lemma drawTitle_runs (fonts : Fonts) :
  exists ops,
    runs (drawTitle fonts) tt ops
    /\ count isRectangle ops = 0%nat /\ count isImage ops = 0%nat.
Proof.
  unfold drawTitle. cbv beta iota zeta.
  eexists. split; [run_draw | split; count_ops].
Qed.

(** X9.  [generateInvoicePDF] throws a TypeError on every invoice
    without [taxRates], whatever the fonts and the images, although
    [computeTotals] accepts such an invoice: the sections before the tax
    breakup never throw, and the tax breakup does. *)
Theorem generateInvoicePDF_missing_taxRates :
  forall (numberToString : Number -> jsstring) (data : InvoiceData.t)
         (fonts : Fonts) (images : Images),
    Invoice.taxRates (InvoiceData.invoice data) = None ->
    throws (generateInvoicePDF numberToString data fonts images) TypeError.
Proof.
  intros numberToString data fonts images Hnone.
  unfold generateInvoicePDF. cbv zeta.
  set (totals := computeTotals _).
  destruct drawOuterBorder_runs as (o0 & R0 & _).
  destruct (drawTitle_runs fonts) as (oT & RT & _).
  destruct (drawCompanyHeader_runs (InvoiceData.company data)
              (MARGIN + #8)%js fonts (logo images))
    as (o1 & b1 & R1 & _).
  destruct (drawInvoiceMetaTable_runs (InvoiceData.invoice data)
              (MARGIN + #8)%js fonts) as (o2 & b2 & R2 & _).
  destruct (drawPartyBlocks_runs (InvoiceData.invoice data)
              (JSNumber.max b1 b2 + #10)%js fonts) as (o3 & b3 & R3 & _).
  destruct (drawItemsSection_runs numberToString
              (InvoiceData.invoice data) totals (b3 + #6)%js fonts)
    as (o4 & b4 & R4 & _).
  destruct (drawAmountSummaries_runs (InvoiceData.invoice data)
              (b4 + #6)%js fonts) as (o5 & b5 & R5 & _).
  repeat (eapply throws_after; [eassumption | cbv beta]).
  apply throws_bind. now apply drawTaxBreakup_throws.
Qed.

Lemma generateInvoicePDF_missing_taxRates_witness :
  throws (generateInvoicePDF integerToString
            (InvoiceData.mk (InvoiceData.company createInvoiceData)
               invoiceWithoutTaxRates (InvoiceData.bank createInvoiceData))
            exampleFonts (mkImages None None))
         TypeError.
Proof.
  apply generateInvoicePDF_missing_taxRates. reflexivity.
Defined.

(** X10.  On data of the data model (every field present with its
    type; only an item's [hsn], the two rates and the round-off may be
    missing) whose invoice has tax rates, [generateInvoicePDF] does not
    throw.  The page gets exactly six rectangles (outer border, metadata
    table, party blocks, items table, tax breakup and signature box) and
    exactly the images that were supplied.  The signature box is always
    the same rectangle: its place does not depend on where the content
    above it ended. *)
Theorem generateInvoicePDF_page :
  forall (numberToString : Number -> jsstring) (data : InvoiceData.t)
         (rates : TaxRates.t) (fonts : Fonts) (images : Images),
    Invoice.taxRates (InvoiceData.invoice data) = Some rates ->
    exists ops,
      runs (generateInvoicePDF numberToString data fonts images) tt ops
      /\ count isRectangle ops = 6%nat
      /\ count isImage ops
         = ((match logo images with Some _ => 1 | None => 0 end)
            + (match stamp images with Some _ => 1 | None => 0 end))%nat
      /\ In (DrawRectangle (A4_WIDTH - MARGIN - #160 - #8)%js
               (MARGIN + #18)%js #160 #95 black BORDER_WIDTH) ops.
Proof.
  intros numberToString data rates fonts images Hrates.
  unfold generateInvoicePDF. cbv zeta.
  set (totals := computeTotals _).
  destruct drawOuterBorder_runs as (o0 & R0 & Cr0 & Ci0).
  destruct (drawTitle_runs fonts) as (oT & RT & CrT & CiT).
  destruct (drawCompanyHeader_runs (InvoiceData.company data)
              (MARGIN + #8)%js fonts (logo images))
    as (o1 & b1 & R1 & Cr1 & Ci1).
  destruct (drawInvoiceMetaTable_runs (InvoiceData.invoice data)
              (MARGIN + #8)%js fonts) as (o2 & b2 & R2 & Cr2 & Ci2).
  destruct (drawPartyBlocks_runs (InvoiceData.invoice data)
              (JSNumber.max b1 b2 + #10)%js fonts)
    as (o3 & b3 & R3 & Cr3 & Ci3).
  destruct (drawItemsSection_runs numberToString
              (InvoiceData.invoice data) totals (b3 + #6)%js fonts)
    as (o4 & b4 & R4 & Cr4 & Ci4).
  destruct (drawAmountSummaries_runs (InvoiceData.invoice data)
              (b4 + #6)%js fonts) as (o5 & b5 & R5 & Cr5 & Ci5).
  destruct (drawTaxBreakup_runs numberToString (InvoiceData.invoice data)
              rates totals (b5 + #8)%js fonts Hrates)
    as (o6 & b6 & R6 & Cr6 & Ci6).
  destruct (drawBankAndRemarks_runs (InvoiceData.invoice data)
              (InvoiceData.bank data) (b6 + #10)%js fonts)
    as (o7 & b7 & R7 & Cr7 & Ci7).
  destruct (drawStampAndFooter_runs b7 fonts (stamp images))
    as (o8 & R8 & Cr8 & Ci8 & Hbox).
  eexists. split.
  { repeat (eapply runs_bind; [eassumption | cbv beta]). eassumption. }
  rewrite !count_app.
  rewrite Cr0, CrT, Cr1, Cr2, Cr3, Cr4, Cr5, Cr6, Cr7, Cr8.
  rewrite Ci0, CiT, Ci1, Ci2, Ci3, Ci4, Ci5, Ci6, Ci7, Ci8.
  split; [reflexivity|]. split; [lia|].
  repeat (apply in_or_app; right). exact Hbox.
Qed.

Lemma generateInvoicePDF_page_witness :
  exists ops,
    runs (generateInvoicePDF integerToString createInvoiceData
            exampleFonts (mkImages (Some exampleLogo) None)) tt ops
    /\ count isRectangle ops = 6%nat
    /\ count isImage ops = 1%nat.
Proof.
  destruct (generateInvoicePDF_page integerToString createInvoiceData
              (TaxRates.mk (Some (dec 9 2)) (Some (dec 9 2)))
              exampleFonts (mkImages (Some exampleLogo) None) eq_refl)
    as (ops & Hruns & Hrect & Himage & _).
  exists ops. repeat split; assumption.
Defined.

(* ================================================================== *)
(** * More on wrapping *)
(* ================================================================== *)

Lemma split_chars (sep : char) (s w : jsstring) (c : char) :
  In w (split sep s) -> In c w -> In c s /\ c <> sep.
Proof.
  revert w. induction s as [|d s IH]; intros w Hw Hc.
  - cbn in Hw. destruct Hw as [<-|[]]. destruct Hc.
  - cbn [split] in Hw. destruct (N.eqb_spec d sep) as [->|Hne].
    + destruct Hw as [<-|Hw]; [destruct Hc|].
      destruct (IH w Hw Hc) as [Hin Hsep]. split; [now right | exact Hsep].
    + destruct (split sep s) as [|v vs] eqn:E.
      * destruct Hw as [<-|[]]. destruct Hc as [<-|[]].
        split; [now left | exact Hne].
      * destruct Hw as [<-|Hw].
        -- destruct Hc as [<-|Hc]; [split; [now left | exact Hne]|].
           destruct (IH v (or_introl eq_refl) Hc) as [Hin Hsep].
           split; [now right | exact Hsep].
        -- destruct (IH w (or_intror Hw) Hc) as [Hin Hsep].
           split; [now right | exact Hsep].
Qed.


Section WrapClean.

Variable maxWidth : Number.
Variable font : Font.
Variable fontSize : Number.

Definition cleanInv (st : list jsstring * jsstring) : Prop :=
  Forall cleanLine (fst st) /\ (snd st = [] \/ cleanLine (snd st)).

Lemma plainWord_clean (w : jsstring) :
  plainWord w -> w = [] \/ cleanLine w.
Proof.
  intros [Hs Hn]. destruct w as [|c w]; [now left|]. right. split.
  - exists c, w. split; [reflexivity|]. intros ->. apply Hs. now left.
  - exact Hn.
Qed.

Lemma cleanLine_extend (cur w : jsstring) :
  cleanLine cur -> plainWord w -> cleanLine (cur ++ [space] ++ w).
Proof.
  intros [(c & rest & -> & Hc) Hn] [_ Hw]. split.
  - exists c, (rest ++ [space] ++ w). split; [reflexivity | exact Hc].
  - intros Hin. apply in_app_or in Hin. destruct Hin as [Hin|Hin].
    + now apply Hn.
    + cbn in Hin. destruct Hin as [Heq|Hin]; [discriminate | now apply Hw].
Qed.

Lemma step_clean (st : list jsstring * jsstring) (w : jsstring) :
  cleanInv st -> plainWord w ->
  cleanInv (wrapStep maxWidth font fontSize st w).
Proof.
  destruct st as [lines cur]. intros [Hl Hc] Hw. unfold wrapStep.
  cbn [fst snd] in *.
  destruct (truthy (trim _)); [|now split].
  destruct cur as [|c cur].
  - cbn [truthy andb]. rewrite Bool.andb_false_r.
    split; [exact Hl | now apply plainWord_clean].
  - destruct Hc as [Hc|Hc]; [discriminate|].
    cbn [truthy]. rewrite Bool.andb_true_r.
    destruct (JSNumber.gtb _ _).
    + split; cbn [fst snd].
      * apply Forall_app. split; [exact Hl | now constructor].
      * now apply plainWord_clean.
    + split; [exact Hl|]. right. now apply cleanLine_extend.
Qed.

Lemma fold_clean (ws : list jsstring) (st : list jsstring * jsstring) :
  cleanInv st -> Forall plainWord ws ->
  cleanInv (fold_left (wrapStep maxWidth font fontSize) ws st).
Proof.
  revert st. induction ws as [|w ws IH]; intros st Hst Hws; [exact Hst|].
  inversion Hws; subst. cbn [fold_left]. apply IH; [|assumption].
  now apply step_clean.
Qed.

Lemma wrapParagraph_clean (p : jsstring) :
  ~ In newline p ->
  Forall cleanLine (wrapParagraph maxWidth font fontSize p).
Proof.
  intros Hp. unfold wrapParagraph.
  assert (Hws : Forall plainWord (split space p)).
  { apply Forall_forall. intros w Hw. split.
    - intros Hin. now destruct (split_chars space p w space Hw Hin).
    - intros Hin. apply Hp.
      now destruct (split_chars space p w newline Hw Hin). }
  pose proof (fold_clean (split space p) ([], [])
                (conj (Forall_nil _) (or_introl eq_refl)) Hws) as H.
  destruct (fold_left _ _ _) as [lines cur]. destruct H as [Hl Hc].
  cbn [fst snd] in *. destruct cur as [|c cur]; [exact Hl|].
  cbn [truthy]. apply Forall_app. split; [exact Hl|].
  destruct Hc as [Hc|Hc]; [discriminate | now constructor].
Qed.

End WrapClean.

(** X11.  Each line [wrapText] returns can be drawn as one line: it holds
    no line break and begins with a character that is not a space.  The
    only exception is the single empty line returned for a text without
    any visible word. *)
Theorem wrapText_lines_clean :
  forall (text : jsstring) (maxWidth : Number) (font : Font)
         (fontSize : Number),
    wrapText text maxWidth font fontSize = [[]]
    \/ Forall cleanLine (wrapText text maxWidth font fontSize).
Proof.
  intros text maxWidth font fontSize.
  rewrite wrapText_unfold.
  assert (H : Forall cleanLine (paragraphLines text maxWidth font fontSize)).
  { unfold paragraphLines. apply Forall_flat_map, Forall_forall.
    intros p Hp. apply wrapParagraph_clean. intros Hin.
    now destruct (split_chars newline text p newline Hp Hin). }
  destruct (paragraphLines text maxWidth font fontSize);
    [now left | now right].
Qed.

(** ** Text that fits *)

Lemma split_none (sep : char) (s : jsstring) :
  ~ In sep s -> split sep s = [s].
Proof.
  induction s as [|c s IH]; intros Hs; [reflexivity|].
  cbn [split]. destruct (N.eqb_spec c sep) as [->|Hne].
  - exfalso. apply Hs. now left.
  - rewrite IH; [reflexivity|]. intros Hin. apply Hs. now right.
Qed.

Lemma split_join (sep : char) (w : jsstring) (ws : list jsstring) :
  Forall (fun v => ~ In sep v) (w :: ws) ->
  split sep (join [sep] (w :: ws)) = w :: ws.
Proof.
  revert w. induction ws as [|v ws IH]; intros w Hw.
  - cbn [join]. apply split_none. now inversion Hw.
  - inversion Hw as [|? ? Hw1 Hw2]; subst.
    change (join [sep] (w :: v :: ws))
      with (w ++ sep :: join [sep] (v :: ws)).
    rewrite split_app, (split_none sep w Hw1), (IH v Hw2). reflexivity.
Qed.

Lemma join_chars (sep c : char) (ws : list jsstring) :
  In c (join [sep] ws) -> c = sep \/ exists w, In w ws /\ In c w.
Proof.
  induction ws as [|w ws IH]; [intros []|].
  destruct ws as [|v ws].
  - cbn [join]. intros Hc. right. exists w. split; [now left | exact Hc].
  - change (join [sep] (w :: v :: ws))
      with (w ++ sep :: join [sep] (v :: ws)).
    intros Hc. apply in_app_or in Hc. destruct Hc as [Hc|[Hc|Hc]].
    + right. exists w. split; [now left | exact Hc].
    + now left.
    + destruct (IH Hc) as [->|(u & Hu & Hcu)]; [now left|].
      right. exists u. split; [now right | exact Hcu].
Qed.

Lemma hasWord_join (sep : jsstring) (w : jsstring) (ws : list jsstring) :
  hasWord w = true -> hasWord (join sep (w :: ws)) = true.
Proof.
  intros Hw. destruct ws as [|v ws]; [exact Hw|].
  change (join sep (w :: v :: ws)) with (w ++ sep ++ join sep (v :: ws)).
  now rewrite hasWord_app, Hw.
Qed.

Section WrapFits.

Variable maxWidth : Number.
Variable font : Font.
Variable fontSize : Number.

Lemma fold_fits (rest : list jsstring) (w : jsstring)
    (pre : list jsstring) :
  hasWord w = true ->
  (forall n, (1 <= n)%nat ->
     JSNumber.gtb
       (widthOfTextAtSize font
          (join [space] ((w :: pre) ++ firstn n rest)) fontSize)
       maxWidth = false) ->
  fold_left (wrapStep maxWidth font fontSize) rest
            ([], join [space] (w :: pre))
  = ([], join [space] ((w :: pre) ++ rest)).
Proof.
  intros Hw. revert pre. induction rest as [|v rest IH]; intros pre Hfit.
  - now rewrite app_nil_r.
  - cbn [fold_left].
    assert (Hcur : truthy (join [space] (w :: pre)) = true).
    { pose proof (hasWord_join [space] w pre Hw) as H.
      destruct (join [space] (w :: pre)); [discriminate | reflexivity]. }
    assert (Hstep : wrapStep maxWidth font fontSize
                      ([], join [space] (w :: pre)) v
                    = ([], join [space] ((w :: pre) ++ [v]))).
    { unfold wrapStep. rewrite Hcur.
      rewrite <- join_snoc by discriminate.
      rewrite truthy_trim.
      specialize (Hfit 1%nat (le_n 1)). cbn [firstn] in Hfit.
      change ((w :: pre) ++ [v]) with (w :: (pre ++ [v])) in *.
      rewrite (hasWord_join [space] w (pre ++ [v]) Hw).
      now rewrite Hfit. }
    rewrite Hstep.
    change ((w :: pre) ++ [v]) with (w :: (pre ++ [v])).
    rewrite IH.
    + cbn [app]. now rewrite <- app_assoc.
    + intros n Hn. specialize (Hfit (S n) (le_n_S _ _ (Nat.le_0_l n))).
      cbn [firstn app] in Hfit.
      cbn [app]. rewrite <- app_assoc. exact Hfit.
Qed.

Lemma wrapParagraph_fits (w : jsstring) (ws : list jsstring) :
  hasWord w = true ->
  Forall plainWord (w :: ws) ->
  (forall n, (2 <= n)%nat ->
     JSNumber.gtb
       (widthOfTextAtSize font (join [space] (firstn n (w :: ws)))
          fontSize)
       maxWidth = false) ->
  wrapParagraph maxWidth font fontSize (join [space] (w :: ws))
  = [join [space] (w :: ws)].
Proof.
  intros Hw Hplain Hfit. unfold wrapParagraph.
  rewrite split_join
    by (eapply Forall_impl; [|exact Hplain]; intros v Hv; apply Hv).
  cbn [fold_left].
  assert (Hfirst : wrapStep maxWidth font fontSize ([], []) w = ([], w)).
  { unfold wrapStep. cbn [truthy]. rewrite truthy_trim, Hw.
    now rewrite Bool.andb_false_r. }
  rewrite Hfirst.
  change w with (join [space] (w :: [])) at 1.
  rewrite fold_fits; [|exact Hw|].
  - cbn [app].
    pose proof (hasWord_join [space] w ws Hw) as H.
    destruct (join [space] (w :: ws)); [discriminate | reflexivity].
  - intros n Hn. apply (Hfit (S n)). lia.
Qed.

End WrapFits.

(** X12.  Text that fits is returned as it is, on one line: when the
    text is made of words joined by single spaces, the first of them
    with a visible character, and the text up to each of its words
    after the first is no wider than [maxWidth], [wrapText] returns the
    text itself as its only line.  (The first word is placed whatever
    its width.) *)
Theorem wrapText_fitting_text_unchanged :
  forall (w : jsstring) (ws : list jsstring) (maxWidth : Number)
         (font : Font) (fontSize : Number),
    hasWord w = true ->
    Forall plainWord (w :: ws) ->
    (forall n, (2 <= n)%nat ->
       JSNumber.gtb
         (widthOfTextAtSize font (join [space] (firstn n (w :: ws)))
            fontSize)
         maxWidth = false) ->
    wrapText (join [space] (w :: ws)) maxWidth font fontSize
    = [join [space] (w :: ws)].
Proof.
  intros w ws maxWidth font fontSize Hw Hplain Hfit.
  rewrite wrapText_unfold. unfold paragraphLines.
  rewrite split_none.
  - cbn [flat_map]. rewrite app_nil_r.
    now rewrite wrapParagraph_fits.
  - intros Hin. apply join_chars in Hin.
    destruct Hin as [Hin|(v & Hv & Hc)]; [discriminate|].
    rewrite Forall_forall in Hplain. now apply (Hplain v Hv).
Qed.

Lemma wrapText_fitting_text_unchanged_witness :
  wrapText (lit "INR Three Thousand") #100 (exampleFont Helvetica) #9
  = [lit "INR Three Thousand"].
Proof.
  apply (wrapText_fitting_text_unchanged (lit "INR")
           [lit "Three"; lit "Thousand"]).
  - reflexivity.
  - repeat constructor; cbn; intuition discriminate.
  - intros n _. do 4 (destruct n as [|n]; [vm_compute; reflexivity|]).
    vm_compute. reflexivity.
Defined.

(* ================================================================== *)
(** * Currency formatting *)
(* ================================================================== *)

Lemma string_of_uint_digits (d : Decimal.uint) :
  Forall (fun c => isDigit c = true) (lit (NilEmpty.string_of_uint d)).
Proof. induction d; cbn; constructor; try reflexivity; assumption. Qed.

Lemma digitsOfZ_shape (n : Z) :
  digitsOfZ n <> [] /\ Forall (fun c => isDigit c = true) (digitsOfZ n).
Proof.
  unfold digitsOfZ, NilZero.string_of_uint.
  destruct (N.to_uint (Z.to_N n)) as [|d|d|d|d|d|d|d|d|d|d] eqn:E;
    (split; [cbn; discriminate|]);
    try (rewrite <- E; apply string_of_uint_digits).
  repeat constructor.
Qed.

Lemma fixedDigits_two (n : Z) :
  exists whole d1 d2,
    fixedDigits n 2 = whole ++ lit "." ++ [d1; d2]
    /\ whole <> []
    /\ Forall (fun c => isDigit c = true) (whole ++ [d1; d2]).
Proof.
  unfold fixedDigits.
  destruct (digitsOfZ_shape n) as [Hne Hd].
  set (m := digitsOfZ n) in *. clearbody m.
  set (m' := if Nat.leb (List.length m) 2
             then repeat 48%N (2 + 1 - List.length m) ++ m else m).
  assert (Hlen : (3 <= List.length m')%nat).
  { unfold m'. destruct (Nat.leb_spec (List.length m) 2).
    - rewrite length_app, repeat_length.
      change (@List.length char) with (@List.length N) in *. lia.
    - change (@List.length char) with (@List.length N) in *. lia. }
  assert (Hd' : Forall (fun c => isDigit c = true) m').
  { unfold m'. destruct (Nat.leb (List.length m) 2); [|exact Hd].
    apply Forall_app. split; [|exact Hd].
    apply Forall_forall. intros c Hc. apply repeat_spec in Hc. now subst. }
  clearbody m'. clear Hne Hd m.
  set (k := (List.length m' - 2)%nat).
  assert (Hsk : List.length (skipn k m') = 2%nat)
    by (rewrite length_skipn; unfold k; lia).
  assert (Hfi : List.length (firstn k m') = k)
    by (rewrite length_firstn; unfold k; lia).
  destruct (skipn k m') as [|d1 [|d2 [|d3 rest]]] eqn:Es;
    try discriminate.
  exists (firstn k m'), d1, d2. split; [reflexivity|]. split.
  - intros E. rewrite E in Hfi. cbn in Hfi. unfold k in Hfi. lia.
  - pose proof (firstn_skipn k m') as F. rewrite Es in F.
    rewrite <- F in Hd'. exact Hd'.
Qed.

(** X13.  For every finite amount of magnitude below [1e21],
    [formatCurrency] returns [Rs ], a minus sign for a negative amount,
    at least one digit, a point and exactly two digits: never an
    exponent, [NaN] or [Infinity].  A zero of either sign is shown
    without a minus sign. *)
Theorem formatCurrency_two_decimals :
  forall (numberToString : Number -> jsstring) (amount : Number),
    below1e21 amount = true ->
    exists whole d1 d2,
      formatCurrency numberToString amount
      = lit "Rs "
        ++ match amount with S754_finite true _ _ => lit "-" | _ => [] end
        ++ whole ++ lit "." ++ [d1; d2]
      /\ whole <> []
      /\ Forall (fun c => isDigit c = true) (whole ++ [d1; d2]).
Proof.
  intros numberToString amount Hb.
  destruct amount as [s|s| |s m e]; try discriminate.
  - destruct (fixedDigits_two 0) as (whole & d1 & d2 & E & Hne & Hd).
    exists whole, d1, d2. unfold formatCurrency, toFixed.
    rewrite E. auto.
  - cbn [below1e21] in Hb. apply Bool.negb_true_iff in Hb.
    destruct (fixedDigits_two (nearestFixed m e 2))
      as (whole & d1 & d2 & E & Hne & Hd).
    exists whole, d1, d2. unfold formatCurrency, toFixed.
    rewrite Hb, E. destruct s; auto.
Qed.

Lemma formatCurrency_two_decimals_witness :
  exists whole d1 d2,
    formatCurrency integerToString (dec 303389 2)
    = lit "Rs " ++ whole ++ lit "." ++ [d1; d2]
    /\ whole <> []
    /\ Forall (fun c => isDigit c = true) (whole ++ [d1; d2]).
Proof.
  destruct (formatCurrency_two_decimals integerToString (dec 303389 2)
              eq_refl) as (whole & d1 & d2 & E & Hne & Hd).
  exists whole, d1, d2. repeat split; assumption.
Defined.

(* ================================================================== *)
(** * Totals *)
(* ================================================================== *)

Lemma add_relative (x y : Number) :
  valid x = true -> valid y = true ->
  is_finite x = true -> is_finite y = true ->
  Z.abs (scaled x + scaled y) <= 2 ^ 52 * oneUnit ->
  valid (x + y)%js = true /\ is_finite (x + y)%js = true
  /\ 2 ^ 52 * Z.abs (scaled (x + y)%js - (scaled x + scaled y))
     <= Z.abs (scaled x + scaled y).
Proof.
  intros Hvx Hvy Hfx Hfy Hb.
  apply approx_finite; [now apply add_approx|].
  eapply Z.le_trans; [exact Hb | exact unit_bound].
Qed.

Lemma orZero_valid (v : option Number) :
  validIfPresent v -> valid (orZero v) = true.
Proof.
  destruct v as [x|]; cbn [validIfPresent orZero]; [|reflexivity].
  intros Hx. destruct (JSNumber.truthy x); [exact Hx | reflexivity].
Qed.

Lemma baseAmount_valid (items : list LineItem.t) (start : Number) :
  valid start = true ->
  Forall (fun item => valid (LineItem.quantity item) = true
                      /\ valid (LineItem.rate item) = true) items ->
  valid (fold_left (fun sum item =>
                      (sum + LineItem.quantity item * LineItem.rate item)%js)
                   items start) = true.
Proof.
  revert start. induction items as [|item items IH]; intros start Hs Hi.
  - exact Hs.
  - inversion Hi as [|? ? [Hq Hr] Hrest]; subst. cbn [fold_left].
    apply IH; [|exact Hrest].
    apply add_valid; [exact Hs | now apply mul_valid].
Qed.

Lemma gap_rational (U : positive) (g b c s r : Z) :
  256 * Z.abs (g - (b + c + s + r)) <= Z.pos U ->
  (Qabs (Qmake g U
         - (Qmake b U + Qmake c U + Qmake s U + Qmake r U))
   <= Qmake 1 256)%Q.
Proof.
  intros H.
  assert (E : (Qmake g U
               - (Qmake b U + Qmake c U + Qmake s U + Qmake r U)
               == Qmake (g - (b + c + s + r)) U)%Q).
  { unfold Qeq, Qminus, Qplus, Qopp. cbn [Qnum Qden].
    rewrite !Pos2Z.inj_mul. ring. }
  rewrite E. unfold Qabs, Qle. cbn [Qnum Qden]. lia.
Qed.

(** X14.  The grand total is the sum of its components up to rounding:
    for an invoice whose numbers are well-formed doubles and whose base
    amount, tax amounts and round-off are finite and at most [2^40] in
    magnitude, the grand total [computeTotals] returns is finite and
    differs from the exact sum of base amount, CGST, SGST and round-off
    by at most [1/256], less than half a paisa. *)
Theorem computeTotals_grand_total_close :
  forall invoice : Invoice.t,
    wellFormed invoice ->
    magnitudeAtMost 40 (Totals.baseAmount (computeTotals invoice)) ->
    magnitudeAtMost 40 (Totals.cgstAmount (computeTotals invoice)) ->
    magnitudeAtMost 40 (Totals.sgstAmount (computeTotals invoice)) ->
    magnitudeAtMost 40 (Totals.roundOff (computeTotals invoice)) ->
    is_finite (Totals.grandTotal (computeTotals invoice)) = true
    /\ (totalsGap (computeTotals invoice) <= Qmake 1 256)%Q.
Proof.
  intros invoice (Hitems & Hcg & Hsg & Hro).
  unfold totalsGap, val. unfold computeTotals.
  cbn [Totals.baseAmount Totals.cgstAmount Totals.sgstAmount
       Totals.roundOff Totals.grandTotal Totals.taxTotal].
  set (base := fold_left _ _ _).
  set (cgst := (base * _)%js). set (sgst := (base * _)%js).
  set (ro := orZero _).
  intros [Hfb Hmb] [Hfc Hmc] [Hfs Hms] [Hfr Hmr].
  assert (Hvb : valid base = true)
    by (apply baseAmount_valid; [reflexivity | exact Hitems]).
  assert (Hvc : valid cgst = true)
    by (apply mul_valid; [exact Hvb | now apply orZero_valid]).
  assert (Hvs : valid sgst = true)
    by (apply mul_valid; [exact Hvb | now apply orZero_valid]).
  assert (Hvr : valid ro = true) by now apply orZero_valid.
  pose proof unit_pos as HU.
  destruct (add_relative cgst sgst Hvc Hvs Hfc Hfs) as (Hvt & Hft & Ht).
  { clearbody base cgst sgst ro. clear - Hmc Hms HU.
    generalize dependent oneUnit. intros u. lia. }
  destruct (add_relative base (cgst + sgst)%js Hvb Hvt Hfb Hft)
    as (Hv1 & Hf1 & H1).
  { clearbody base cgst sgst ro. clear - Hmb Hmc Hms Ht HU.
    generalize dependent oneUnit. intros u. lia. }
  destruct (add_relative (base + (cgst + sgst))%js ro Hv1 Hvr Hf1 Hfr)
    as (Hvg & Hfg & Hg).
  { clearbody base cgst sgst ro. clear - Hmb Hmc Hms Hmr Ht H1 HU.
    generalize dependent oneUnit. intros u. lia. }
  split; [exact Hfg|].
  apply gap_rational.
  change (Z.pos (2 ^ 1074)) with oneUnit.
  clearbody base cgst sgst ro. clear - Hmb Hmc Hms Hmr Ht H1 Hg HU.
  generalize dependent oneUnit. intros u. lia.
Qed.

Lemma computeTotals_grand_total_close_witness :
  is_finite (Totals.grandTotal
               (computeTotals (InvoiceData.invoice createInvoiceData)))
  = true
  /\ (totalsGap (computeTotals (InvoiceData.invoice createInvoiceData))
      <= Qmake 1 256)%Q.
Proof.
  apply computeTotals_grand_total_close.
  - split; [repeat constructor; vm_compute; reflexivity|].
    repeat split; vm_compute; reflexivity.
  - split; [vm_compute; reflexivity | vm_compute; discriminate].
  - split; [vm_compute; reflexivity | vm_compute; discriminate].
  - split; [vm_compute; reflexivity | vm_compute; discriminate].
  - split; [vm_compute; reflexivity | vm_compute; discriminate].
Defined.

(** ** The base amount is a number *)

Lemma plainAmount_atLeast (x : Number) :
  plainAmount x -> within 0 (scaled x) x.
Proof.
  intros (Hv & Hf & Hn). unfold nonNegative in Hn.
  apply leb_scaled in Hn; [|reflexivity | exact Hv | reflexivity | exact Hf].
  change (scaled #0) with 0 in Hn. repeat split; try assumption; lia.
Qed.

Lemma mul_plain (x y : Number) :
  plainAmount x -> plainAmount y -> atLeast 0 (x * y)%js.
Proof.
  intros Hx Hy.
  destruct (plainAmount_atLeast y Hy) as (Hvy & Hfy & Hsy).
  pose proof (plainAmount_atLeast x Hx) as Hwx.
  destruct y as [sy|sy| |sy my ey]; try discriminate.
  - destruct Hwx as (Hvx & Hfx & _).
    destruct x as [sx|sx| |sx mx ex]; try discriminate;
      (split; [reflexivity|]); right; (split; [reflexivity|]); cbn; lia.
  - destruct (bounded_inv my ey Hvy) as (Hey & _).
    pose proof (scaled_nonneg_sign sy my ey ltac:(lia) (proj1 Hsy)) as Hs.
    subst sy. apply mul_atLeast_zero;
      [eapply within_atLeast; exact Hwx | exact Hvy | eauto].
Qed.

Lemma add_not_negative (x y : Number) :
  atLeast 0 x -> atLeast 0 y -> atLeast 0 (x + y)%js.
Proof.
  intros [Hvx Hx] [Hvy Hy]. split; [now apply add_valid|].
  destruct Hx as [->|[Hfx Hx]].
  - left. destruct Hy as [->|[Hfy _]]; [reflexivity|].
    destruct y; try discriminate; reflexivity.
  - destruct Hy as [->|[Hfy Hy]].
    + left. destruct x; try discriminate; reflexivity.
    + pose proof (add_approx x y Hvx Hvy Hfx Hfy) as H.
      destruct (x + y)%js as [s|s| |s m e].
      * right. split; [reflexivity|]. cbn. lia.
      * left. destruct H as [H _]. destruct s; [lia | reflexivity].
      * contradiction.
      * right. split; [reflexivity|]. destruct H as [_ H].
        set (r := scaled (S754_finite s m e)) in *. clearbody r.
        clear - H Hx Hy. lia.
Qed.

(** X15.  When every item has a finite, non-negative quantity and rate,
    the base amount [computeTotals] returns is never NaN and never
    negative (it is [+Infinity] if the sum overflows). *)
Theorem computeTotals_base_not_negative :
  forall invoice : Invoice.t,
    Forall (fun item => plainAmount (LineItem.quantity item)
                        /\ plainAmount (LineItem.rate item))
           (Invoice.items invoice) ->
    is_nan (Totals.baseAmount (computeTotals invoice)) = false
    /\ nonNegative (Totals.baseAmount (computeTotals invoice)).
Proof.
  intros invoice Hitems.
  unfold computeTotals. cbn [Totals.baseAmount].
  assert (H : atLeast 0
                (fold_left
                   (fun sum item =>
                      (sum + LineItem.quantity item * LineItem.rate item)%js)
                   (Invoice.items invoice) #0)).
  { assert (H0 : atLeast 0 #0)
      by (split; [reflexivity | right; split; [reflexivity | cbn; lia]]).
    revert H0. generalize #0.
    induction Hitems as [|item items [Hq Hr] _ IH]; intros start Hs.
    - exact Hs.
    - cbn [fold_left]. apply IH.
      apply add_not_negative; [exact Hs | now apply mul_plain]. }
  split; [exact (atLeast_not_nan _ _ H)|].
  destruct H as [Hv [->|[Hf Hs]]]; [reflexivity|].
  unfold nonNegative.
  apply leb_scaled; [reflexivity | exact Hv | reflexivity | exact Hf |].
  exact Hs.
Qed.

Lemma computeTotals_base_not_negative_witness :
  is_nan (Totals.baseAmount
            (computeTotals (InvoiceData.invoice createInvoiceData)))
  = false
  /\ nonNegative (Totals.baseAmount
                    (computeTotals (InvoiceData.invoice createInvoiceData))).
Proof.
  apply computeTotals_base_not_negative.
  repeat constructor; vm_compute; reflexivity.
Defined.

(* ================================================================== *)
(** * Asset lookup and the API address *)
(* ================================================================== *)

(** X16.  [resolveAssetPath] returns the path of the first candidate
    whose file exists, and [null] exactly when no candidate's file
    exists; so [logo.png] is preferred to [logo.jpg], and that to
    [logo.jpeg]. *)
Theorem resolveAssetPath_first_existing :
  forall (existsSync : jsstring -> bool) (imagePath : jsstring -> jsstring)
         (candidates : list jsstring),
    match resolveAssetPath existsSync imagePath candidates with
    | Some path =>
        exists before candidate after,
          candidates = before ++ candidate :: after
          /\ path = imagePath candidate
          /\ existsSync path = true
          /\ Forall (fun c => existsSync (imagePath c) = false) before
    | None =>
        Forall (fun c => existsSync (imagePath c) = false) candidates
    end.
Proof.
  intros existsSync imagePath candidates.
  induction candidates as [|c rest IH]; [constructor|].
  cbn [resolveAssetPath].
  destruct (existsSync (imagePath c)) eqn:E.
  - exists [], c, rest. repeat split; [exact E | constructor].
  - destruct (resolveAssetPath existsSync imagePath rest) as [path|].
    + destruct IH as (before & candidate & after & -> & -> & Hex & Hno).
      exists (c :: before), candidate, after.
      repeat split; [exact Hex | now constructor].
    + now constructor.
Qed.

(** X17.  [resolveApiBaseUrl] never returns the empty string: a variable
    that is unset or empty is passed over, the Vite variable is
    preferred to the React one, and [http://localhost:5000] is the
    fallback. *)
Theorem resolveApiBaseUrl_not_empty :
  forall (importMeta : option (option ImportMetaEnv))
         (process : option (option ProcessEnv)),
    let url := resolveApiBaseUrl importMeta process in
    url <> []
    /\ (envVar importMeta VITE_API_BASE_URL = Some url
        \/ ((envVar importMeta VITE_API_BASE_URL = None
             \/ envVar importMeta VITE_API_BASE_URL = Some [])
            /\ (envVar process REACT_APP_API_BASE_URL = Some url
                \/ ((envVar process REACT_APP_API_BASE_URL = None
                     \/ envVar process REACT_APP_API_BASE_URL = Some [])
                    /\ url = lit "http://localhost:5000")))).
Proof.
  intros importMeta process. cbv zeta. unfold resolveApiBaseUrl.
  destruct (envVar importMeta VITE_API_BASE_URL) as [[|c v]|];
    cbv beta iota;
    [| split; [discriminate | now left] |];
    (destruct (envVar process REACT_APP_API_BASE_URL) as [[|d r]|];
     cbv beta iota; (split; [cbn; discriminate|]); right; split; auto).
Qed.

(* ================================================================== *)
(** * The scenario of the specification, as rendered *)
(* ================================================================== *)

(** How a list of primitives ends, found by peeling its leading
    parts. *)
Lemma ends_app {A} (P : list A -> Prop) (l1 l2 : list A) :
  (exists front tail, l2 = front ++ tail /\ P tail) ->
  exists front tail, l1 ++ l2 = front ++ tail /\ P tail.
Proof.
  intros (front & tail & -> & H). exists (l1 ++ front), tail.
  split; [apply app_assoc | exact H].
Qed.

(** The total row at the end of the items table. *)
Lemma total_row_ends (fonts : Fonts) (text : jsstring)
    (ops : list PageOp) :
  (exists front tail,
     ops = front ++ tail
     /\ exists labelX labelY labelWidth cellX cellY markerX markerY,
          tail =
            [ DrawText (lit "Total") labelX labelY #9 (bold fonts) black
                labelWidth;
              DrawText text cellX cellY #10 (bold fonts) black None;
              DrawText (lit "E. & O.E") markerX markerY #8 (normal fonts)
                black None ]) ->
  exists front labelX labelY labelWidth cellX cellY markerX markerY,
    ops = front ++
      [ DrawText (lit "Total") labelX labelY #9 (bold fonts) black
          labelWidth;
        DrawText text cellX cellY #10 (bold fonts) black None;
        DrawText (lit "E. & O.E") markerX markerY #8 (normal fonts)
          black None ].
Proof.
  intros (front & tail & E & (lx & ly & lw & cx & cy & mx & my & ->)).
  exists front, lx, ly, lw, cx, cy, mx, my. exact E.
Qed.

Ltac find_tail :=
  first [ exists []; eexists; split;
          [reflexivity | do 7 eexists; reflexivity]
        | apply ends_app; find_tail ].

(** C2, amended.  For a single line item of quantity 1 and rate 3033.89,
    rates cgst = sgst = 0.09 and round-off 0.01, [computeTotals] returns
    baseAmount 3033.89, and to four decimals cgstAmount 273.0501,
    sgstAmount 273.0501, taxTotal 546.1002 and grandTotal 3580.0002.
    The grand total is formatted as [Rs 3580.00], and that is the text
    the items table renders in its grand-total cell: whatever the cursor
    and the fonts, [drawItemsSection] ends with the total row, made of
    the label [Total], the grand-total cell reading [Rs 3580.00] in bold
    at size 10, and the marker [E. & O.E]. *)
Theorem scenario_totals :
  forall (numberToString : Number -> jsstring) (invoice : Invoice.t)
         (description unit : jsstring) (hsn : option jsstring),
    Invoice.items invoice
    = [LineItem.mk description #1 (dec 303389 2) unit hsn] ->
    Invoice.taxRates invoice
    = Some (TaxRates.mk (Some (dec 9 2)) (Some (dec 9 2))) ->
    Invoice.roundOff invoice = Some (dec 1 2) ->
    let totals := computeTotals invoice in
    Totals.baseAmount totals = dec 303389 2
    /\ toFixed numberToString (Totals.cgstAmount totals) 4 = lit "273.0501"
    /\ toFixed numberToString (Totals.sgstAmount totals) 4 = lit "273.0501"
    /\ toFixed numberToString (Totals.taxTotal totals) 4 = lit "546.1002"
    /\ toFixed numberToString (Totals.grandTotal totals) 4
       = lit "3580.0002"
    /\ formatCurrency numberToString (Totals.grandTotal totals)
       = lit "Rs 3580.00"
    /\ forall (startY : Number) (fonts : Fonts),
         exists ops bottom,
           runs (drawItemsSection numberToString invoice totals startY
                   fonts) bottom ops
           /\ exists front labelX labelY labelWidth cellX cellY
                     markerX markerY,
                ops = front ++
                  [ DrawText (lit "Total") labelX labelY #9 (bold fonts)
                      black labelWidth;
                    DrawText (lit "Rs 3580.00") cellX cellY #10
                      (bold fonts) black None;
                    DrawText (lit "E. & O.E") markerX markerY #8
                      (normal fonts) black None ].
Proof.
  intros nts invoice description unit hsn Hitems Hrates Hround totals.
  assert (Hfigures :
            Totals.baseAmount totals = dec 303389 2
            /\ toFixed nts (Totals.cgstAmount totals) 4 = lit "273.0501"
            /\ toFixed nts (Totals.sgstAmount totals) 4 = lit "273.0501"
            /\ toFixed nts (Totals.taxTotal totals) 4 = lit "546.1002"
            /\ toFixed nts (Totals.grandTotal totals) 4 = lit "3580.0002"
            /\ formatCurrency nts (Totals.grandTotal totals)
               = lit "Rs 3580.00").
  { subst totals. unfold computeTotals. rewrite Hitems, Hrates, Hround.
    vm_compute. repeat split. }
  destruct Hfigures as (Hb & Hc & Hs & Ht & Hg4 & Hg).
  repeat (split; [assumption|]).
  clearbody totals. intros startY fonts.
  unfold drawItemsSection. cbv beta iota zeta. rewrite Hg.
  eexists. eexists. split; [run_draw|].
  apply total_row_ends.
  find_tail.
Qed.

Lemma scenario_totals_witness :
  let invoice := InvoiceData.invoice createInvoiceData in
  let totals := computeTotals invoice in
  Totals.baseAmount totals = dec 303389 2
  /\ toFixed integerToString (Totals.cgstAmount totals) 4 = lit "273.0501"
  /\ toFixed integerToString (Totals.sgstAmount totals) 4 = lit "273.0501"
  /\ toFixed integerToString (Totals.taxTotal totals) 4 = lit "546.1002"
  /\ toFixed integerToString (Totals.grandTotal totals) 4 = lit "3580.0002"
  /\ formatCurrency integerToString (Totals.grandTotal totals)
     = lit "Rs 3580.00"
  /\ forall (startY : Number) (fonts : Fonts),
       exists ops bottom,
         runs (drawItemsSection integerToString invoice totals startY
                 fonts) bottom ops
         /\ exists front labelX labelY labelWidth cellX cellY
                   markerX markerY,
              ops = front ++
                [ DrawText (lit "Total") labelX labelY #9 (bold fonts)
                    black labelWidth;
                  DrawText (lit "Rs 3580.00") cellX cellY #10
                    (bold fonts) black None;
                  DrawText (lit "E. & O.E") markerX markerY #8
                    (normal fonts) black None ].
Proof.
  apply (scenario_totals integerToString
           (InvoiceData.invoice createInvoiceData)
           (lit "Monthly Payment") (lit "Nos.") None);
    reflexivity.
Defined.

(* ================================================================== *)
(** * Cursors of the section composers *)
(* ================================================================== *)

Lemma drawCompanyHeader_descends (company : Company.t) (top : Number)
    (fonts : Fonts) (logo : option Image.t) :
  cursorInRange top -> usableLogo logo ->
  descends (drawCompanyHeader company top fonts logo) top.
Proof.
  intros Hr Hlogo.
  destruct (cursor_facts top Hr) as [Ht Hs].
  pose proof unit_pos as HU.
  pose proof (step_within _ _ 6 _ Ht ltac:(const_check)
                ltac:(lia) ltac:(lia)) as T1.
  pose proof (step_within _ _ 14 _ T1 ltac:(const_check)
                ltac:(lia) ltac:(lia)) as T2.
  assert (Hfold : forall (w : Number) (lines : list jsstring),
             atLeast (scaled top + 18 * oneUnit)
               (fold_left
                  (fun (s : Number) (line : jsstring) =>
                     (fold_left (fun (s' : Number) (_ : jsstring) =>
                                   (s' + #12)%js)
                        (wrapText line w (normal fonts) #9) s + #2)%js)
                  lines (top + #6 + #14)%js)).
  { intros w lines. apply fold_left_invariant.
    - apply within_atLeast in T2.
      eapply atLeast_weaken; [|exact T2]. lia.
    - intros s line Hs'.
      apply step_keeps_atLeast; [const_check | lia | lia | lia |].
      apply fold_left_invariant; [exact Hs'|].
      intros s' _ Hs''.
      apply step_keeps_atLeast; [const_check | lia | lia | lia | exact Hs'']. }
  unfold descends, drawCompanyHeader. cbv beta iota zeta.
  destruct logo as [image|]; cbv beta iota zeta.
  - destruct Hlogo as [Hv Hn]. fold (logoHeight image).
    eexists. eexists. split; [run_draw|].
    destruct (add_finite_not_nan (top + #6)%js (logoHeight image))
      as [Hn1 _]; try assumption; try apply T1.
    pose proof (add_valid _ _ (proj1 T1) Hv) as Hv1.
    destruct (add_finite_not_nan #4 (top + #6 + logoHeight image)%js)
      as [_ Hn2]; try assumption; try reflexivity.
    pose proof (add_valid _ _ Hv1 (ofZ_valid 4)) as Hv2.
    eapply atLeast_gtb;
      [ apply max_atLeast_l; [apply Hfold | exact Hv2 | exact Hn2]
      | apply Ht | apply Ht | lia ].
  - eexists. eexists. split; [run_draw|].
    eapply atLeast_gtb;
      [ apply max_atLeast_l;
        [ apply Hfold | apply Ht
        | exact (atLeast_not_nan _ _ (within_atLeast _ _ _ Ht)) ]
      | apply Ht | apply Ht | lia ].
Qed.

(** The metadata table returns [top + 144], whatever the cursor. *)
Lemma drawInvoiceMetaTable_returns (invoice : Invoice.t) (top : Number)
    (fonts : Fonts) :
  exists ops,
    runs (drawInvoiceMetaTable invoice top fonts) (top + #144)%js ops.
Proof.
  unfold drawInvoiceMetaTable. cbv beta iota zeta.
  eexists. run_draw.
Qed.

Lemma drawInvoiceMetaTable_descends (invoice : Invoice.t) (top : Number)
    (fonts : Fonts) :
  cursorInRange top ->
  descends (drawInvoiceMetaTable invoice top fonts) top.
Proof.
  intros Hr. destruct (cursor_facts top Hr) as [Ht Hs].
  pose proof unit_pos as HU.
  destruct (drawInvoiceMetaTable_returns invoice top fonts) as [ops Hruns].
  exists ops, (top + #144)%js. split; [exact Hruns|].
  pose proof (step_within _ _ 144 _ Ht ltac:(const_check)
                ltac:(lia) ltac:(lia)) as H1.
  eapply within_gtb; [exact H1 | exact Ht | lia].
Qed.

Lemma drawPartyBlocks_descends (invoice : Invoice.t) (top : Number)
    (fonts : Fonts) :
  cursorInRange top -> descends (drawPartyBlocks invoice top fonts) top.
Proof.
  intros Hr. destruct (cursor_facts top Hr) as [Ht Hs].
  pose proof unit_pos as HU.
  unfold descends, drawPartyBlocks, drawPartyBox, drawTermsBox.
  cbv beta iota zeta.
  eexists. eexists. split; [run_draw|].
  pose proof (step_within _ _ 82 _ Ht ltac:(const_check)
                ltac:(lia) ltac:(lia)) as H1.
  pose proof (step_within _ _ 82 _ H1 ltac:(const_check)
                ltac:(lia) ltac:(lia)) as H2.
  eapply within_gtb; [exact H2 | exact Ht | lia].
Qed.

Lemma drawItemsSection_descends (numberToString : Number -> jsstring)
    (invoice : Invoice.t) (totals : Totals.t) (startY : Number)
    (fonts : Fonts) :
  cursorInRange startY ->
  descends (drawItemsSection numberToString invoice totals startY fonts)
           startY.
Proof.
  intros Hr. destruct (cursor_facts startY Hr) as [Ht Hs].
  pose proof unit_pos as HU.
  unfold descends, drawItemsSection. fold (shownItem invoice).
  cbv beta iota zeta.
  change (at_ [#30; #225; #55; #45; #65; #22; #85] 1) with #225.
  set (lines := wrapText _ _ _ _).
  eexists. eexists. split; [run_draw|].
  pose proof (step_within _ _ 26 _ Ht ltac:(const_check)
                ltac:(lia) ltac:(lia)) as H1.
  pose proof (step_atLeast _ _ (22 * oneUnit) _ _
                (const_atLeast (#15 + #8)%js 23 ltac:(const_check))
                (lines_atLeast (List.length lines) 15 ltac:(const_check))
                ltac:(lia) ltac:(lia) ltac:(lia) ltac:(lia)) as D1.
  pose proof (step_atLeast _ _ (74 * oneUnit) _ _ D1
                (const_atLeast (ofNat 3 * #15 + #8)%js 53
                   ltac:(const_check))
                ltac:(lia) ltac:(lia) ltac:(lia) ltac:(lia)) as D2.
  pose proof (step_atLeast _ _ (85 * oneUnit) _ _ D2
                (const_atLeast #12 12 ltac:(const_check))
                ltac:(lia) ltac:(lia) ltac:(lia) ltac:(lia)) as D3.
  pose proof (step_atLeast _ _ (scaled startY + 109 * oneUnit) _ _
                (within_atLeast _ _ _ H1) D3
                ltac:(lia) ltac:(lia) ltac:(lia) ltac:(lia)) as D4.
  pose proof (step_atLeast _ _ (scaled startY + 128 * oneUnit) _ _ D4
                (const_atLeast #20 20 ltac:(const_check))
                ltac:(lia) ltac:(lia) ltac:(lia) ltac:(lia)) as D5.
  eapply atLeast_gtb; [exact D5 | apply Ht | apply Ht | lia].
Qed.

Lemma drawAmountSummaries_descends (invoice : Invoice.t)
    (startY : Number) (fonts : Fonts) :
  cursorInRange startY ->
  descends (drawAmountSummaries invoice startY fonts) startY.
Proof.
  intros Hr. destruct (cursor_facts startY Hr) as [Ht Hs].
  pose proof unit_pos as HU.
  unfold descends, drawAmountSummaries. cbv beta iota zeta.
  set (lines := wrapText _ _ _ _).
  eexists. eexists. split; [run_draw|].
  pose proof (max_const_atLeast 14 _ ltac:(const_check)
                (lines_atLeast (List.length lines) 11
                   ltac:(const_check))) as Hm.
  pose proof (add_atLeast _ _ _ _ (within_atLeast _ _ _ Ht) Hm
                ltac:(lia)) as Hsum.
  eapply atLeast_gtb; [exact Hsum | apply Ht | apply Ht | lia].
Qed.

Lemma drawTaxBreakup_descends (numberToString : Number -> jsstring)
    (invoice : Invoice.t) (rates : TaxRates.t) (totals : Totals.t)
    (startY : Number) (fonts : Fonts) :
  Invoice.taxRates invoice = Some rates ->
  cursorInRange startY ->
  descends (drawTaxBreakup numberToString invoice totals startY fonts)
           startY.
Proof.
  intros Hrates Hr. destruct (cursor_facts startY Hr) as [Ht Hs].
  pose proof unit_pos as HU.
  unfold descends, drawTaxBreakup. rewrite Hrates. cbv beta iota zeta.
  unfold member.
  set (lines := wrapText _ _ _ _).
  eexists. eexists. split; [run_draw|].
  pose proof (step_within _ _ 24 _ Ht ltac:(const_check)
                ltac:(lia) ltac:(lia)) as K1.
  pose proof (step_within _ _ 24 _ K1 ltac:(const_check)
                ltac:(lia) ltac:(lia)) as K2.
  pose proof (step_within _ _ 24 _ K2 ltac:(const_check)
                ltac:(lia) ltac:(lia)) as K3.
  pose proof (step_within _ _ 12 _ K3 ltac:(const_check)
                ltac:(lia) ltac:(lia)) as K4.
  pose proof (max_const_atLeast 16 _ ltac:(const_check)
                (lines_atLeast (List.length lines) 11
                   ltac:(const_check))) as Hm.
  pose proof (add_atLeast _ _ _ _ (within_atLeast _ _ _ K4) Hm
                ltac:(lia)) as Hsum.
  eapply atLeast_gtb; [exact Hsum | apply Ht | apply Ht | lia].
Qed.

Lemma drawBankAndRemarks_descends (invoice : Invoice.t) (bank : Bank.t)
    (startY : Number) (fonts : Fonts) :
  cursorInRange startY ->
  descends (drawBankAndRemarks invoice bank startY fonts) startY.
Proof.
  intros Hr. destruct (cursor_facts startY Hr) as [Ht Hs].
  pose proof unit_pos as HU.
  unfold descends, drawBankAndRemarks. cbv beta iota zeta.
  set (remarksLines := wrapText (Invoice.remarks invoice) _ _ _).
  set (declarationLines := wrapText (Invoice.declaration invoice) _ _ _).
  eexists. eexists. split; [run_draw|].
  pose proof (step_within _ _ 14 _ Ht ltac:(const_check)
                ltac:(lia) ltac:(lia)) as B1.
  pose proof (step_within _ _ 13 _ B1 ltac:(const_check)
                ltac:(lia) ltac:(lia)) as B2.
  pose proof (step_within _ _ 13 _ B2 ltac:(const_check)
                ltac:(lia) ltac:(lia)) as B3.
  pose proof (step_within _ _ 13 _ B3 ltac:(const_check)
                ltac:(lia) ltac:(lia)) as B4.
  pose proof (step_atLeast _ _ (9 * oneUnit) _ _
                (lines_atLeast (List.length remarksLines) 12
                   ltac:(const_check))
                (const_atLeast #10 10 ltac:(const_check))
                ltac:(lia) ltac:(lia) ltac:(lia) ltac:(lia)) as L1.
  pose proof (step_atLeast _ _ (scaled startY + 21 * oneUnit) _ _
                (within_atLeast _ _ _ B1) L1
                ltac:(lia) ltac:(lia) ltac:(lia) ltac:(lia)) as L2.
  pose proof (step_atLeast _ _ (scaled startY + 34 * oneUnit) _ _ L2
                (const_atLeast #14 14 ltac:(const_check))
                ltac:(lia) ltac:(lia) ltac:(lia) ltac:(lia)) as L3.
  pose proof (step_atLeast _ _ (scaled startY + 33 * oneUnit) _ _ L3
                (lines_atLeast (List.length declarationLines) 12
                   ltac:(const_check))
                ltac:(lia) ltac:(lia) ltac:(lia) ltac:(lia)) as L4.
  pose proof (max_comm_atLeast _ _ _ (within_atLeast _ _ _ B4)
                (atLeast_valid _ _ L4) (atLeast_not_nan _ _ L4)) as M.
  pose proof (step_atLeast _ _ (scaled startY + 54 * oneUnit) _ _ M
                (const_atLeast #6 6 ltac:(const_check))
                ltac:(lia) ltac:(lia) ltac:(lia) ltac:(lia)) as S.
  eapply atLeast_gtb; [exact S | apply Ht | apply Ht | lia].
Qed.

(** C8 as stated fails for a cursor so large that a section's height is
    lost to rounding: given the cursor [2^62], the metadata table
    returns [2^62 + 144], which is the double [2^62] again, not a
    greater one. *)
Lemma cursor_step_lost_to_rounding :
  ~ (forall (invoice : Invoice.t) (top : Number) (fonts : Fonts),
       valid top = true -> is_finite top = true ->
       descends (drawInvoiceMetaTable invoice top fonts) top).
Proof.
  intros H.
  destruct (H (InvoiceData.invoice createInvoiceData) (ofZ (2 ^ 62))
              exampleFonts eq_refl eq_refl)
    as (ops & bottom & Hruns & Hgt).
  destruct (drawInvoiceMetaTable_returns
              (InvoiceData.invoice createInvoiceData) (ofZ (2 ^ 62))
              exampleFonts) as [ops' Hruns'].
  destruct (runs_unique _ _ _ _ _ Hruns Hruns') as [-> _].
  vm_compute in Hgt. discriminate Hgt.
Qed.

(** C8, amended.  For data of the data model, an invoice with tax rates,
    a logo (if any) whose scaled height is a number, and a starting
    cursor in range (between 0 and [2^50]), each of the seven section
    composers runs without throwing and returns a cursor strictly
    greater than the one it was given. *)
Theorem section_cursors_descend :
  forall (numberToString : Number -> jsstring) (data : InvoiceData.t)
         (rates : TaxRates.t) (totals : Totals.t) (fonts : Fonts)
         (logo : option Image.t) (top : Number),
    Invoice.taxRates (InvoiceData.invoice data) = Some rates ->
    usableLogo logo ->
    cursorInRange top ->
    let company := InvoiceData.company data in
    let invoice := InvoiceData.invoice data in
    let bank := InvoiceData.bank data in
    descends (drawCompanyHeader company top fonts logo) top
    /\ descends (drawInvoiceMetaTable invoice top fonts) top
    /\ descends (drawPartyBlocks invoice top fonts) top
    /\ descends (drawItemsSection numberToString invoice totals top fonts)
                top
    /\ descends (drawAmountSummaries invoice top fonts) top
    /\ descends (drawTaxBreakup numberToString invoice totals top fonts)
                top
    /\ descends (drawBankAndRemarks invoice bank top fonts) top.
Proof.
  intros numberToString data rates totals fonts logo top Hrates Hlogo Hr
         company invoice bank.
  split; [now apply drawCompanyHeader_descends|].
  split; [now apply drawInvoiceMetaTable_descends|].
  split; [now apply drawPartyBlocks_descends|].
  split; [now apply drawItemsSection_descends|].
  split; [now apply drawAmountSummaries_descends|].
  split; [now apply (drawTaxBreakup_descends _ _ rates)|].
  now apply drawBankAndRemarks_descends.
Qed.

Lemma section_cursors_descend_witness :
  let company := InvoiceData.company createInvoiceData in
  let invoice := InvoiceData.invoice createInvoiceData in
  let bank := InvoiceData.bank createInvoiceData in
  let totals := computeTotals invoice in
  let logo := Some exampleLogo in
  descends (drawCompanyHeader company exampleTop exampleFonts logo)
           exampleTop
  /\ descends (drawInvoiceMetaTable invoice exampleTop exampleFonts)
              exampleTop
  /\ descends (drawPartyBlocks invoice exampleTop exampleFonts) exampleTop
  /\ descends (drawItemsSection integerToString invoice totals exampleTop
                 exampleFonts) exampleTop
  /\ descends (drawAmountSummaries invoice exampleTop exampleFonts)
              exampleTop
  /\ descends (drawTaxBreakup integerToString invoice totals exampleTop
                 exampleFonts) exampleTop
  /\ descends (drawBankAndRemarks invoice bank exampleTop exampleFonts)
              exampleTop.
Proof.
  exact (section_cursors_descend integerToString createInvoiceData
           (TaxRates.mk (Some (dec 9 2)) (Some (dec 9 2)))
           (computeTotals (InvoiceData.invoice createInvoiceData))
           exampleFonts (Some exampleLogo) exampleTop eq_refl
           exampleLogo_usable exampleTop_inRange).
Defined.

(* ================================================================== *)
(** * The grid of the tax breakup *)
(* ================================================================== *)







(* ================================================================== *)
(** * The totals identity *)
(* ================================================================== *)

(** C3 as stated fails for large amounts: with one item of quantity 1
    at a rate of 9000000000000001, both rates 0.09 and a round-off of
    0.01 (all finite and non-negative), the grand total is
    10620000000000000, more than one rupee away from the sum of its
    components, and so not equal to it at two decimal places. *)
Lemma totals_identity_large_amounts :
  ~ (forall invoice : Invoice.t,
       wellFormed invoice ->
       Forall (fun item => plainAmount (LineItem.quantity item)
                           /\ plainAmount (LineItem.rate item))
              (Invoice.items invoice) ->
       nonNegativeIfPresent
         (optChain (Invoice.taxRates invoice) TaxRates.cgst) ->
       nonNegativeIfPresent
         (optChain (Invoice.taxRates invoice) TaxRates.sgst) ->
       (totalsGap (computeTotals invoice) <= Qmake 1 200)%Q).
Proof.
  intros H.
  assert (Hgap : (totalsGap (computeTotals largeInvoice)
                  <= Qmake 1 200)%Q).
  { apply H.
    - split; [repeat constructor; vm_compute; reflexivity|].
      repeat split; vm_compute; reflexivity.
    - repeat constructor; vm_compute; reflexivity.
    - vm_compute. reflexivity.
    - vm_compute. reflexivity. }
  vm_compute in Hgap. apply Hgap. reflexivity.
Qed.

(** C3, amended.  For every invoice whose numbers are well-formed
    doubles and whose base amount, tax amounts and round-off are finite
    and at most [2^40] in magnitude, the totals [computeTotals] returns
    have baseAmount the sum of quantity times rate over the items,
    cgstAmount and sgstAmount the base amount times the rate (zero for
    a missing rate), and a finite grandTotal that differs from the
    exact sum baseAmount + cgstAmount + sgstAmount + roundOff by at
    most [1/256], which is less than half of [0.01]. *)
Theorem computeTotals_totals_identity :
  forall invoice : Invoice.t,
    wellFormed invoice ->
    magnitudeAtMost 40 (Totals.baseAmount (computeTotals invoice)) ->
    magnitudeAtMost 40 (Totals.cgstAmount (computeTotals invoice)) ->
    magnitudeAtMost 40 (Totals.sgstAmount (computeTotals invoice)) ->
    magnitudeAtMost 40 (Totals.roundOff (computeTotals invoice)) ->
    let totals := computeTotals invoice in
    let rate field := orZero (optChain (Invoice.taxRates invoice) field) in
    Totals.baseAmount totals
    = fold_left (fun sum item =>
                   (sum + LineItem.quantity item * LineItem.rate item)%js)
                (Invoice.items invoice) #0
    /\ Totals.cgstAmount totals
       = (Totals.baseAmount totals * rate TaxRates.cgst)%js
    /\ Totals.sgstAmount totals
       = (Totals.baseAmount totals * rate TaxRates.sgst)%js
    /\ is_finite (Totals.grandTotal totals) = true
    /\ (totalsGap totals <= Qmake 1 256)%Q.
Proof.
  intros invoice (Hitems & Hcg & Hsg & Hro) Hb Hc Hs Hr totals rate.
  split; [reflexivity|]. split; [reflexivity|]. split; [reflexivity|].
  cut (is_finite (Totals.grandTotal totals) = true
       /\ (totalsGap totals <= Qmake 1 256)%Q).
  { intros [Hfin Hgap]. repeat split; assumption. }
  subst totals rate. revert Hb Hc Hs Hr.
  unfold totalsGap, val. unfold computeTotals.
  cbn [Totals.baseAmount Totals.cgstAmount Totals.sgstAmount
       Totals.roundOff Totals.grandTotal Totals.taxTotal].
  set (base := fold_left _ _ _).
  set (cgst := (base * _)%js). set (sgst := (base * _)%js).
  set (ro := orZero _).
  intros [Hfb Hmb] [Hfc Hmc] [Hfs Hms] [Hfr Hmr].
  assert (Hvb : valid base = true)
    by (apply baseAmount_valid; [reflexivity | exact Hitems]).
  assert (Hvc : valid cgst = true)
    by (apply mul_valid; [exact Hvb | now apply orZero_valid]).
  assert (Hvs : valid sgst = true)
    by (apply mul_valid; [exact Hvb | now apply orZero_valid]).
  assert (Hvr : valid ro = true) by now apply orZero_valid.
  pose proof unit_pos as HU.
  destruct (add_relative cgst sgst Hvc Hvs Hfc Hfs) as (Hvt & Hft & Ht).
  { clearbody base cgst sgst ro. clear - Hmc Hms HU.
    generalize dependent oneUnit. intros u. lia. }
  destruct (add_relative base (cgst + sgst)%js Hvb Hvt Hfb Hft)
    as (Hv1 & Hf1 & H1).
  { clearbody base cgst sgst ro. clear - Hmb Hmc Hms Ht HU.
    generalize dependent oneUnit. intros u. lia. }
  destruct (add_relative (base + (cgst + sgst))%js ro Hv1 Hvr Hf1 Hfr)
    as (Hvg & Hfg & Hg).
  { clearbody base cgst sgst ro. clear - Hmb Hmc Hms Hmr Ht H1 HU.
    generalize dependent oneUnit. intros u. lia. }
  split; [exact Hfg|].
  apply gap_rational.
  change (Z.pos (2 ^ 1074)) with oneUnit.
  clearbody base cgst sgst ro. clear - Hmb Hmc Hms Hmr Ht H1 Hg HU.
  generalize dependent oneUnit. intros u. lia.
Qed.

Lemma computeTotals_totals_identity_witness :
  let totals := computeTotals (InvoiceData.invoice createInvoiceData) in
  is_finite (Totals.grandTotal totals) = true
  /\ (totalsGap totals <= Qmake 1 256)%Q.
Proof.
  destruct (computeTotals_totals_identity
              (InvoiceData.invoice createInvoiceData))
    as (_ & _ & _ & Hfin & Hgap).
  - split; [repeat constructor; vm_compute; reflexivity|].
    repeat split; vm_compute; reflexivity.
  - split; [vm_compute; reflexivity | vm_compute; discriminate].
  - split; [vm_compute; reflexivity | vm_compute; discriminate].
  - split; [vm_compute; reflexivity | vm_compute; discriminate].
  - split; [vm_compute; reflexivity | vm_compute; discriminate].
  - split; assumption.
Defined.
